(** * The playback engine of main.py ([MusicPlayer]), embedded in Rocq.

    The engine is a Python object with six mutable fields, driven by
    transport calls and by a 300 ms timer ([_tick]).  It talks to three
    collaborators that are outside the program: the pygame mixer (every call
    may raise), the wall clock ([time.time()]) and the file system
    ([os.path.isfile], the mutagen duration probe).

    Modelling choices.
    - Python floats are idealised as exact rationals ([Q]); integers are [Z].
    - A method is a computation in a small state-and-exception monad [M].
      The monad threads the object ([self]), the list of Qt signals emitted
      so far, and the number of wall-clock reads made so far.
    - Whatever the collaborators answer during one method call is an input of
      that call, collected in an [Env].
    - [print] and [traceback.print_exc] only write to the console and are
      left out. *)

From Stdlib Require Import ZArith QArith Qminmax String List Bool Lia Lqa.
From Stdlib Require Import Ascii DecimalString.
Import ListNotations.

Local Open Scope Z_scope.
Local Open Scope Q_scope.

(** ** Python values and exceptions *)

Inductive exn : Type :=
| TypeError
| IndexError
| ValueError
| PygameError.

Inductive result (A : Type) : Type :=
| Ok (a : A)
| Raise (e : exn).

Arguments Ok {A} a.
Arguments Raise {A} e.

(** The three signals of [MusicPlayer]. *)
Inductive Event : Type :=
| state_changed
| track_changed (path : string)
| position_updated (cur total : Q).

(** ** The object *)

Record MusicPlayer : Type := mkPlayer {
  playlist : list string;
  current_index : Z;
  playing : bool;
  volume : Q;
  _track_start_time : option Q;
  _track_offset_seconds : Q
}.

(** ** The collaborators, as seen during one method call *)

Record Env : Type := mkEnv {
  (* pygame.mixer.music *)
  music_load : string -> result unit;
  music_play_start : Q -> result unit;   (* play(loops=0, start=s) *)
  music_play : result unit;              (* play() *)
  music_set_pos : Q -> result unit;
  music_pause : result unit;
  music_unpause : result unit;
  music_stop : result unit;
  music_set_volume : Q -> result unit;
  music_get_pos : result Z;              (* milliseconds, -1 when unknown *)
  music_get_busy : result bool;
  (* time.time(): the k-th read made during the call *)
  clock : nat -> Q;
  (* os.path.isfile and the mutagen probe wrapped by get_duration *)
  is_file : string -> bool;
  get_duration : string -> Q
}.

(** ** The monad *)

Record Machine : Type := mkMachine {
  self : MusicPlayer;
  emitted : list Event;
  reads : nat
}.

Definition M (A : Type) : Type := Env -> Machine -> result A * Machine.

Definition ret {A} (a : A) : M A := fun _ m => (Ok a, m).

Definition bind {A B} (c : M A) (k : A -> M B) : M B :=
  fun e m =>
    match c e m with
    | (Ok a, m') => k a e m'
    | (Raise x, m') => (Raise x, m')
    end.

Definition raise {A} (x : exn) : M A := fun _ m => (Raise x, m).

Declare Scope py_scope.
Delimit Scope py_scope with py.
Notation "x <- c ;; k" := (bind c (fun x => k))
  (at level 61, c at next level, right associativity) : py_scope.
Notation "c ;; k" := (bind c (fun _ => k))
  (at level 61, right associativity) : py_scope.
Local Open Scope py_scope.

(** [try: c except Exception: h] — every exception of the model is an
    [Exception]; the effects [c] had before it raised stay. *)
Definition try_except {A} (c : M A) (h : exn -> M A) : M A :=
  fun e m =>
    match c e m with
    | (Ok a, m') => (Ok a, m')
    | (Raise x, m') => h x e m'
    end.

(** [try: c except TypeError: h] — anything else propagates. *)
Definition try_except_TypeError {A} (c : M A) (h : M A) : M A :=
  fun e m =>
    match c e m with
    | (Ok a, m') => (Ok a, m')
    | (Raise TypeError, m') => h e m'
    | (Raise x, m') => (Raise x, m')
    end.

Definition pass : M unit := ret tt.

Definition lift {A} (r : result A) : M A := fun _ m => (r, m).

Definition ask {A} (f : Env -> A) : M A := fun e m => (Ok (f e), m).

(** A device call: the environment says how it ends. *)
Definition call {A} (f : Env -> result A) : M A := fun e m => (f e, m).

Definition get {A} (f : MusicPlayer -> A) : M A :=
  fun _ m => (Ok (f (self m)), m).

Definition modify (f : MusicPlayer -> MusicPlayer) : M unit :=
  fun _ m => (Ok tt, mkMachine (f (self m)) (emitted m) (reads m)).

Definition emit (ev : Event) : M unit :=
  fun _ m => (Ok tt, mkMachine (self m) (emitted m ++ [ev]) (reads m)).

Definition time_time : M Q :=
  fun e m =>
    (Ok (clock e (reads m)),
     mkMachine (self m) (emitted m) (S (reads m))).

(** Attribute assignments. *)
Definition set_playlist (v : list string) : M unit :=
  modify (fun s => mkPlayer v (current_index s) (playing s) (volume s)
                     (_track_start_time s) (_track_offset_seconds s)).
Definition set_current_index (v : Z) : M unit :=
  modify (fun s => mkPlayer (playlist s) v (playing s) (volume s)
                     (_track_start_time s) (_track_offset_seconds s)).
Definition set_playing (v : bool) : M unit :=
  modify (fun s => mkPlayer (playlist s) (current_index s) v (volume s)
                     (_track_start_time s) (_track_offset_seconds s)).
Definition set_volume_field (v : Q) : M unit :=
  modify (fun s => mkPlayer (playlist s) (current_index s) (playing s) v
                     (_track_start_time s) (_track_offset_seconds s)).
Definition set_track_start_time (v : option Q) : M unit :=
  modify (fun s => mkPlayer (playlist s) (current_index s) (playing s)
                     (volume s) v (_track_offset_seconds s)).
Definition set_track_offset_seconds (v : Q) : M unit :=
  modify (fun s => mkPlayer (playlist s) (current_index s) (playing s)
                     (volume s) (_track_start_time s) v).

(** ** Python built-ins used by the engine *)

Definition len {A} (l : list A) : Z := Z.of_nat (length l).

(** [l[i]], negative indices counting from the end. *)
Definition getitem {A} (l : list A) (i : Z) : result A :=
  let j := if (i <? 0)%Z then (i + len l)%Z else i in
  if (j <? 0)%Z then Raise IndexError
  else match nth_error l (Z.to_nat j) with
       | Some x => Ok x
       | None => Raise IndexError
       end.

(** [x in l] *)
Definition contains (x : string) (l : list string) : bool :=
  existsb (String.eqb x) l.

(** [l.index(x)]: the first position of [x]. *)
Fixpoint index (x : string) (l : list string) : result Z :=
  match l with
  | [] => Raise ValueError
  | y :: l' =>
      if String.eqb y x then Ok 0%Z
      else match index x l' with
           | Ok i => Ok (i + 1)%Z
           | Raise r => Raise r
           end
  end.

Definition Qltb (x y : Q) : bool := negb (Qle_bool y x).

(** [max(a, b)] returns [b] only when [b > a]; [min(a, b)] returns [b] only
    when [b < a]. *)
Definition py_max (a b : Q) : Q := if Qltb a b then b else a.
Definition py_min (a b : Q) : Q := if Qltb b a then b else a.

(** [a - b] where [b] may be [None]. *)
Definition sub_opt (a : Q) (b : option Q) : M Q :=
  match b with
  | Some t => ret (a - t)
  | None => raise TypeError
  end.

(** Truthiness of an optional float: [None] and [0.0] are false. *)
Definition truthy (b : option Q) : bool :=
  match b with
  | Some t => negb (Qeq_bool t 0)
  | None => false
  end.

Definition ms_to_seconds (ms : Z) : Q := inject_Z ms / 1000.

Definition is_empty {A} (l : list A) : bool :=
  match l with [] => true | _ => false end.

(** [b or c] on an optional float: [c] is evaluated only when [b] is falsy. *)
Definition or_else (b : option Q) (c : M Q) : M Q :=
  match b with
  | Some t => if truthy b then ret t else c
  | None => c
  end.

(** ** The methods of [MusicPlayer] *)

(** The object as [__init__] leaves it (its mixer calls are guarded and
    change no field). *)
Definition MusicPlayer_init : MusicPlayer :=
  mkPlayer [] (-1) false 0.85 None 0.

Definition load_playlist (paths : list string) : M unit :=
  exists_ <- ask is_file ;;
  set_playlist (filter exists_ paths) ;;
  pl <- get playlist ;;
  set_current_index (if is_empty pl then -1 else 0)%Z.

Definition current_track : M (option string) :=
  ci <- get current_index ;;
  if (ci =? -1)%Z then ret None else
  pl <- get playlist ;;
  if ((0 <=? ci) && (ci <? len pl))%Z then
    p <- lift (getitem pl ci) ;;
    ret (Some p)
  else ret None.

(** The device part shared by [_play_internal] and [seek]:
    [load], then [play(loops=0, start=..)], with the older signature of
    [play] as a fallback when the keyword form raises [TypeError]. *)
Definition load_and_play (path : string) (start : Q) : M unit :=
  call (fun e => music_load e path) ;;
  try_except_TypeError
    (call (fun e => music_play_start e start))
    (call music_play ;;
     try_except (call (fun e => music_set_pos e start)) (fun _ => pass)).

Definition _play_internal (path : string) (start_time : Q) : M unit :=
  try_except
    (load_and_play path start_time ;;
     set_track_offset_seconds start_time ;;
     now <- time_time ;;
     set_track_start_time (Some now) ;;
     set_playing true ;;
     emit (track_changed path) ;;
     emit state_changed)
    (fun _ => pass).

Definition play_index (idx : Z) : M unit :=
  pl <- get playlist ;;
  if is_empty pl then ret tt else
  if ((idx <? 0) || (idx >=? len pl))%Z then ret tt else
  path <- lift (getitem pl idx) ;;
  exists_ <- ask (fun e => is_file e path) ;;
  if negb exists_ then ret tt else
  set_current_index idx ;;
  _play_internal path 0.

Definition play_path (path : string) : M unit :=
  exists_ <- ask (fun e => is_file e path) ;;
  if negb exists_ then ret tt else
  pl <- get playlist ;;
  if contains path pl then
    i <- lift (index path pl) ;;
    play_index i
  else
    set_current_index (-1) ;;
    _play_internal path 0.

Definition toggle : M unit :=
  p <- get playing ;;
  if p then
    try_except (call music_pause) (fun _ => pass) ;;
    try_except
      (ms <- call music_get_pos ;;
       if (ms >=? 0)%Z then
         off <- get _track_offset_seconds ;;
         set_track_offset_seconds (off + ms_to_seconds ms)
       else
         off <- get _track_offset_seconds ;;
         now <- time_time ;;
         st <- get _track_start_time ;;
         d <- sub_opt now st ;;
         set_track_offset_seconds (off + d))
      (fun _ =>
         off <- get _track_offset_seconds ;;
         now <- time_time ;;
         st <- get _track_start_time ;;
         t <- or_else st time_time ;;
         set_track_offset_seconds (off + (now - t))) ;;
    set_playing false ;;
    emit state_changed
  else
    try_except
      (call music_unpause ;;
       set_playing true ;;
       now <- time_time ;;
       set_track_start_time (Some now) ;;
       emit state_changed)
      (fun _ =>
         pl <- get playlist ;;
         if is_empty pl then ret tt else
         ci <- get current_index ;;
         if (ci =? -1)%Z then play_index 0
         else
           path <- lift (getitem pl ci) ;;
           off <- get _track_offset_seconds ;;
           _play_internal path off).

Definition stop : M unit :=
  try_except (call music_stop) (fun _ => pass) ;;
  set_playing false ;;
  set_track_start_time None ;;
  set_track_offset_seconds 0 ;;
  emit state_changed.

Definition next : M unit :=
  pl <- get playlist ;;
  if is_empty pl then ret tt else
  ci <- get current_index ;;
  set_current_index (if ci =? -1 then 0 else (ci + 1) mod len pl)%Z ;;
  ci' <- get current_index ;;
  play_index ci'.

Definition prev : M unit :=
  pl <- get playlist ;;
  if is_empty pl then ret tt else
  ci <- get current_index ;;
  set_current_index (if ci =? -1 then 0 else (ci - 1 + len pl) mod len pl)%Z ;;
  ci' <- get current_index ;;
  play_index ci'.

Definition set_volume (vol : Q) : M unit :=
  set_volume_field (py_max 0 (py_min 1 vol)) ;;
  v <- get volume ;;
  try_except (call (fun e => music_set_volume e v)) (fun _ => pass) ;;
  emit state_changed.

Definition seek (seconds : Q) : M unit :=
  ci <- get current_index ;;
  pl <- get playlist ;;
  if ((ci =? -1) || negb ((0 <=? ci) && (ci <? len pl)))%Z then ret tt else
  path <- lift (getitem pl ci) ;;
  exists_ <- ask (fun e => is_file e path) ;;
  if negb exists_ then ret tt else
  total <- ask (fun e => get_duration e path) ;;
  let seconds :=
    py_max 0 (py_min seconds (if Qltb 0 total then total else seconds)) in
  try_except
    (load_and_play path seconds ;;
     set_track_offset_seconds seconds ;;
     now <- time_time ;;
     set_track_start_time (Some now) ;;
     set_playing true ;;
     emit (track_changed path) ;;
     emit state_changed)
    (fun _ => pass).

(** The elapsed-seconds value [cur] that [_tick] computes. *)
Definition tick_elapsed : M Q :=
  p <- get playing ;;
  st <- get _track_start_time ;;
  off <- get _track_offset_seconds ;;
  if p && (match st with Some _ => true | None => false end) then
    try_except
      (ms <- call music_get_pos ;;
       if (ms >=? 0)%Z then ret (off + ms_to_seconds ms)
       else
         now <- time_time ;;
         d <- sub_opt now st ;;
         ret (off + d))
      (fun _ =>
         now <- time_time ;;
         d <- sub_opt now st ;;
         ret (off + d))
  else ret off.

(** The duration [total] that [_tick] looks up. *)
Definition tick_total : M Q :=
  ci <- get current_index ;;
  pl <- get playlist ;;
  if (negb (ci =? -1) && ((0 <=? ci) && (ci <? len pl)))%Z then
    path <- lift (getitem pl ci) ;;
    ask (fun e => get_duration e path)
  else ret 0.

Definition _tick : M unit :=
  total <- tick_total ;;
  cur <- tick_elapsed ;;
  emit (position_updated cur total) ;;
  p <- get playing ;;
  silent <- (if p then busy <- call music_get_busy ;; ret (negb busy)
             else ret false) ;;
  if silent then
    if Qltb 1 total && Qle_bool (total - 0.7) cur then
      set_playing false ;;
      emit state_changed ;;
      next
    else if Qle_bool total 1 then
      set_playing false ;;
      emit state_changed ;;
      next
    else ret tt
  else ret tt.

(** ** Running a method *)

Definition run {A} (c : M A) (e : Env) (s : MusicPlayer)
  : result A * Machine :=
  c e (mkMachine s [] 0).

Definition outcome {A} (c : M A) (e : Env) (s : MusicPlayer) : result A :=
  fst (run c e s).
Definition after {A} (c : M A) (e : Env) (s : MusicPlayer) : MusicPlayer :=
  self (snd (run c e s)).
Definition signals {A} (c : M A) (e : Env) (s : MusicPlayer) : list Event :=
  emitted (snd (run c e s)).

(** ** Vocabulary of the statements *)

Definition device_accepts (e : Env) (path : string) (start : Q) : bool :=
  match music_load e path with
  | Ok _ =>
      match music_play_start e start with
      | Ok _ => true
      | Raise TypeError =>
          match music_play e with Ok _ => true | Raise _ => false end
      | Raise _ => false
      end
  | Raise _ => false
  end.

Definition started (s : MusicPlayer) (start now : Q) : MusicPlayer :=
  mkPlayer (playlist s) (current_index s) true (volume s) (Some now) start.

Definition with_index (s : MusicPlayer) (idx : Z) : MusicPlayer :=
  mkPlayer (playlist s) idx (playing s) (volume s)
           (_track_start_time s) (_track_offset_seconds s).

Definition on_self (f : MusicPlayer -> MusicPlayer) (m : Machine) : Machine :=
  mkMachine (f (self m)) (emitted m) (reads m).

(** The track [play_index idx] would start: the entry at [idx], when [idx]
    is a position of the playlist and the file is there. *)
Definition playable (e : Env) (s : MusicPlayer) (idx : Z) : option string :=
  if ((0 <=? idx) && (idx <? len (playlist s)))%Z then
    match nth_error (playlist s) (Z.to_nat idx) with
    | Some p => if is_file e p then Some p else None
    | None => None
    end
  else None.

(** The entry under [current_index], when there is one. *)
Definition selected (s : MusicPlayer) : option string :=
  if ((0 <=? current_index s) && (current_index s <? len (playlist s)))%Z
  then nth_error (playlist s) (Z.to_nat (current_index s))
  else None.

(** What the device says about the position: [Some ms] when [get_pos]
    returns a non-negative number, [None] when it raises or is negative. *)
Definition telemetry (e : Env) : option Z :=
  match music_get_pos e with
  | Ok ms => if (ms >=? 0)%Z then Some ms else None
  | Raise _ => None
  end.

Definition next_index (s : MusicPlayer) : Z :=
  if (current_index s =? -1)%Z then 0%Z
  else ((current_index s + 1) mod len (playlist s))%Z.

Definition prev_index (s : MusicPlayer) : Z :=
  if (current_index s =? -1)%Z then 0%Z
  else ((current_index s - 1 + len (playlist s)) mod len (playlist s))%Z.

(** The elapsed value of section 4.1 of the specification, in its words:
    frozen at the offset when not playing; offset plus telemetry when the
    telemetry is available; offset plus wall-clock time since the start
    otherwise; and the offset when no start time is recorded. *)
Definition spec_elapsed (e : Env) (s : MusicPlayer) (now : Q) : Q :=
  if playing s then
    match _track_start_time s with
    | Some t0 =>
        match telemetry e with
        | Some ms => _track_offset_seconds s + ms_to_seconds ms
        | None => _track_offset_seconds s + (now - t0)
        end
    | None => _track_offset_seconds s
    end
  else _track_offset_seconds s.

Definition with_playing (s : MusicPlayer) (b : bool) : MusicPlayer :=
  mkPlayer (playlist s) (current_index s) b (volume s)
           (_track_start_time s) (_track_offset_seconds s).

Definition track_total (e : Env) (s : MusicPlayer) : Q :=
  match selected s with
  | Some p => get_duration e p
  | None => 0
  end.

(** The test [_tick] makes once the device is silent. *)
Definition track_ended (total cur : Q) : bool :=
  (Qltb 1 total && Qle_bool (total - 0.7) cur) || Qle_bool total 1.

(** What a pause adds to the offset when a start time [t0] is recorded. *)
Definition pause_delta (e : Env) (t0 : Q) : Q :=
  match music_get_pos e with
  | Ok ms => if (ms >=? 0)%Z then ms_to_seconds ms else clock e 0 - t0
  | Raise _ => clock e 0 - (if Qeq_bool t0 0 then clock e 1 else t0)
  end.

Definition clamp_seek (seconds total : Q) : Q :=
  py_max 0 (py_min seconds (if Qltb 0 total then total else seconds)).

(** The invariant on the selection. *)
Definition index_ok (s : MusicPlayer) : Prop :=
  current_index s = (-1)%Z \/ (0 <= current_index s < len (playlist s))%Z.

(** The command surface of the engine, with the timer callback. *)
Inductive Op : Type :=
| OpLoadPlaylist (paths : list string)
| OpPlayIndex (idx : Z)
| OpPlayPath (path : string)
| OpToggle
| OpStop
| OpNext
| OpPrev
| OpSeek (seconds : Q)
| OpSetVolume (vol : Q)
| OpTick.

Definition perform (o : Op) : M unit :=
  match o with
  | OpLoadPlaylist paths => load_playlist paths
  | OpPlayIndex idx => play_index idx
  | OpPlayPath path => play_path path
  | OpToggle => toggle
  | OpStop => stop
  | OpNext => next
  | OpPrev => prev
  | OpSeek seconds => seek seconds
  | OpSetVolume vol => set_volume vol
  | OpTick => _tick
  end.

(** Two objects with the same playlist and the same selection. *)
Definition same_selection (s s' : MusicPlayer) : Prop :=
  playlist s' = playlist s /\ current_index s' = current_index s.

(** [_tick] reports [cur] as the elapsed seconds: it is the first argument
    of the [position_updated] signal the tick starts with. *)
Definition tick_reports (e : Env) (s : MusicPlayer) (cur : Q) : Prop :=
  exists total rest, signals _tick e s = position_updated cur total :: rest.

(** Is [o] one of the transport commands (everything but [load_playlist],
    [set_volume] and the timer callback)? *)
Definition is_transport (o : Op) : bool :=
  match o with
  | OpPlayIndex _ | OpPlayPath _ | OpToggle | OpStop | OpNext | OpPrev
  | OpSeek _ => true
  | OpLoadPlaylist _ | OpSetVolume _ | OpTick => false
  end.

Definition is_load (o : Op) : bool :=
  match o with
  | OpLoadPlaylist _ => true
  | _ => false
  end.

(** A run of operations, each with what the collaborators answer to it. *)
Fixpoint perform_all (ops : list (Op * Env)) (s : MusicPlayer) : MusicPlayer :=
  match ops with
  | [] => s
  | (o, e) :: ops' => perform_all ops' (after (perform o) e s)
  end.

(** Nothing selected and nothing to select. *)
Definition idle (s : MusicPlayer) : Prop :=
  playlist s = [] /\ current_index s = (-1)%Z.

(** Two ticks that read the position from the same source, the second
    reading not earlier than the first: both from the telemetry, or both
    from the wall clock because the telemetry is missing. *)
Definition same_source_later (ea eb : Env) : Prop :=
  match telemetry ea, telemetry eb with
  | Some a, Some b => (a <= b)%Z
  | None, None => clock ea 0 <= clock eb 0
  | _, _ => False
  end.

(** ** Sample collaborators and objects *)

(** A device that takes every call: [pos] is what [get_pos] answers, [busy]
    what [get_busy] answers, [now] the clock, [on_disk] whether files are
    found and [dur] the duration of every track. *)
Definition env_working (pos : Z) (busy : bool) (now : Q) (on_disk : bool)
           (dur : Q) : Env :=
  mkEnv (fun _ => Ok tt) (fun _ => Ok tt) (Ok tt) (fun _ => Ok tt)
        (Ok tt) (Ok tt) (Ok tt) (fun _ => Ok tt) (Ok pos) (Ok busy)
        (fun _ => now) (fun _ => on_disk) (fun _ => dur).

(** Tracks of 200 s that are still sounding. *)
Definition env_ok (pos : Z) (now : Q) : Env :=
  env_working pos true now true 200.

(** Tracks of 12 s. *)
Definition env_short (pos : Z) (busy : bool) (now : Q) : Env :=
  env_working pos busy now true 12.

(** A disk on which no file is found. *)
Definition env_nofile (now : Q) : Env :=
  env_working 0 true now false 0.

(** A device whose every call raises, as when the mixer could not be
    initialised. *)
Definition env_dead (now : Q) : Env :=
  mkEnv (fun _ => Raise PygameError) (fun _ => Raise PygameError)
        (Raise PygameError) (fun _ => Raise PygameError)
        (Raise PygameError) (Raise PygameError) (Raise PygameError)
        (fun _ => Raise PygameError) (Raise PygameError) (Raise PygameError)
        (fun _ => now) (fun _ => true) (fun _ => 200).

Definition three_tracks : list string :=
  ["a.mp3"%string; "b.mp3"%string; "c.mp3"%string].

(** The first of three tracks selected, nothing started. *)
Definition player_loaded : MusicPlayer :=
  mkPlayer three_tracks 0 false 0.85 None 0.

(** The last of three tracks selected, nothing started. *)
Definition player_last : MusicPlayer :=
  mkPlayer three_tracks 2 false 0.85 None 0.

(** Playing the first of three tracks since clock 100. *)
Definition player_playing : MusicPlayer :=
  mkPlayer three_tracks 0 true 0.85 (Some 100) 0.

(** Started at clock 100, paused at 110 after 10 s, resumed at 120. *)
Definition player_resumed : MusicPlayer :=
  after toggle (env_short 10000 true 120)
    (after toggle (env_short 10000 true 110)
       (after (play_index 0) (env_short 0 true 100) player_loaded)).

(** ** The window around the engine ([MainWindow])

    The window owns four lists of paths and queries that it keeps on disk
    as JSON, the list of songs it shows, and the engine.  Its list widgets,
    labels and pictures are displays that the code only writes; of the
    widgets, the model keeps the two sliders and the two time labels.  What
    the operating system, the Python string library and the file dialog
    answer during one call is collected in a [Desk]. *)

Record Desk : Type := mkDesk {
  songs_dir_exists : bool;            (* os.path.exists(SONGS_DIR) *)
  listdir_sorted : list string;       (* sorted(os.listdir(SONGS_DIR)) *)
  path_join : string -> string;       (* os.path.join(SONGS_DIR, f) *)
  os_basename : string -> string;     (* os.path.basename *)
  os_splitext_root : string -> string; (* os.path.splitext(..)[0] *)
  str_lower : string -> string;       (* str.lower *)
  str_strip : string -> string;       (* str.strip *)
  chosen_files : list string          (* QFileDialog.getOpenFileNames(..)[0] *)
}.

(** An entry of [master_songs]: a dict with the keys title, path, source. *)
Record Song : Type := mkSong {
  song_title : string;
  song_path : string;
  song_source : string
}.

Inductive JsonFile : Type :=
| IMPORTED_JSON
| CUSTOM_JSON
| RECENT_JSON
| SEARCHES_JSON.

(** A [QMessageBox] shown to the user, with its title. *)
Inductive Dialog : Type :=
| warning (box_title : string)
| information (box_title : string).

Record MainWindow : Type := mkWindow {
  imported : list string;
  custom : list string;
  recents : list string;
  searches : list string;
  master_songs : list Song;
  pl_title : string;
  _seeking : bool;
  _seek_target : Q;
  _last_vol : option Q;               (* None: the attribute is not set *)
  vol_slider : Z;
  timeline_slider : Z;                (* last value given to setValue *)
  label_elapsed : string;
  label_total : string
}.

Record Shell : Type := mkShell {
  window : MainWindow;
  engine : Machine;
  has_player : bool;                  (* hasattr(self, "player") *)
  saved : list (JsonFile * list string);
  dialogs : list Dialog
}.

Definition W (A : Type) : Type := Env -> Desk -> Shell -> result A * Shell.

Definition wret {A} (a : A) : W A := fun _ _ sh => (Ok a, sh).

Definition wbind {A B} (c : W A) (k : A -> W B) : W B :=
  fun e d sh =>
    match c e d sh with
    | (Ok a, sh') => k a e d sh'
    | (Raise x, sh') => (Raise x, sh')
    end.

Declare Scope ui_scope.
Delimit Scope ui_scope with ui.
Notation "x <- c ;; k" := (wbind c (fun x => k))
  (at level 61, c at next level, right associativity) : ui_scope.
Notation "c ;; k" := (wbind c (fun _ => k))
  (at level 61, right associativity) : ui_scope.

(** [try: c except Exception: pass] *)
Definition wtry_pass (c : W unit) : W unit :=
  fun e d sh =>
    match c e d sh with
    | (Ok a, sh') => (Ok a, sh')
    | (Raise _, sh') => (Ok tt, sh')
    end.

Definition wlift {A} (r : result A) : W A := fun _ _ sh => (r, sh).
Definition wask {A} (f : Env -> A) : W A := fun e _ sh => (Ok (f e), sh).
Definition dask {A} (f : Desk -> A) : W A := fun _ d sh => (Ok (f d), sh).
Definition wget {A} (f : MainWindow -> A) : W A :=
  fun _ _ sh => (Ok (f (window sh)), sh).

Definition wmodify (f : MainWindow -> MainWindow) : W unit :=
  fun _ _ sh =>
    (Ok tt, mkShell (f (window sh)) (engine sh) (has_player sh)
                    (saved sh) (dialogs sh)).

Definition hasattr_player : W bool :=
  fun _ _ sh => (Ok (has_player sh), sh).

(** [save_json(file, data)]: the write is guarded and never raises. *)
Definition save_json (file : JsonFile) (data : list string) : W unit :=
  fun _ _ sh =>
    (Ok tt, mkShell (window sh) (engine sh) (has_player sh)
                    (saved sh ++ [(file, data)]) (dialogs sh)).

Definition show (box : Dialog) : W unit :=
  fun _ _ sh =>
    (Ok tt, mkShell (window sh) (engine sh) (has_player sh)
                    (saved sh) (dialogs sh ++ [box])).

Definition set_imported (v : list string) : W unit :=
  wmodify (fun w => mkWindow v (custom w) (recents w) (searches w)
    (master_songs w) (pl_title w) (_seeking w) (_seek_target w) (_last_vol w)
    (vol_slider w) (timeline_slider w) (label_elapsed w) (label_total w)).
Definition set_custom (v : list string) : W unit :=
  wmodify (fun w => mkWindow (imported w) v (recents w) (searches w)
    (master_songs w) (pl_title w) (_seeking w) (_seek_target w) (_last_vol w)
    (vol_slider w) (timeline_slider w) (label_elapsed w) (label_total w)).
Definition set_recents (v : list string) : W unit :=
  wmodify (fun w => mkWindow (imported w) (custom w) v (searches w)
    (master_songs w) (pl_title w) (_seeking w) (_seek_target w) (_last_vol w)
    (vol_slider w) (timeline_slider w) (label_elapsed w) (label_total w)).
Definition set_searches (v : list string) : W unit :=
  wmodify (fun w => mkWindow (imported w) (custom w) (recents w) v
    (master_songs w) (pl_title w) (_seeking w) (_seek_target w) (_last_vol w)
    (vol_slider w) (timeline_slider w) (label_elapsed w) (label_total w)).
Definition set_master_songs (v : list Song) : W unit :=
  wmodify (fun w => mkWindow (imported w) (custom w) (recents w) (searches w)
    v (pl_title w) (_seeking w) (_seek_target w) (_last_vol w)
    (vol_slider w) (timeline_slider w) (label_elapsed w) (label_total w)).
Definition set_pl_title (v : string) : W unit :=
  wmodify (fun w => mkWindow (imported w) (custom w) (recents w) (searches w)
    (master_songs w) v (_seeking w) (_seek_target w) (_last_vol w)
    (vol_slider w) (timeline_slider w) (label_elapsed w) (label_total w)).
Definition set_seeking (v : bool) : W unit :=
  wmodify (fun w => mkWindow (imported w) (custom w) (recents w) (searches w)
    (master_songs w) (pl_title w) v (_seek_target w) (_last_vol w)
    (vol_slider w) (timeline_slider w) (label_elapsed w) (label_total w)).
Definition set_seek_target (v : Q) : W unit :=
  wmodify (fun w => mkWindow (imported w) (custom w) (recents w) (searches w)
    (master_songs w) (pl_title w) (_seeking w) v (_last_vol w)
    (vol_slider w) (timeline_slider w) (label_elapsed w) (label_total w)).
Definition set_last_vol (v : option Q) : W unit :=
  wmodify (fun w => mkWindow (imported w) (custom w) (recents w) (searches w)
    (master_songs w) (pl_title w) (_seeking w) (_seek_target w) v
    (vol_slider w) (timeline_slider w) (label_elapsed w) (label_total w)).
Definition set_vol_slider (v : Z) : W unit :=
  wmodify (fun w => mkWindow (imported w) (custom w) (recents w) (searches w)
    (master_songs w) (pl_title w) (_seeking w) (_seek_target w) (_last_vol w)
    v (timeline_slider w) (label_elapsed w) (label_total w)).
Definition set_timeline_slider (v : Z) : W unit :=
  wmodify (fun w => mkWindow (imported w) (custom w) (recents w) (searches w)
    (master_songs w) (pl_title w) (_seeking w) (_seek_target w) (_last_vol w)
    (vol_slider w) v (label_elapsed w) (label_total w)).
Definition set_label_elapsed (v : string) : W unit :=
  wmodify (fun w => mkWindow (imported w) (custom w) (recents w) (searches w)
    (master_songs w) (pl_title w) (_seeking w) (_seek_target w) (_last_vol w)
    (vol_slider w) (timeline_slider w) v (label_total w)).
Definition set_label_total (v : string) : W unit :=
  wmodify (fun w => mkWindow (imported w) (custom w) (recents w) (searches w)
    (master_songs w) (pl_title w) (_seeking w) (_seek_target w) (_last_vol w)
    (vol_slider w) (timeline_slider w) (label_elapsed w) v).

(** ** More Python built-ins *)

Definition MAX_RECENTS : nat := 5.
Definition MAX_RECENT_SEARCHES : nat := 8.

(** [l.remove(x)]: drops the first [x], [ValueError] when there is none. *)
Fixpoint list_remove (x : string) (l : list string) : result (list string) :=
  match l with
  | [] => Raise ValueError
  | y :: l' =>
      if String.eqb y x then Ok l'
      else match list_remove x l' with
           | Ok r => Ok (y :: r)
           | Raise r => Raise r
           end
  end.

(** [l[-n:]] for a positive [n]: the last [n] entries. *)
Definition last_slice {A} (n : nat) (l : list A) : list A :=
  skipn (length l - n) l.

(** [s.replace(a, b)] for single characters [a] and [b]. *)
Fixpoint replace_char (a b : ascii) (s : string) : string :=
  match s with
  | EmptyString => EmptyString
  | String c s' =>
      String (if Ascii.eqb c a then b else c) (replace_char a b s')
  end.

(** [s.endswith(suffix)] *)
Definition endswith (s suffix : string) : bool :=
  String.eqb
    (String.substring (String.length s - String.length suffix)
                      (String.length suffix) s)
    suffix
  && (String.length suffix <=? String.length s)%nat.

(** [q in t] on strings. *)
Fixpoint is_substring (q t : string) : bool :=
  String.prefix q t
  || match t with
     | EmptyString => false
     | String _ t' => is_substring q t'
     end.

(** [int(x)] on a float: truncation towards zero. *)
Definition int_of_float (x : Q) : Z := Z.quot (Qnum x) (Zpos (Qden x)).

(** [str(n)] and the format [{n:02d}]: at least two characters, padded
    with a zero on the left. *)
Definition str_int (n : Z) : string := NilZero.string_of_int (Z.to_int n).

Definition format_02d (n : Z) : string :=
  if ((0 <=? n) && (n <? 10))%Z then String "0" (str_int n) else str_int n.


(** ** The functions and methods of the window *)

Local Open Scope ui_scope.

Definition nice_title (d : Desk) (p : string) : string :=
  let base := os_basename d p in
  let name := os_splitext_root d base in
  replace_char "-" " " (replace_char "_" " " name).

(** [_format_time]: the guarded [int] cannot fail on a rational. *)
Definition _format_time (seconds : Q) : string :=
  let s := int_of_float seconds in
  let m := (s / 60)%Z in
  let s := (s mod 60)%Z in
  (str_int m ++ ":" ++ format_02d s)%string.

(** The slots that [__init__] connects to the signals of the engine.  Of
    [_on_track_changed] the model keeps the total label and the timeline;
    [_on_state_changed] only writes the text of the play button. *)
Definition _on_track_changed (path : string) : W unit :=
  exists_ <- wask (fun e => is_file e path) ;;
  if exists_ then
    total <- wask (fun e => get_duration e path) ;;
    set_label_total (_format_time total) ;;
    set_timeline_slider 0
  else wret tt.

Definition _on_state_changed : W unit := wret tt.

Definition _on_position_update (cur total : Q) : W unit :=
  seeking <- wget _seeking ;;
  if negb seeking then
    (if Qltb 0 total then
       set_timeline_slider (int_of_float ((cur / total) * 1000))
     else set_timeline_slider 0) ;;
    set_label_elapsed (_format_time cur) ;;
    if Qltb 0 total then set_label_total (_format_time total) else wret tt
  else wret tt.

(** The delivery of a signal: Qt calls the connected slot at once. *)
Definition deliver (ev : Event) : W unit :=
  match ev with
  | state_changed => _on_state_changed
  | track_changed p => _on_track_changed p
  | position_updated cur total => _on_position_update cur total
  end.

Fixpoint deliver_all (evs : list Event) : W unit :=
  match evs with
  | [] => wret tt
  | ev :: rest => deliver ev ;; deliver_all rest
  end.

(** A call of a method of [self.player], or a read of one of its
    attributes.  The signals the call emits reach the slots of the window;
    the slots touch the window only and the engine never does, so that
    running them when the call is over gives the state that running each
    at its [emit] gives. *)
Definition player_call {A} (c : M A) : W A :=
  fun e d sh =>
    let (r, m) := c e (engine sh) in
    let fired := skipn (length (emitted (engine sh))) (emitted m) in
    let (_, sh') :=
      deliver_all fired e d
        (mkShell (window sh) m (has_player sh) (saved sh) (dialogs sh)) in
    (r, sh').

(** The loop of [_refresh_master] that keeps the first song of each path;
    [seen] is the set of paths met so far. *)
Fixpoint uniq_loop (songs : list Song) (seen : list string)
         (uniq : list Song) : list Song :=
  match songs with
  | [] => uniq
  | s :: rest =>
      if negb (contains (song_path s) seen)
      then uniq_loop rest (song_path s :: seen) (uniq ++ [s])
      else uniq_loop rest seen uniq
  end.

Definition _refresh_master : W unit :=
  there <- dask songs_dir_exists ;;
  bundled <-
    (if there then
       names <- dask listdir_sorted ;;
       d <- dask (fun d => d) ;;
       wret (map (fun f => let p := path_join d f in
                           mkSong (nice_title d p) p "bundled")
                 (filter (fun f => endswith (str_lower d f) ".mp3") names))
     else wret []) ;;
  imp <- wget imported ;;
  exists_ <- wask is_file ;;
  let cleaned := filter exists_ imp in
  (if negb (length cleaned =? length imp)%nat then
     set_imported cleaned ;;
     imp <- wget imported ;;
     save_json IMPORTED_JSON imp
   else wret tt) ;;
  imp <- wget imported ;;
  d <- dask (fun d => d) ;;
  let songs :=
    bundled ++ map (fun p => mkSong (nice_title d p) p "imported") imp in
  set_master_songs (uniq_loop songs [] []) ;;
  hp <- hasattr_player ;;
  if hp then
    ms <- wget master_songs ;;
    player_call (load_playlist (map song_path ms))
  else wret tt.

Definition _play_path (p : string) : W unit :=
  exists_ <- wask (fun e => is_file e p) ;;
  if negb exists_ then
    show (warning "Missing file") ;;
    imp <- wget imported ;;
    (if contains p imp then
       l <- wlift (list_remove p imp) ;;
       set_imported l ;;
       save_json IMPORTED_JSON l
     else wret tt) ;;
    cus <- wget custom ;;
    (if contains p cus then
       l <- wlift (list_remove p cus) ;;
       set_custom l ;;
       save_json CUSTOM_JSON l
     else wret tt) ;;
    _refresh_master
  else
    rec <- wget recents ;;
    (if contains p rec then
       l <- wlift (list_remove p rec) ;;
       set_recents l
     else wret tt) ;;
    rec <- wget recents ;;
    set_recents (rec ++ [p]) ;;
    rec <- wget recents ;;
    set_recents (last_slice MAX_RECENTS rec) ;;
    rec <- wget recents ;;
    save_json RECENT_JSON rec ;;
    pl <- player_call (get playlist) ;;
    if negb (contains p pl) then
      ms <- wget master_songs ;;
      let newlist :=
        p :: map song_path
               (filter (fun s => negb (String.eqb (song_path s) p)) ms) in
      player_call (load_playlist newlist) ;;
      player_call (play_index 0)
    else
      player_call (play_path p).

Definition _add_to_custom (p : string) : W unit :=
  exists_ <- wask (fun e => is_file e p) ;;
  if negb exists_ then show (warning "Missing file") else
  cus <- wget custom ;;
  if contains p cus then show (information "Info") else
  set_custom (cus ++ [p]) ;;
  cus <- wget custom ;;
  save_json CUSTOM_JSON cus ;;
  show (information "Added").

(** The loop of [_popup_add_songs]; it returns [added]. *)
Fixpoint add_files (files : list string) (added : Z) : W Z :=
  match files with
  | [] => wret added
  | f :: rest =>
      imp <- wget imported ;;
      if negb (contains f imp) then
        set_imported (imp ++ [f]) ;;
        add_files rest (added + 1)%Z
      else add_files rest added
  end.

Definition _popup_add_songs : W unit :=
  files <- dask chosen_files ;;
  if is_empty files then wret tt else
  added <- add_files files 0%Z ;;
  if negb (added =? 0)%Z then
    imp <- wget imported ;;
    save_json IMPORTED_JSON imp ;;
    _refresh_master ;;
    show (information "Imported")
  else show (information "No new songs").

Definition _on_search_change (text : string) : W unit :=
  d <- dask (fun d => d) ;;
  let q := str_lower d (str_strip d text) in
  if String.eqb q "" then wret tt else
  ms <- wget master_songs ;;
  let matches :=
    filter (fun s => is_substring q (str_lower d (song_title s))) ms in
  if is_empty matches then wret tt else
  if negb (String.eqb q "") then
    sea <- wget searches ;;
    (if contains q sea then
       l <- wlift (list_remove q sea) ;;
       set_searches l
     else wret tt) ;;
    sea <- wget searches ;;
    set_searches (sea ++ [q]) ;;
    sea <- wget searches ;;
    set_searches (last_slice MAX_RECENT_SEARCHES sea) ;;
    sea <- wget searches ;;
    save_json SEARCHES_JSON sea
  else wret tt.

Definition _open_device : W unit := set_pl_title "My Device Songs".
Definition _open_custom : W unit := set_pl_title "Custom Playlist".

(** [_play_from_plist], for the row [idx] of the clicked item.  The two
    attributes it sets on the window, [current_playlist] and
    [current_index], are read nowhere. *)
Definition _play_from_plist (idx : Z) : W unit :=
  t <- wget pl_title ;;
  exists_ <- wask is_file ;;
  songs <-
    (if String.eqb t "My Device Songs" then
       imp <- wget imported ;; wret (filter exists_ imp)
     else if String.eqb t "Custom Playlist" then
       cus <- wget custom ;; wret (filter exists_ cus)
     else wret []) ;;
  if ((0 <=? idx) && (idx <? len songs))%Z then
    p <- wlift (getitem songs idx) ;;
    _play_path p
  else wret tt.

Definition _timeline_pressed : W unit := set_seeking true.






Close Scope ui_scope.

(** Running a method of the window on a window [w] around the engine
    object [s]. *)
Definition shell_of (w : MainWindow) (s : MusicPlayer) : Shell :=
  mkShell w (mkMachine s [] 0) true [] [].

Definition wrun {A} (c : W A) (e : Env) (d : Desk) (w : MainWindow)
           (s : MusicPlayer) : result A * Shell :=
  c e d (shell_of w s).

Definition window_after {A} (c : W A) (e : Env) (d : Desk) (w : MainWindow)
           (s : MusicPlayer) : MainWindow :=
  window (snd (wrun c e d w s)).

Definition player_after {A} (c : W A) (e : Env) (d : Desk) (w : MainWindow)
           (s : MusicPlayer) : MusicPlayer :=
  self (engine (snd (wrun c e d w s))).

(** Whenever the engine is playing, a start time is recorded. *)
Definition start_recorded (s : MusicPlayer) : Prop :=
  playing s = true -> _track_start_time s <> None.

(** The objects the engine can be in: what a run of operations makes of the
    freshly built one. *)
Definition reachable (s : MusicPlayer) : Prop :=
  exists ops, s = perform_all ops MusicPlayer_init.

(** A working device on an album of two tracks, [a.mp3] of 180 s and any
    other of 90 s. *)
Definition env_album (pos : Z) (busy : bool) (now : Q) : Env :=
  mkEnv (fun _ => Ok tt) (fun _ => Ok tt) (Ok tt) (fun _ => Ok tt)
        (Ok tt) (Ok tt) (Ok tt) (fun _ => Ok tt) (Ok pos) (Ok busy)
        (fun _ => now) (fun _ => true)
        (fun p => if String.eqb p "a.mp3" then 180 else 90).

(** Playing the second, and last, track of the album since clock 100. *)
Definition player_album : MusicPlayer :=
  mkPlayer ["a.mp3"%string; "b.mp3"%string] 1 true 0.85 (Some 100) 0.

(** A device that takes every call but [unpause]. *)
Definition env_no_unpause (now : Q) : Env :=
  mkEnv (fun _ => Ok tt) (fun _ => Ok tt) (Ok tt) (fun _ => Ok tt)
        (Ok tt) (Raise PygameError) (Ok tt) (fun _ => Ok tt)
        (Ok 0%Z) (Ok true) (fun _ => now) (fun _ => true) (fun _ => 200).

(** Paused 10 s into the second of three tracks, and the same with nothing
    selected. *)
Definition player_paused : MusicPlayer :=
  mkPlayer three_tracks 1 false 0.85 (Some 100) 10.

Definition player_paused_unselected : MusicPlayer :=
  mkPlayer three_tracks (-1) false 0.85 (Some 100) 10.

(** The character of a decimal digit. *)
Definition digit_char (n : Z) : ascii := ascii_of_nat (48 + Z.to_nat n).

(** [l] without its first [x], and [l] itself when [x] is not in it: what
    the guarded [l.remove(x)] leaves. *)
Definition without_first (x : string) (l : list string) : list string :=
  match list_remove x l with
  | Ok r => r
  | Raise _ => l
  end.

(** A sample desk: a songs folder with two tracks and a text file, string
    functions that leave ASCII lower-case names alone, and a file dialog
    in which [b.mp3] and [q.mp3] were chosen. *)
Definition desk_sample : Desk :=
  mkDesk true ["x.mp3"%string; "notes.txt"%string; "y.mp3"%string]
         (fun f => ("songs/" ++ f)%string) (fun p => p) (fun p => p)
         (fun p => p) (fun p => p) ["b.mp3"%string; "q.mp3"%string].

(** A sample window: [a.mp3] imported twice, two recent songs. *)
Definition window_sample : MainWindow :=
  mkWindow ["a.mp3"%string; "b.mp3"%string; "a.mp3"%string] []
           ["a.mp3"%string; "b.mp3"%string] [] [] ""%string
           false 0 None 85 0 "0:00"%string "0:00"%string.

(** The window with one list replaced. *)
Definition with_imported (w : MainWindow) (v : list string) : MainWindow :=
  mkWindow v (custom w) (recents w) (searches w)
    (master_songs w) (pl_title w) (_seeking w) (_seek_target w) (_last_vol w)
    (vol_slider w) (timeline_slider w) (label_elapsed w) (label_total w).
Definition with_custom (w : MainWindow) (v : list string) : MainWindow :=
  mkWindow (imported w) v (recents w) (searches w)
    (master_songs w) (pl_title w) (_seeking w) (_seek_target w) (_last_vol w)
    (vol_slider w) (timeline_slider w) (label_elapsed w) (label_total w).
Definition with_recents (w : MainWindow) (v : list string) : MainWindow :=
  mkWindow (imported w) (custom w) v (searches w)
    (master_songs w) (pl_title w) (_seeking w) (_seek_target w) (_last_vol w)
    (vol_slider w) (timeline_slider w) (label_elapsed w) (label_total w).
Definition with_searches (w : MainWindow) (v : list string) : MainWindow :=
  mkWindow (imported w) (custom w) (recents w) v
    (master_songs w) (pl_title w) (_seeking w) (_seek_target w) (_last_vol w)
    (vol_slider w) (timeline_slider w) (label_elapsed w) (label_total w).
Definition with_master_songs (w : MainWindow) (v : list Song) : MainWindow :=
  mkWindow (imported w) (custom w) (recents w) (searches w)
    v (pl_title w) (_seeking w) (_seek_target w) (_last_vol w)
    (vol_slider w) (timeline_slider w) (label_elapsed w) (label_total w).

(** The most-recently-used update the window applies to its recent songs
    and recent searches: [x] moves to the end, the oldest entries beyond
    [cap] are dropped. *)
Definition touched (cap : nat) (x : string) (l : list string) : list string :=
  last_slice cap (without_first x l ++ [x]).

(** The songs [_refresh_master] collects before it removes duplicates. *)
Definition collected_songs (e : Env) (d : Desk) (w : MainWindow) : list Song :=
  (if songs_dir_exists d then
     map (fun f => let p := path_join d f in
                   mkSong (nice_title d p) p "bundled")
         (filter (fun f => endswith (str_lower d f) ".mp3") (listdir_sorted d))
   else [])
  ++ map (fun p => mkSong (nice_title d p) p "imported")
         (filter (is_file e) (imported w)).

(** The imported list after the loop of [_popup_add_songs] over [files]:
    each file that is not there yet is appended. *)
Fixpoint extended (l files : list string) : list string :=
  match files with
  | [] => l
  | f :: rest =>
      if contains f l then extended l rest else extended (l ++ [f]) rest
  end.

(** A sample window with two titled songs and one recent search. *)
Definition window_titled : MainWindow :=
  mkWindow [] [] [] ["sun"%string]
           [mkSong "blue moon" "a.mp3" "imported";
            mkSong "red sun" "b.mp3" "imported"] ""%string
           false 0 None 85 0 "0:00"%string "0:00"%string.

(** What a slot of the window leaves of the window [w] when the engine
    emits [ev], and what a list of signals leaves. *)
Definition on_event (e : Env) (w : MainWindow) (ev : Event) : MainWindow :=
  match ev with
  | state_changed => w
  | track_changed p =>
      if is_file e p then
        mkWindow (imported w) (custom w) (recents w) (searches w)
          (master_songs w) (pl_title w) (_seeking w) (_seek_target w)
          (_last_vol w) (vol_slider w) 0 (label_elapsed w)
          (_format_time (get_duration e p))
      else w
  | position_updated cur total =>
      if _seeking w then w else
      mkWindow (imported w) (custom w) (recents w) (searches w)
        (master_songs w) (pl_title w) (_seeking w) (_seek_target w)
        (_last_vol w) (vol_slider w)
        (if Qltb 0 total then int_of_float ((cur / total) * 1000) else 0)
        (_format_time cur)
        (if Qltb 0 total then _format_time total else label_total w)
  end.

Definition heard (e : Env) (evs : list Event) (w : MainWindow) : MainWindow :=
  fold_left (on_event e) evs w.

(** The files behind the rows of the playlist page. *)
Definition shown_songs (e : Env) (w : MainWindow) : list string :=
  if String.eqb (pl_title w) "My Device Songs"
  then filter (is_file e) (imported w)
  else if String.eqb (pl_title w) "Custom Playlist"
       then filter (is_file e) (custom w)
       else [].

(** The sample window on its device page. *)
Definition window_device : MainWindow :=
  mkWindow ["a.mp3"%string; "b.mp3"%string] [] [] [] [] "My Device Songs"
           false 0 None 85 0 "0:00"%string "0:00"%string.

(** The sample window during a drag of the timeline. *)
Definition window_dragged : MainWindow :=
  mkWindow [] [] [] [] [] ""%string
           true 10 None 85 50 "0:10"%string "3:20"%string.


(** ** Symbolic execution of the methods *)

Ltac unfold_py :=
  cbv beta iota zeta delta
    [run outcome after signals
     load_playlist current_track load_and_play _play_internal play_index
     play_path toggle stop next prev set_volume seek tick_elapsed tick_total
     _tick bind ret raise try_except try_except_TypeError pass lift ask call
     get modify emit time_time set_playlist set_current_index set_playing
     set_volume_field set_track_start_time set_track_offset_seconds sub_opt
     or_else self emitted reads fst snd
     playlist current_index playing volume _track_start_time
     _track_offset_seconds].

Ltac red_self := cbv beta iota delta [self emitted reads].

Lemma getitem_nth {A} (l : list A) (i : Z) (x : A) :
  (0 <= i)%Z -> nth_error l (Z.to_nat i) = Some x -> getitem l i = Ok x.
Proof.
  intros Hi Hx. unfold getitem.
  destruct (i <? 0)%Z eqn:E; [apply Z.ltb_lt in E; lia|].
  rewrite E, Hx. reflexivity.
Qed.

Lemma nth_in_range {A} (l : list A) (i : Z) :
  (0 <= i < len l)%Z -> exists x, nth_error l (Z.to_nat i) = Some x.
Proof.
  intros H. destruct (nth_error l (Z.to_nat i)) eqn:E; eauto.
  apply nth_error_None in E. unfold len in H. lia.
Qed.

Lemma nth_some_range {A} (l : list A) (i : Z) (x : A) :
  (0 <= i)%Z -> nth_error l (Z.to_nat i) = Some x -> (i < len l)%Z.
Proof.
  intros Hi H. assert (Z.to_nat i < length l)%nat.
  { apply nth_error_Some. congruence. }
  unfold len. lia.
Qed.

Lemma load_and_play_run (path : string) (start : Q) (e : Env) (m : Machine) :
  if device_accepts e path start
  then load_and_play path start e m = (Ok tt, m)
  else exists x, load_and_play path start e m = (Raise x, m).
Proof.
  unfold device_accepts. unfold_py.
  destruct (music_load e path) as [[]|x]; [|eauto].
  destruct (music_play_start e start) as [[]|[]]; eauto.
  destruct (music_play e) as [[]|x]; [|eauto].
  destruct (music_set_pos e start) as [[]|x]; reflexivity.
Qed.

Lemma _play_internal_run (path : string) (start : Q) (e : Env) (m : Machine) :
  _play_internal path start e m =
    (Ok tt,
     if device_accepts e path start
     then mkMachine (started (self m) start (clock e (reads m)))
                    (emitted m ++ [track_changed path; state_changed])
                    (S (reads m))
     else m).
Proof.
  pose proof (load_and_play_run path start e m) as H.
  unfold _play_internal, try_except, bind at 1.
  destruct (device_accepts e path start).
  - rewrite H. unfold_py. rewrite <- app_assoc. reflexivity.
  - destruct H as [x ->]. reflexivity.
Qed.

Lemma is_empty_len {A} (l : list A) : is_empty l = true -> len l = 0%Z.
Proof. destruct l; [reflexivity | discriminate]. Qed.

Lemma play_index_run (idx : Z) (e : Env) (m : Machine) :
  play_index idx e m =
    match playable e (self m) idx with
    | Some p => _play_internal p 0 e (on_self (fun s => with_index s idx) m)
    | None => (Ok tt, m)
    end.
Proof.
  unfold playable, play_index, bind at 1, get at 1.
  destruct (is_empty (playlist (self m))) eqn:E.
  - apply is_empty_len in E. rewrite E.
    destruct (Z.leb_spec 0 idx), (Z.ltb_spec idx 0); try lia; reflexivity.
  - rewrite Z.geb_leb.
    destruct (Z.ltb_spec idx 0); cbn [orb].
    + destruct (Z.leb_spec 0 idx); [lia | reflexivity].
    + destruct (Z.leb_spec 0 idx); [cbn [andb] | lia].
      destruct (Z.leb_spec (len (playlist (self m))) idx),
        (Z.ltb_spec idx (len (playlist (self m)))); try lia; [reflexivity|].
      destruct (nth_in_range (playlist (self m)) idx ltac:(lia)) as [p Hp].
      rewrite Hp. unfold bind at 1, lift at 1.
      rewrite (getitem_nth _ idx _ ltac:(lia) Hp).
      unfold bind at 1, ask at 1.
      destruct (is_file e p); cbn [negb]; reflexivity.
Qed.

Lemma next_run (e : Env) (m : Machine) :
  next e m =
    if is_empty (playlist (self m)) then (Ok tt, m)
    else play_index (next_index (self m)) e
           (on_self (fun s => with_index s (next_index s)) m).
Proof.
  unfold next, bind at 1, get at 1.
  destruct (is_empty (playlist (self m))); reflexivity.
Qed.

Lemma prev_run (e : Env) (m : Machine) :
  prev e m =
    if is_empty (playlist (self m)) then (Ok tt, m)
    else play_index (prev_index (self m)) e
           (on_self (fun s => with_index s (prev_index s)) m).
Proof.
  unfold prev, bind at 1, get at 1.
  destruct (is_empty (playlist (self m))); reflexivity.
Qed.

Lemma selected_getitem (s : MusicPlayer) (p : string) :
  selected s = Some p ->
  (0 <= current_index s < len (playlist s))%Z /\
  getitem (playlist s) (current_index s) = Ok p.
Proof.
  unfold selected.
  destruct (Z.leb_spec 0 (current_index s)),
    (Z.ltb_spec (current_index s) (len (playlist s))); cbn [andb];
    try discriminate.
  intros Hp. split; [lia|]. apply getitem_nth; [lia | exact Hp].
Qed.

Lemma selected_none (s : MusicPlayer) :
  selected s = None ->
  ~ (0 <= current_index s < len (playlist s))%Z.
Proof.
  unfold selected.
  destruct (Z.leb_spec 0 (current_index s)),
    (Z.ltb_spec (current_index s) (len (playlist s))); cbn [andb];
    try lia.
  intros Hn. destruct (nth_in_range (playlist s) (current_index s)) as [x Hx];
    [lia | congruence].
Qed.

Lemma tick_total_run (e : Env) (m : Machine) :
  tick_total e m =
    (Ok match selected (self m) with
        | Some p => get_duration e p
        | None => 0
        end, m).
Proof.
  unfold tick_total, bind at 1, get at 1. unfold bind at 1, get at 1.
  destruct (selected (self m)) as [p|] eqn:Hs.
  - apply selected_getitem in Hs as [Hr Hg].
    destruct (Z.eqb_spec (current_index (self m)) (-1)); [lia|].
    destruct (Z.leb_spec 0 (current_index (self m))); [|lia].
    destruct (Z.ltb_spec (current_index (self m)) (len (playlist (self m))));
      [|lia].
    cbn [negb andb]. unfold bind, lift, ask. rewrite Hg. reflexivity.
  - apply selected_none in Hs.
    destruct (Z.eqb_spec (current_index (self m)) (-1)); [reflexivity|].
    destruct (Z.leb_spec 0 (current_index (self m))),
      (Z.ltb_spec (current_index (self m)) (len (playlist (self m))));
      try lia; reflexivity.
Qed.

Lemma tick_elapsed_run (e : Env) (m : Machine) :
  exists r, tick_elapsed e m =
    (Ok (spec_elapsed e (self m) (clock e (reads m))),
     mkMachine (self m) (emitted m) r).
Proof.
  destruct m as [[pl ci p v st off] ev r].
  unfold spec_elapsed, telemetry. unfold_py.
  destruct p; [|eexists; reflexivity].
  destruct st as [t0|]; [|eexists; reflexivity]. cbn [andb].
  destruct (music_get_pos e) as [ms|x]; [|eexists; reflexivity].
  destruct (ms >=? 0)%Z; eexists; reflexivity.
Qed.

Lemma _tick_run (e : Env) (s : MusicPlayer) :
  let total := track_total e s in
  let cur := spec_elapsed e s (clock e 0) in
  exists r,
    run _tick e s =
      if playing s then
        match music_get_busy e with
        | Raise x => (Raise x, mkMachine s [position_updated cur total] r)
        | Ok true => (Ok tt, mkMachine s [position_updated cur total] r)
        | Ok false =>
            if track_ended total cur
            then next e (mkMachine (with_playing s false)
                           [position_updated cur total; state_changed] r)
            else (Ok tt, mkMachine s [position_updated cur total] r)
        end
      else (Ok tt, mkMachine s [position_updated cur total] r).
Proof.
  intros total cur. subst total cur.
  unfold track_ended, track_total, run, _tick, bind at 1.
  rewrite tick_total_run. unfold bind at 1.
  destruct (tick_elapsed_run e (mkMachine s [] 0)) as [r ->].
  exists r. cbn [self emitted reads].
  unfold bind at 1, emit at 1. cbn [self emitted reads app].
  unfold bind at 1, get at 1. cbn [self].
  destruct (playing s) eqn:Hp; [|reflexivity].
  unfold bind at 1. unfold bind at 1, call at 1.
  destruct (music_get_busy e) as [[]|x]; cbn [negb ret]; try reflexivity.
  match goal with |- context [Qltb 1 ?t && Qle_bool ?a ?b] =>
    destruct (Qltb 1 t && Qle_bool a b); cbn [orb];
    [reflexivity | destruct (Qle_bool t 1); reflexivity]
  end.
Qed.

Lemma toggle_pause_run (e : Env) (s : MusicPlayer) (t0 : Q) :
  playing s = true ->
  _track_start_time s = Some t0 ->
  exists r,
    run toggle e s =
      (Ok tt,
       mkMachine
         (mkPlayer (playlist s) (current_index s) false (volume s) (Some t0)
                   (_track_offset_seconds s + pause_delta e t0))
         [state_changed] r).
Proof.
  destruct s as [pl ci p v st off]. cbn. intros -> ->.
  unfold pause_delta. unfold_py. unfold truthy.
  destruct (music_pause e) as [[]|x];
    (destruct (music_get_pos e) as [ms|y];
     [destruct (ms >=? 0)%Z; eexists; reflexivity|]);
    destruct (Qeq_bool t0 0); eexists; reflexivity.
Qed.

Lemma toggle_pause_frame (e : Env) (s : MusicPlayer) :
  playing s = true ->
  exists off r,
    run toggle e s =
      (Ok tt,
       mkMachine
         (mkPlayer (playlist s) (current_index s) false (volume s)
                   (_track_start_time s) off)
         [state_changed] r).
Proof.
  destruct s as [pl ci p v st off]. cbn. intros ->.
  unfold_py. unfold truthy.
  destruct (music_pause e) as [[]|x];
    (destruct (music_get_pos e) as [ms|y];
     [destruct (ms >=? 0)%Z; [do 2 eexists; reflexivity|]|]);
    destruct st as [t0|]; try destruct (Qeq_bool t0 0);
    do 2 eexists; reflexivity.
Qed.

Lemma toggle_resume_run (e : Env) (s : MusicPlayer) :
  playing s = false ->
  run toggle e s =
    match music_unpause e with
    | Ok _ =>
        (Ok tt,
         mkMachine
           (mkPlayer (playlist s) (current_index s) true (volume s)
                     (Some (clock e 0)) (_track_offset_seconds s))
           [state_changed] 1)
    | Raise _ =>
        if is_empty (playlist s) then (Ok tt, mkMachine s [] 0)
        else if (current_index s =? -1)%Z
             then play_index 0 e (mkMachine s [] 0)
             else (path <- lift (getitem (playlist s) (current_index s)) ;;
                   _play_internal path (_track_offset_seconds s))
                    e (mkMachine s [] 0)
    end.
Proof.
  intros Hp.
  unfold run, toggle, bind at 1, get at 1. red_self. rewrite Hp.
  unfold try_except, bind at 1, call at 1.
  destruct (music_unpause e) as [[]|x]; [reflexivity|].
  unfold bind at 1, get at 1. red_self.
  destruct (is_empty (playlist s)); [reflexivity|].
  unfold bind at 1, get at 1. red_self.
  destruct (current_index s =? -1)%Z; [reflexivity|].
  unfold bind, lift.
  destruct (getitem (playlist s) (current_index s)); reflexivity.
Qed.

Lemma seek_run (seconds : Q) (e : Env) (s : MusicPlayer) :
  run (seek seconds) e s =
    (Ok tt,
     match selected s with
     | Some p =>
         if is_file e p
            && device_accepts e p (clamp_seek seconds (get_duration e p))
         then mkMachine
                (started s (clamp_seek seconds (get_duration e p)) (clock e 0))
                [track_changed p; state_changed] 1
         else mkMachine s [] 0
     | None => mkMachine s [] 0
     end).
Proof.
  unfold run, seek, bind at 1, get at 1. unfold bind at 1, get at 1.
  cbn [self].
  destruct (selected s) as [p|] eqn:Hs.
  - apply selected_getitem in Hs as [Hr Hg].
    destruct (Z.eqb_spec (current_index s) (-1)); [lia|].
    destruct (Z.leb_spec 0 (current_index s)); [|lia].
    destruct (Z.ltb_spec (current_index s) (len (playlist s))); [|lia].
    cbn [negb andb orb]. unfold bind at 1, lift at 1. rewrite Hg.
    unfold bind at 1, ask at 1.
    destruct (is_file e p); cbn [negb andb]; [|reflexivity].
    unfold bind at 1, ask at 1. fold (clamp_seek seconds (get_duration e p)).
    pose proof (load_and_play_run p (clamp_seek seconds (get_duration e p)) e
                  (mkMachine s [] 0)) as Hlp.
    unfold try_except, bind at 1.
    destruct (device_accepts e p (clamp_seek seconds (get_duration e p))).
    + rewrite Hlp. reflexivity.
    + destruct Hlp as [x ->]. reflexivity.
  - apply selected_none in Hs.
    destruct (Z.eqb_spec (current_index s) (-1)); [reflexivity|].
    destruct (Z.leb_spec 0 (current_index s)),
      (Z.ltb_spec (current_index s) (len (playlist s)));
      try lia; reflexivity.
Qed.

Lemma stop_run (e : Env) (s : MusicPlayer) :
  run stop e s =
    (Ok tt,
     mkMachine
       (mkPlayer (playlist s) (current_index s) false (volume s) None 0)
       [state_changed] 0).
Proof.
  unfold_py. destruct (music_stop e) as [[]|x]; reflexivity.
Qed.

Lemma set_volume_run (vol : Q) (e : Env) (s : MusicPlayer) :
  run (set_volume vol) e s =
    (Ok tt,
     mkMachine
       (mkPlayer (playlist s) (current_index s) (playing s)
                 (py_max 0 (py_min 1 vol))
                 (_track_start_time s) (_track_offset_seconds s))
       [state_changed] 0).
Proof.
  unfold_py.
  destruct (music_set_volume e (py_max 0 (py_min 1 vol))) as [[]|x];
    reflexivity.
Qed.

Lemma load_playlist_run (paths : list string) (e : Env) (s : MusicPlayer) :
  run (load_playlist paths) e s =
    (Ok tt,
     mkMachine
       (mkPlayer (filter (is_file e) paths)
                 (if is_empty (filter (is_file e) paths) then -1 else 0)%Z
                 (playing s) (volume s)
                 (_track_start_time s) (_track_offset_seconds s))
       [] 0).
Proof. reflexivity. Qed.

Lemma len_nonempty {A} (l : list A) : is_empty l = false -> (0 < len l)%Z.
Proof. destruct l; [discriminate|]. unfold len. cbn [length]. lia. Qed.

Lemma same_selection_ok (s s' : MusicPlayer) :
  same_selection s s' -> index_ok s -> index_ok s'.
Proof. unfold same_selection, index_ok. intros [-> ->]. tauto. Qed.

Lemma _play_internal_selection (p : string) (t : Q) (e : Env) (m : Machine) :
  same_selection (self m) (self (snd (_play_internal p t e m))).
Proof.
  rewrite _play_internal_run. cbn [snd].
  destruct (device_accepts e p t); split; reflexivity.
Qed.

Lemma playable_range (e : Env) (s : MusicPlayer) (idx : Z) (p : string) :
  playable e s idx = Some p ->
  (0 <= idx < len (playlist s))%Z /\
  nth_error (playlist s) (Z.to_nat idx) = Some p /\ is_file e p = true.
Proof.
  unfold playable.
  destruct (Z.leb_spec 0 idx), (Z.ltb_spec idx (len (playlist s)));
    cbn [andb]; try discriminate.
  destruct (nth_error (playlist s) (Z.to_nat idx)) as [q|]; [|discriminate].
  destruct (is_file e q) eqn:E; [|discriminate].
  intros [= ->]. repeat split; try assumption; lia.
Qed.

(** [play_index] keeps the playlist and leaves a selection that is either
    the old one or a position of the playlist. *)
Lemma play_index_selection (idx : Z) (e : Env) (m : Machine) :
  let s' := self (snd (play_index idx e m)) in
  playlist s' = playlist (self m) /\
  (current_index s' = current_index (self m) \/
   (0 <= current_index s' < len (playlist s'))%Z).
Proof.
  rewrite play_index_run.
  destruct (playable e (self m) idx) as [p|] eqn:Hp; cbn zeta.
  - apply playable_range in Hp as (Hr & _ & _).
    destruct (_play_internal_selection p 0 e
                (on_self (fun s => with_index s idx) m)) as [Hl Hi].
    rewrite Hl, Hi. cbn. split; [reflexivity | right; exact Hr].
  - cbn. split; [reflexivity | left; reflexivity].
Qed.

Lemma play_index_ok (idx : Z) (e : Env) (m : Machine) :
  index_ok (self m) -> index_ok (self (snd (play_index idx e m))).
Proof.
  intros H. destruct (play_index_selection idx e m) as [Hl [Hi|Hi]].
  - apply (same_selection_ok (self m)); [split|]; assumption.
  - right. exact Hi.
Qed.

Lemma next_index_range (s : MusicPlayer) :
  is_empty (playlist s) = false ->
  (0 <= next_index s < len (playlist s))%Z.
Proof.
  intros H. apply len_nonempty in H. unfold next_index.
  destruct (current_index s =? -1)%Z; [lia|].
  apply Z.mod_pos_bound. exact H.
Qed.

Lemma prev_index_range (s : MusicPlayer) :
  is_empty (playlist s) = false ->
  (0 <= prev_index s < len (playlist s))%Z.
Proof.
  intros H. apply len_nonempty in H. unfold prev_index.
  destruct (current_index s =? -1)%Z; [lia|].
  apply Z.mod_pos_bound. exact H.
Qed.

(** After [next] on a non-empty playlist the selection is [next_index]. *)
Lemma next_selection (e : Env) (m : Machine) :
  is_empty (playlist (self m)) = false ->
  same_selection (with_index (self m) (next_index (self m)))
                 (self (snd (next e m))).
Proof.
  intros H. rewrite next_run, H, play_index_run.
  destruct (playable _ _ _) as [p|]; [|split; reflexivity].
  apply _play_internal_selection.
Qed.

Lemma prev_selection (e : Env) (m : Machine) :
  is_empty (playlist (self m)) = false ->
  same_selection (with_index (self m) (prev_index (self m)))
                 (self (snd (prev e m))).
Proof.
  intros H. rewrite prev_run, H, play_index_run.
  destruct (playable _ _ _) as [p|]; [|split; reflexivity].
  apply _play_internal_selection.
Qed.

Lemma next_ok (e : Env) (m : Machine) :
  index_ok (self m) -> index_ok (self (snd (next e m))).
Proof.
  intros H. destruct (is_empty (playlist (self m))) eqn:E.
  - rewrite next_run, E. exact H.
  - destruct (next_selection e m E) as [Hl Hi]. right.
    rewrite Hl, Hi. cbn. apply next_index_range, E.
Qed.

Lemma prev_ok (e : Env) (m : Machine) :
  index_ok (self m) -> index_ok (self (snd (prev e m))).
Proof.
  intros H. destruct (is_empty (playlist (self m))) eqn:E.
  - rewrite prev_run, E. exact H.
  - destruct (prev_selection e m E) as [Hl Hi]. right.
    rewrite Hl, Hi. cbn. apply prev_index_range, E.
Qed.

Lemma index_first (x : string) (l : list string) :
  contains x l = true ->
  exists i, index x l = Ok i /\ (0 <= i)%Z /\
            nth_error l (Z.to_nat i) = Some x /\
            forall j, (0 <= j < i)%Z -> nth_error l (Z.to_nat j) <> Some x.
Proof.
  unfold contains. induction l as [|y l IH]; [discriminate|].
  cbn [existsb index]. rewrite (String.eqb_sym x y).
  destruct (String.eqb_spec y x) as [->|Hne].
  - intros _. exists 0%Z. repeat split; [lia | lia].
  - cbn [orb]. intros H. destruct (IH H) as (i & -> & Hi & Hn & Hfirst).
    exists (i + 1)%Z. repeat split; [lia | |].
    + replace (Z.to_nat (i + 1)) with (S (Z.to_nat i)) by lia. exact Hn.
    + intros j Hj. destruct (Z.eq_dec j 0) as [->|Hj0].
      * cbn. congruence.
      * replace (Z.to_nat j) with (S (Z.to_nat (j - 1))) by lia.
        cbn [nth_error]. apply Hfirst. lia.
Qed.

Lemma play_path_run (path : string) (e : Env) (m : Machine) :
  play_path path e m =
    if is_file e path then
      if contains path (playlist (self m)) then
        match index path (playlist (self m)) with
        | Ok i => play_index i e m
        | Raise x => (Raise x, m)
        end
      else _play_internal path 0 e (on_self (fun s => with_index s (-1)) m)
    else (Ok tt, m).
Proof.
  unfold play_path, bind at 1, ask at 1.
  destruct (is_file e path); cbn [negb]; [|reflexivity].
  unfold bind at 1, get at 1.
  destruct (contains path (playlist (self m))); [|reflexivity].
  unfold bind, lift.
  destruct (index path (playlist (self m))); reflexivity.
Qed.

Lemma play_path_ok (path : string) (e : Env) (m : Machine) :
  index_ok (self m) -> index_ok (self (snd (play_path path e m))).
Proof.
  intros H. rewrite play_path_run.
  destruct (is_file e path); [|exact H].
  destruct (contains path (playlist (self m))).
  - destruct (index path (playlist (self m))); [|exact H].
    apply play_index_ok, H.
  - destruct (_play_internal_selection path 0 e
                (on_self (fun s => with_index s (-1)) m)) as [_ Hi].
    left. rewrite Hi. reflexivity.
Qed.

Lemma toggle_ok (e : Env) (s : MusicPlayer) :
  index_ok s -> index_ok (after toggle e s).
Proof.
  intros H. unfold after. destruct (playing s) eqn:Hp.
  - destruct (toggle_pause_frame e s Hp) as (off & r & ->). exact H.
  - rewrite (toggle_resume_run e s Hp).
    destruct (music_unpause e) as [[]|x]; [exact H|].
    destruct (is_empty (playlist s)); [exact H|].
    destruct (current_index s =? -1)%Z.
    + apply (play_index_ok 0 e (mkMachine s [] 0)), H.
    + unfold bind, lift.
      destruct (getitem (playlist s) (current_index s)) as [p|x']; [|exact H].
      apply (same_selection_ok s); [|exact H].
      apply (_play_internal_selection p _ e (mkMachine s [] 0)).
Qed.

Lemma seek_selection (seconds : Q) (e : Env) (s : MusicPlayer) :
  same_selection s (after (seek seconds) e s).
Proof.
  unfold after. rewrite seek_run. cbn [snd].
  destruct (selected s) as [p|]; [|split; reflexivity].
  destruct (is_file e p && device_accepts e p _); split; reflexivity.
Qed.

Lemma _tick_ok (e : Env) (s : MusicPlayer) :
  index_ok s -> index_ok (after _tick e s).
Proof.
  intros H. unfold after. destruct (_tick_run e s) as [r ->].
  destruct (playing s); [|exact H].
  destruct (music_get_busy e) as [[]|x]; try exact H.
  destruct (track_ended _ _); [|exact H].
  apply next_ok. exact H.
Qed.

Lemma contains_In (x : string) (l : list string) :
  contains x l = true <-> In x l.
Proof.
  unfold contains. rewrite existsb_exists. split.
  - intros (y & Hy & E). apply String.eqb_eq in E. subst. exact Hy.
  - intros H. exists x. split; [exact H | apply String.eqb_refl].
Qed.

Lemma is_empty_false {A} (l : list A) : l <> [] -> is_empty l = false.
Proof. destruct l; [congruence | reflexivity]. Qed.

Lemma play_index_fresh (idx : Z) (p : string) (e : Env) (s : MusicPlayer) :
  (0 <= idx)%Z ->
  nth_error (playlist s) (Z.to_nat idx) = Some p ->
  is_file e p = true ->
  device_accepts e p 0 = true ->
  run (play_index idx) e s =
    (Ok tt,
     mkMachine
       (mkPlayer (playlist s) idx true (volume s) (Some (clock e 0)) 0)
       [track_changed p; state_changed] 1).
Proof.
  intros Hi Hp Hf Hd. unfold run. rewrite play_index_run.
  unfold playable. red_self.
  pose proof (nth_some_range _ _ _ Hi Hp) as Hlt.
  destruct (Z.leb_spec 0 idx); [|lia].
  destruct (Z.ltb_spec idx (len (playlist s))); [|lia].
  cbn [andb]. rewrite Hp, Hf, _play_internal_run, Hd. reflexivity.
Qed.

Lemma Qltb_lt (x y : Q) : Qltb x y = true <-> x < y.
Proof.
  unfold Qltb. rewrite negb_true_iff. split.
  - intros H. apply Qnot_le_lt. intros Hle.
    apply Qle_bool_iff in Hle. congruence.
  - intros H. destruct (Qle_bool y x) eqn:E; [|reflexivity].
    apply Qle_bool_iff in E. exfalso. exact (Qlt_not_le _ _ H E).
Qed.

Lemma Qltb_ge (x y : Q) : Qltb x y = false <-> y <= x.
Proof.
  unfold Qltb. rewrite negb_false_iff. apply Qle_bool_iff.
Qed.

Lemma _play_internal_emits (p : string) (t : Q) (e : Env) (m : Machine) :
  exists evs, emitted (snd (_play_internal p t e m)) = emitted m ++ evs.
Proof.
  rewrite _play_internal_run. cbn [snd].
  destruct (device_accepts e p t); cbn [emitted]; [eauto|].
  exists []. symmetry. apply app_nil_r.
Qed.

Lemma play_index_emits (idx : Z) (e : Env) (m : Machine) :
  exists evs, emitted (snd (play_index idx e m)) = emitted m ++ evs.
Proof.
  rewrite play_index_run. destruct (playable e (self m) idx) as [p|].
  - apply (_play_internal_emits p 0 e (on_self _ m)).
  - exists []. symmetry. apply app_nil_r.
Qed.

Lemma next_emits (e : Env) (m : Machine) :
  exists evs, emitted (snd (next e m)) = emitted m ++ evs.
Proof.
  rewrite next_run. destruct (is_empty (playlist (self m))).
  - exists []. symmetry. apply app_nil_r.
  - apply (play_index_emits _ e (on_self _ m)).
Qed.

Lemma _tick_reports (e : Env) (s : MusicPlayer) :
  exists rest,
    signals _tick e s =
      position_updated (spec_elapsed e s (clock e 0)) (track_total e s) :: rest.
Proof.
  unfold signals. destruct (_tick_run e s) as [r ->].
  destruct (playing s); [|eexists; reflexivity].
  destruct (music_get_busy e) as [[]|x]; try (eexists; reflexivity).
  destruct (track_ended _ _); [|eexists; reflexivity].
  destruct (next_emits e
              (mkMachine (with_playing s false)
                 [position_updated (spec_elapsed e s (clock e 0))
                    (track_total e s); state_changed] r)) as [evs ->].
  eexists. reflexivity.
Qed.

Lemma tick_reports_elapsed (e : Env) (s : MusicPlayer) (cur : Q) :
  tick_reports e s cur <-> cur = spec_elapsed e s (clock e 0).
Proof.
  unfold tick_reports. destruct (_tick_reports e s) as [rest ->]. split.
  - intros (total & rest' & [= <- _ _]). reflexivity.
  - intros ->. eauto.
Qed.

Lemma track_ended_true (total cur : Q) :
  track_ended total cur = true <->
  (1 < total /\ total - 0.7 <= cur) \/ total <= 1.
Proof.
  unfold track_ended.
  rewrite orb_true_iff, andb_true_iff, Qltb_lt, !Qle_bool_iff. reflexivity.
Qed.

Lemma clamp_seek_spec (seconds total : Q) :
  clamp_seek seconds total ==
    if Qltb 0 total then Qmax 0 (Qmin seconds total) else Qmax 0 seconds.
Proof.
  unfold clamp_seek, py_max, py_min.
  destruct (Qltb 0 total) eqn:Et.
  - apply Qltb_lt in Et.
    destruct (Qltb total seconds) eqn:E1.
    + apply Qltb_lt in E1. rewrite (Q.min_r seconds total) by lra.
      destruct (Qltb 0 total) eqn:E2.
      * rewrite Q.max_r by lra. reflexivity.
      * apply Qltb_ge in E2. lra.
    + apply Qltb_ge in E1. rewrite (Q.min_l seconds total) by lra.
      destruct (Qltb 0 seconds) eqn:E2.
      * apply Qltb_lt in E2. rewrite Q.max_r by lra. reflexivity.
      * apply Qltb_ge in E2. rewrite Q.max_l by lra. reflexivity.
  - assert (Qltb seconds seconds = false) as -> by (apply Qltb_ge; lra).
    destruct (Qltb 0 seconds) eqn:E2.
    + apply Qltb_lt in E2. rewrite Q.max_r by lra. reflexivity.
    + apply Qltb_ge in E2. rewrite Q.max_l by lra. reflexivity.
Qed.

Lemma play_path_index_ok (path : string) (e : Env) (m : Machine) :
  fst (play_path path e m) = Ok tt.
Proof.
  rewrite play_path_run. destruct (is_file e path); [|reflexivity].
  destruct (contains path (playlist (self m))) eqn:Hc.
  - destruct (index_first _ _ Hc) as (i & -> & _).
    rewrite play_index_run. destruct (playable _ _ _); [|reflexivity].
    rewrite _play_internal_run. reflexivity.
  - rewrite _play_internal_run. reflexivity.
Qed.

Lemma play_index_returns (idx : Z) (e : Env) (m : Machine) :
  fst (play_index idx e m) = Ok tt.
Proof.
  rewrite play_index_run. destruct (playable _ _ _); [|reflexivity].
  rewrite _play_internal_run. reflexivity.
Qed.

Lemma getitem_selected (s : MusicPlayer) :
  index_ok s -> is_empty (playlist s) = false ->
  (current_index s =? -1)%Z = false ->
  exists p, getitem (playlist s) (current_index s) = Ok p.
Proof.
  intros [H|H] _ Hne.
  - rewrite H in Hne. discriminate.
  - destruct (nth_in_range _ _ H) as [p Hp]. exists p.
    apply getitem_nth; [lia | exact Hp].
Qed.

(** No transport command raises on an object that satisfies the selection
    invariant, whatever the device does. *)
Lemma transport_returns (o : Op) (e : Env) (s : MusicPlayer) :
  index_ok s -> is_transport o = true -> outcome (perform o) e s = Ok tt.
Proof.
  intros Hok Ht. unfold outcome. destruct o; try discriminate; cbn [perform].
  - apply play_index_returns.
  - apply play_path_index_ok.
  - destruct (playing s) eqn:Hp.
    + destruct (toggle_pause_frame e s Hp) as (off & r & ->). reflexivity.
    + rewrite (toggle_resume_run e s Hp).
      destruct (music_unpause e) as [[]|x]; [reflexivity|].
      destruct (is_empty (playlist s)) eqn:He; [reflexivity|].
      destruct (current_index s =? -1)%Z eqn:Hi.
      * apply play_index_returns.
      * destruct (getitem_selected s Hok He Hi) as [p Hg].
        unfold bind, lift. rewrite Hg, _play_internal_run. reflexivity.
  - rewrite stop_run. reflexivity.
  - unfold run. rewrite next_run.
    destruct (is_empty _); [reflexivity | apply play_index_returns].
  - unfold run. rewrite prev_run.
    destruct (is_empty _); [reflexivity | apply play_index_returns].
  - rewrite seek_run. reflexivity.
Qed.

Lemma is_empty_nil (s : MusicPlayer) : idle s -> is_empty (playlist s) = true.
Proof. intros [-> _]. reflexivity. Qed.

Lemma idle_selected (s : MusicPlayer) : idle s -> selected s = None.
Proof. intros [_ Hi]. unfold selected. rewrite Hi. reflexivity. Qed.

Lemma same_selection_idle (s s' : MusicPlayer) :
  same_selection s s' -> idle s -> idle s'.
Proof. unfold same_selection, idle. intros [-> ->]. tauto. Qed.

Lemma idle_step (o : Op) (e : Env) (s : MusicPlayer) :
  is_load o = false -> idle s -> idle (after (perform o) e s).
Proof.
  intros Hl Hs. pose proof (is_empty_nil s Hs) as He.
  unfold after. destruct o; try discriminate; cbn [perform].
  - unfold run. rewrite play_index_run. unfold playable. red_self.
    destruct Hs as [Hpl Hci]. rewrite Hpl. cbn [len length Z.of_nat].
    destruct (Z.leb_spec 0 idx), (Z.ltb_spec idx 0); try lia; cbn [andb];
      split; assumption.
  - unfold run. rewrite play_path_run. red_self.
    destruct (is_file e path); [|exact Hs].
    destruct Hs as [Hpl Hci]. rewrite Hpl. cbn [contains existsb].
    destruct (_play_internal_selection path 0 e
                (on_self (fun s => with_index s (-1)) (mkMachine s [] 0)))
      as [Hl' Hi'].
    split; [etransitivity; [exact Hl' | exact Hpl]
           | etransitivity; [exact Hi' | reflexivity]].
  - apply (same_selection_idle s); [|exact Hs].
    destruct (playing s) eqn:Hp.
    + destruct (toggle_pause_frame e s Hp) as (off & r & ->).
      split; reflexivity.
    + rewrite (toggle_resume_run e s Hp), He.
      destruct (music_unpause e) as [[]|x]; split; reflexivity.
  - rewrite stop_run. exact Hs.
  - unfold run. rewrite next_run. red_self. rewrite He. exact Hs.
  - unfold run. rewrite prev_run. red_self. rewrite He. exact Hs.
  - apply (same_selection_idle s); [apply seek_selection | exact Hs].
  - rewrite set_volume_run. exact Hs.
  - destruct (_tick_run e s) as [r ->].
    destruct (playing s); [|exact Hs].
    destruct (music_get_busy e) as [[]|x]; try exact Hs.
    destruct (track_ended _ _); [|exact Hs].
    rewrite next_run. red_self. cbn [with_playing playlist].
    rewrite He. exact Hs.
Qed.

Lemma ms_to_seconds_nonneg (ms : Z) : (0 <= ms)%Z -> 0 <= ms_to_seconds ms.
Proof.
  intros H. unfold ms_to_seconds.
  apply Qle_shift_div_l; [reflexivity|]. rewrite Qmult_0_l.
  change 0 with (inject_Z 0). rewrite <- Zle_Qle. exact H.
Qed.

Lemma ms_to_seconds_le (a b : Z) :
  (a <= b)%Z -> ms_to_seconds a <= ms_to_seconds b.
Proof.
  intros H. unfold ms_to_seconds, Qdiv.
  apply Qmult_le_compat_r; [|discriminate].
  rewrite <- Zle_Qle. exact H.
Qed.

Lemma telemetry_nonneg (e : Env) (ms : Z) :
  telemetry e = Some ms -> (0 <= ms)%Z.
Proof.
  unfold telemetry. destruct (music_get_pos e) as [a|x]; [|discriminate].
  destruct (Z.geb_spec a 0); [|discriminate]. intros [= <-]. lia.
Qed.

(** On one and the same object, a later tick from the same source never
    reports less. *)
Lemma spec_elapsed_monotone (s : MusicPlayer) (ea eb : Env) :
  same_source_later ea eb ->
  spec_elapsed ea s (clock ea 0) <= spec_elapsed eb s (clock eb 0).
Proof.
  unfold same_source_later, spec_elapsed.
  destruct (playing s); [|intros _; lra].
  destruct (_track_start_time s) as [t0|]; [|intros _; lra].
  destruct (telemetry ea) as [a|], (telemetry eb) as [b|]; try contradiction.
  - intros H. apply ms_to_seconds_le in H. lra.
  - intros H. lra.
Qed.

Lemma pause_delta_later (ea e : Env) (s : MusicPlayer) (t0 : Q) :
  playing s = true -> _track_start_time s = Some t0 -> 0 < t0 ->
  same_source_later ea e ->
  spec_elapsed ea s (clock ea 0) <= _track_offset_seconds s + pause_delta e t0.
Proof.
  intros Hp Hs Ht. unfold same_source_later, spec_elapsed, pause_delta.
  rewrite Hp, Hs. unfold telemetry.
  assert (Hz : Qeq_bool t0 0 = false).
  { destruct (Qeq_bool t0 0) eqn:E; [|reflexivity].
    apply Qeq_bool_iff in E. lra. }
  rewrite Hz.
  destruct (music_get_pos ea) as [a|x], (music_get_pos e) as [b|y];
    try destruct (a >=? 0)%Z; try destruct (b >=? 0)%Z;
    try contradiction; intros Hl;
    try (match type of Hl with (_ <= _)%Z => apply ms_to_seconds_le in Hl end);
    lra.
Qed.

Lemma pause_delta_nonneg (e : Env) (t0 : Q) :
  0 < t0 -> t0 <= clock e 0 -> 0 <= pause_delta e t0.
Proof.
  intros Ht Hc. unfold pause_delta.
  destruct (music_get_pos e) as [b|y].
  - destruct (Z.geb_spec b 0); [apply ms_to_seconds_nonneg; lia | lra].
  - destruct (Qeq_bool t0 0) eqn:E; [|lra].
    apply Qeq_bool_iff in E. lra.
Qed.

(** ** The claims *)

(** C1, as stated, fails.  Start the first track at clock 100, pause at 110
    with 10 s played, resume at 120.  The device counts the time played since
    [play], so at clock 121 it answers 11000 ms and the tick reports 21 s;
    the object is unchanged by that tick.  At clock 122 the 12 s track is
    over, the device answers -1, and the tick falls back on the wall clock:
    it reports 12 s, less than the tick before, with [playing] still true. *)
Lemma elapsed_decreases_when_source_changes :
  playing player_resumed = true /\
  after _tick (env_short 11000 true 121) player_resumed = player_resumed /\
  clock (env_short 11000 true 121) 0 <= clock (env_short (-1) false 122) 0 /\
  exists ca cb,
    tick_reports (env_short 11000 true 121) player_resumed ca /\
    tick_reports (env_short (-1) false 122) player_resumed cb /\
    ca == 21 /\ cb == 12 /\ cb < ca.
Proof.
  split; [reflexivity|]. split; [reflexivity|]. split; [discriminate|].
  exists (spec_elapsed (env_short 11000 true 121) player_resumed 121),
         (spec_elapsed (env_short (-1) false 122) player_resumed 122).
  split; [apply tick_reports_elapsed; reflexivity|].
  split; [apply tick_reports_elapsed; reflexivity|].
  split; [reflexivity|]. split; reflexivity.
Qed.

(** C1, amended.  [play_index i] starts a track, [toggle] pauses it,
    [toggle] resumes it; the wall clock is positive and does not run
    backwards.  While playing, before the pause and after the resume, a
    later tick reports no less than an earlier one as long as both read the
    same source; the value the pause records is no less than what such a
    tick reported.  While paused every tick reports the recorded offset and
    changes nothing.  The resume keeps the offset, and every tick after it
    reports at least that offset. *)
Theorem pause_resume_elapsed (s0 : MusicPlayer) (i : Z) (p : string)
        (e1 e2 e3 : Env) :
  (0 <= i)%Z ->
  nth_error (playlist s0) (Z.to_nat i) = Some p ->
  is_file e1 p = true ->
  device_accepts e1 p 0 = true ->
  0 < clock e1 0 ->
  clock e1 0 <= clock e2 0 ->
  let s1 := after (play_index i) e1 s0 in
  let s2 := after toggle e2 s1 in
  let s3 := after toggle e3 s2 in
  (playing s1 = true /\
   (forall ea eb ca cb,
       same_source_later ea eb ->
       tick_reports ea s1 ca -> tick_reports eb s1 cb -> ca <= cb) /\
   (forall ea ca,
       same_source_later ea e2 ->
       tick_reports ea s1 ca -> ca <= _track_offset_seconds s2)) /\
  (playing s2 = false /\
   0 <= _track_offset_seconds s2 /\
   (forall e, tick_reports e s2 (_track_offset_seconds s2) /\
              after _tick e s2 = s2)) /\
  (_track_offset_seconds s3 = _track_offset_seconds s2 /\
   (forall e c,
       clock e3 0 <= clock e 0 ->
       tick_reports e s3 c -> _track_offset_seconds s2 <= c) /\
   (forall ea eb ca cb,
       same_source_later ea eb ->
       tick_reports ea s3 ca -> tick_reports eb s3 cb -> ca <= cb)).
Proof.
  intros Hi Hn Hf Hd Hpos Hclk s1 s2 s3.
  assert (Hmono : forall s ea eb ca cb,
             same_source_later ea eb ->
             tick_reports ea s ca -> tick_reports eb s cb -> ca <= cb).
  { intros s ea eb ca cb Hss Ha Hb.
    apply tick_reports_elapsed in Ha, Hb. subst.
    apply spec_elapsed_monotone, Hss. }
  assert (E1 : s1 = mkPlayer (playlist s0) i true (volume s0)
                             (Some (clock e1 0)) 0).
  { unfold s1, after. rewrite (play_index_fresh i p e1 s0 Hi Hn Hf Hd).
    reflexivity. }
  assert (E2 : s2 = mkPlayer (playlist s0) i false (volume s0)
                             (Some (clock e1 0))
                             (0 + pause_delta e2 (clock e1 0))).
  { unfold s2, after.
    destruct (toggle_pause_run e2 s1 (clock e1 0)) as [r ->];
      rewrite E1; reflexivity. }
  assert (Hoff : 0 <= _track_offset_seconds s2).
  { rewrite E2. cbn [_track_offset_seconds].
    pose proof (pause_delta_nonneg e2 (clock e1 0) Hpos Hclk). lra. }
  assert (E3 : s3 = s2 \/
               s3 = mkPlayer (playlist s0) i true (volume s0)
                             (Some (clock e3 0)) (_track_offset_seconds s2)).
  { unfold s3, after.
    rewrite (toggle_resume_run e3 s2) by (rewrite E2; reflexivity).
    destruct (music_unpause e3) as [[]|x].
    - right. rewrite E2. reflexivity.
    - assert (Hlen : (i < len (playlist s0))%Z)
        by (apply (nth_some_range _ _ p); assumption).
      assert (He : is_empty (playlist s2) = false).
      { rewrite E2. cbn [playlist]. destruct (playlist s0);
          [destruct (Z.to_nat i); discriminate | reflexivity]. }
      rewrite He.
      assert (Hci : (current_index s2 =? -1)%Z = false).
      { rewrite E2. cbn [current_index]. apply Z.eqb_neq. lia. }
      rewrite Hci. unfold bind, lift.
      assert (Hg : getitem (playlist s2) (current_index s2) = Ok p).
      { rewrite E2. cbn [playlist current_index].
        apply getitem_nth; assumption. }
      rewrite Hg, _play_internal_run.
      destruct (device_accepts e3 p (_track_offset_seconds s2));
        [right; rewrite E2; reflexivity | left; reflexivity]. }
  split; [|split].
  - split; [rewrite E1; reflexivity|]. split; [apply Hmono|].
    intros ea ca Hss Ha. apply tick_reports_elapsed in Ha. subst ca.
    rewrite E2. cbn [_track_offset_seconds].
    pose proof (pause_delta_later ea e2 s1 (clock e1 0)) as Hlater.
    rewrite E1 in Hlater. rewrite E1.
    exact (Hlater eq_refl eq_refl Hpos Hss).
  - split; [rewrite E2; reflexivity|]. split; [exact Hoff|].
    intros e. split.
    + apply tick_reports_elapsed. unfold spec_elapsed.
      rewrite E2. reflexivity.
    + unfold after. destruct (_tick_run e s2) as [r ->].
      rewrite E2. reflexivity.
  - split; [|split; [|apply Hmono]].
    + destruct E3 as [-> | ->]; reflexivity.
    + intros e c Hc Hrep. apply tick_reports_elapsed in Hrep. subst c.
      destruct E3 as [-> | ->].
      * unfold spec_elapsed. rewrite E2. cbn. lra.
      * unfold spec_elapsed. cbn.
        destruct (telemetry e) as [ms|] eqn:Et.
        -- apply telemetry_nonneg, ms_to_seconds_nonneg in Et. lra.
        -- lra.
Qed.

(** The amended C1 on the first of three tracks: started at clock 100,
    paused at 110, resumed at 120. *)
Lemma pause_resume_elapsed_witness :
  (0 <= 0)%Z /\
  nth_error (playlist player_loaded) (Z.to_nat 0) = Some "a.mp3"%string /\
  is_file (env_short 0 true 100) "a.mp3"%string = true /\
  device_accepts (env_short 0 true 100) "a.mp3"%string 0 = true /\
  0 < clock (env_short 0 true 100) 0 /\
  clock (env_short 0 true 100) 0 <= clock (env_short 10000 true 110) 0 /\
  playing (after toggle (env_short 10000 true 110)
             (after (play_index 0) (env_short 0 true 100) player_loaded))
    = false /\
  _track_offset_seconds player_resumed =
    _track_offset_seconds
      (after toggle (env_short 10000 true 110)
         (after (play_index 0) (env_short 0 true 100) player_loaded)).
Proof.
  assert (H1 : (0 <= 0)%Z) by lia.
  assert (H2 : nth_error (playlist player_loaded) (Z.to_nat 0)
               = Some "a.mp3"%string) by reflexivity.
  assert (H3 : is_file (env_short 0 true 100) "a.mp3"%string = true)
    by reflexivity.
  assert (H4 : device_accepts (env_short 0 true 100) "a.mp3"%string 0 = true)
    by reflexivity.
  assert (H5 : 0 < clock (env_short 0 true 100) 0) by reflexivity.
  assert (H6 : clock (env_short 0 true 100) 0
               <= clock (env_short 10000 true 110) 0) by discriminate.
  repeat (split; [assumption|]).
  destruct (pause_resume_elapsed player_loaded 0 "a.mp3"%string
              (env_short 0 true 100) (env_short 10000 true 110)
              (env_short 10000 true 120) H1 H2 H3 H4 H5 H6)
    as (_ & (Hp & _) & (Ho & _)).
  split; [exact Hp | exact Ho].
Defined.

(** C2.  The elapsed seconds a poll tick reports: the offset when not
    playing; the offset plus the telemetry (milliseconds, as seconds) when
    playing with a start time and a non-negative telemetry; the offset plus
    wall-clock time since the start when playing with a start time and no
    telemetry (the device raised or answered a negative number); and the
    offset when playing without a start time. *)
Theorem tick_elapsed_value (e : Env) (s : MusicPlayer) :
  (playing s = false -> tick_reports e s (_track_offset_seconds s)) /\
  (forall t0 ms,
      playing s = true -> _track_start_time s = Some t0 ->
      music_get_pos e = Ok ms -> (0 <= ms)%Z ->
      tick_reports e s (_track_offset_seconds s + inject_Z ms / 1000)) /\
  (forall t0,
      playing s = true -> _track_start_time s = Some t0 ->
      (exists x, music_get_pos e = Raise x) \/
      (exists ms, music_get_pos e = Ok ms /\ (ms < 0)%Z) ->
      tick_reports e s (_track_offset_seconds s + (clock e 0 - t0))) /\
  (playing s = true -> _track_start_time s = None ->
   tick_reports e s (_track_offset_seconds s)) /\
  (forall c c', tick_reports e s c -> tick_reports e s c' -> c = c').
Proof.
  repeat split.
  - intros Hp. apply tick_reports_elapsed. unfold spec_elapsed.
    rewrite Hp. reflexivity.
  - intros t0 ms Hp Hs Hg Hms. apply tick_reports_elapsed.
    unfold spec_elapsed, telemetry. rewrite Hp, Hs, Hg.
    destruct (Z.geb_spec ms 0); [reflexivity | lia].
  - intros t0 Hp Hs Hg. apply tick_reports_elapsed.
    unfold spec_elapsed, telemetry. rewrite Hp, Hs.
    destruct Hg as [[x ->] | (ms & -> & Hms)]; [reflexivity|].
    destruct (Z.geb_spec ms 0); [lia | reflexivity].
  - intros Hp Hs. apply tick_reports_elapsed. unfold spec_elapsed.
    rewrite Hp, Hs. reflexivity.
  - intros c c' H H'. apply tick_reports_elapsed in H, H'. congruence.
Qed.

(** The four cases of C2 on sample objects. *)
Lemma tick_elapsed_value_witness :
  tick_reports (env_ok 0 100) player_loaded 0 /\
  tick_reports (env_ok 5000 105) player_playing (0 + inject_Z 5000 / 1000) /\
  tick_reports (env_short (-1) false 122) player_playing (0 + (122 - 100)) /\
  tick_reports (env_ok 5000 105)
    (mkPlayer three_tracks 0 true 0.85 None 3) 3.
Proof.
  split; [|split; [|split]].
  - apply (proj1 (tick_elapsed_value (env_ok 0 100) player_loaded)).
    reflexivity.
  - apply (proj1 (proj2 (tick_elapsed_value (env_ok 5000 105) player_playing))
             100 5000%Z); [reflexivity | reflexivity | reflexivity | lia].
  - apply (proj1 (proj2 (proj2
             (tick_elapsed_value (env_short (-1) false 122) player_playing)))
             100); [reflexivity | reflexivity |].
    right. exists (-1)%Z. split; [reflexivity | lia].
  - apply (proj1 (proj2 (proj2 (proj2
             (tick_elapsed_value (env_ok 5000 105)
                (mkPlayer three_tracks 0 true 0.85 None 3))))));
      reflexivity.
Defined.



(** C4.  [seek(seconds)] with a track selected whose file exists.  The
    value [c] it works with is [seconds] clamped into [[0, duration]] when
    the duration is positive, and only raised to 0 otherwise; so [-5] on a
    200 s track gives 0 and [500] gives 200.  When the device takes the
    track at [c], the offset becomes [c], the start time the clock reading,
    [playing] true, and the next tick reports [c] plus what has elapsed
    since. *)
Theorem seek_clamps (seconds : Q) (e : Env) (s : MusicPlayer) (p : string) :
  (0 <= current_index s < len (playlist s))%Z ->
  nth_error (playlist s) (Z.to_nat (current_index s)) = Some p ->
  is_file e p = true ->
  let d := get_duration e p in
  exists c,
    (0 < d -> c == Qmax 0 (Qmin seconds d) /\ 0 <= c <= d) /\
    (d <= 0 -> c == Qmax 0 seconds /\ 0 <= c) /\
    (d == 200 -> seconds == -5 -> c == 0) /\
    (d == 200 -> seconds == 500 -> c == 200) /\
    (device_accepts e p c = true ->
     run (seek seconds) e s =
       (Ok tt,
        mkMachine
          (mkPlayer (playlist s) (current_index s) true (volume s)
                    (Some (clock e 0)) c)
          [track_changed p; state_changed] 1) /\
     forall e' cur,
       tick_reports e' (after (seek seconds) e s) cur ->
       cur = c + match telemetry e' with
                 | Some ms => inject_Z ms / 1000
                 | None => clock e' 0 - clock e 0
                 end).
Proof.
  intros Hr Hn Hf d. exists (clamp_seek seconds d).
  pose proof (clamp_seek_spec seconds d) as Hc.
  assert (Hsel : selected s = Some p).
  { unfold selected. destruct (Z.leb_spec 0 (current_index s)); [|lia].
    destruct (Z.ltb_spec (current_index s) (len (playlist s))); [|lia].
    exact Hn. }
  split; [|split; [|split; [|split]]].
  - intros Hd. apply Qltb_lt in Hd as Hb. rewrite Hb in Hc.
    split; [exact Hc|]. rewrite Hc.
    pose proof (Q.le_max_l 0 (Qmin seconds d)).
    pose proof (Q.le_min_r seconds d).
    split; [assumption|]. apply Q.max_lub; [lra | assumption].
  - intros Hd. apply Qltb_ge in Hd as Hb. rewrite Hb in Hc.
    split; [exact Hc|]. rewrite Hc. apply Q.le_max_l.
  - intros Hd Hs. assert (Hb : Qltb 0 d = true) by (apply Qltb_lt; lra).
    rewrite Hb in Hc. rewrite Hc, Hd, Hs. reflexivity.
  - intros Hd Hs. assert (Hb : Qltb 0 d = true) by (apply Qltb_lt; lra).
    rewrite Hb in Hc. rewrite Hc, Hd, Hs. reflexivity.
  - intros Hacc.
    assert (Hrun : run (seek seconds) e s =
       (Ok tt,
        mkMachine
          (mkPlayer (playlist s) (current_index s) true (volume s)
                    (Some (clock e 0)) (clamp_seek seconds d))
          [track_changed p; state_changed] 1)).
    { rewrite seek_run, Hsel, Hf. fold d. rewrite Hacc. reflexivity. }
    split; [exact Hrun|].
    intros e' cur Hrep. apply tick_reports_elapsed in Hrep.
    unfold after in Hrep. rewrite Hrun in Hrep. rewrite Hrep.
    unfold spec_elapsed. cbn. destruct (telemetry e'); reflexivity.
Qed.

(** C4 on a 200 s track: [seek(-5)] lands on 0 and [seek(500)] on 200. *)
Lemma seek_clamps_witness :
  (0 <= current_index player_loaded < len (playlist player_loaded))%Z /\
  nth_error (playlist player_loaded) (Z.to_nat (current_index player_loaded))
    = Some "a.mp3"%string /\
  is_file (env_ok 0 100) "a.mp3"%string = true /\
  _track_offset_seconds (after (seek (-5)) (env_ok 0 100) player_loaded) == 0 /\
  _track_offset_seconds (after (seek 500) (env_ok 0 100) player_loaded) == 200.
Proof.
  assert (H1 : (0 <= current_index player_loaded
                < len (playlist player_loaded))%Z) by (cbn; lia).
  assert (H2 : nth_error (playlist player_loaded)
                 (Z.to_nat (current_index player_loaded))
               = Some "a.mp3"%string) by reflexivity.
  assert (H3 : is_file (env_ok 0 100) "a.mp3"%string = true) by reflexivity.
  repeat (split; [assumption|]).
  split.
  - destruct (seek_clamps (-5) (env_ok 0 100) player_loaded "a.mp3"%string
                H1 H2 H3) as (c & _ & _ & Hlow & _ & Hrun).
    destruct (Hrun eq_refl) as [Hr _]. unfold after. rewrite Hr.
    apply Hlow; reflexivity.
  - destruct (seek_clamps 500 (env_ok 0 100) player_loaded "a.mp3"%string
                H1 H2 H3) as (c & _ & _ & _ & Hhigh & Hrun).
    destruct (Hrun eq_refl) as [Hr _]. unfold after. rewrite Hr.
    apply Hhigh; reflexivity.
Defined.

(** C5.  On a non-empty playlist of length [n], [next] moves the selection
    to [(index + 1) mod n] and [prev] to [(index - 1 + n) mod n], both to
    [0] when nothing was selected, and each then calls [play_index] on the
    new selection, which starts the track at offset 0 when its file is there
    and the device takes it.  With three entries, [next] at 2 gives 0 and
    [prev] at 0 gives 2. *)
Theorem next_prev_wraparound (e : Env) (s : MusicPlayer) :
  playlist s <> [] ->
  let n := len (playlist s) in
  let i := current_index s in
  let inext := (if i =? -1 then 0 else (i + 1) mod n)%Z in
  let iprev := (if i =? -1 then 0 else (i - 1 + n) mod n)%Z in
  (current_index (after next e s) = inext /\
   run next e s = play_index inext e (mkMachine (with_index s inext) [] 0)) /\
  (current_index (after prev e s) = iprev /\
   run prev e s = play_index iprev e (mkMachine (with_index s iprev) [] 0)) /\
  (forall p,
      nth_error (playlist s) (Z.to_nat inext) = Some p ->
      is_file e p = true -> device_accepts e p 0 = true ->
      run next e s =
        (Ok tt,
         mkMachine
           (mkPlayer (playlist s) inext true (volume s) (Some (clock e 0)) 0)
           [track_changed p; state_changed] 1)) /\
  (forall p,
      nth_error (playlist s) (Z.to_nat iprev) = Some p ->
      is_file e p = true -> device_accepts e p 0 = true ->
      run prev e s =
        (Ok tt,
         mkMachine
           (mkPlayer (playlist s) iprev true (volume s) (Some (clock e 0)) 0)
           [track_changed p; state_changed] 1)) /\
  (n = 3%Z -> i = 2%Z -> current_index (after next e s) = 0%Z) /\
  (n = 3%Z -> i = 0%Z -> current_index (after prev e s) = 2%Z).
Proof.
  intros Hne n i inext iprev.
  apply is_empty_false in Hne.
  assert (Hn : run next e s =
               play_index inext e (mkMachine (with_index s inext) [] 0)).
  { unfold run. rewrite next_run. red_self. rewrite Hne. reflexivity. }
  assert (Hp : run prev e s =
               play_index iprev e (mkMachine (with_index s iprev) [] 0)).
  { unfold run. rewrite prev_run. red_self. rewrite Hne. reflexivity. }
  assert (Hin : current_index (after next e s) = inext).
  { destruct (next_selection e (mkMachine s [] 0) Hne) as [_ H]. exact H. }
  assert (Hip : current_index (after prev e s) = iprev).
  { destruct (prev_selection e (mkMachine s [] 0) Hne) as [_ H]. exact H. }
  pose proof (next_index_range s Hne) as Rn.
  pose proof (prev_index_range s Hne) as Rp.
  repeat split; try assumption.
  - intros p Hnth Hf Hd. rewrite Hn.
    apply (play_index_fresh inext p e (with_index s inext));
      [apply Rn | exact Hnth | exact Hf | exact Hd].
  - intros p Hnth Hf Hd. rewrite Hp.
    apply (play_index_fresh iprev p e (with_index s iprev));
      [apply Rp | exact Hnth | exact Hf | exact Hd].
  - intros H3 H2. rewrite Hin. subst inext. fold n i in H3, H2.
    rewrite H3, H2. reflexivity.
  - intros H3 H0. rewrite Hip. subst iprev. fold n i in H3, H0.
    rewrite H3, H0. reflexivity.
Qed.

(** C5 on three tracks: [next] from the last one starts the first, [prev]
    from the first one selects the last. *)
Lemma next_prev_wraparound_witness :
  playlist player_last <> [] /\
  playlist player_loaded <> [] /\
  after next (env_ok 0 100) player_last =
    mkPlayer three_tracks 0 true 0.85 (Some 100) 0 /\
  current_index (after prev (env_ok 0 100) player_loaded) = 2%Z.
Proof.
  assert (H1 : playlist player_last <> []) by discriminate.
  assert (H2 : playlist player_loaded <> []) by discriminate.
  split; [exact H1|]. split; [exact H2|]. split.
  - destruct (next_prev_wraparound (env_ok 0 100) player_last H1)
      as (_ & _ & Hfresh & _).
    unfold after.
    rewrite (Hfresh "a.mp3"%string eq_refl eq_refl eq_refl). reflexivity.
  - destruct (next_prev_wraparound (env_ok 0 100) player_loaded H2)
      as (_ & _ & _ & _ & _ & Hprev).
    apply Hprev; reflexivity.
Defined.




(** C7, as stated, fails: on the fresh object, after [load_playlist([])],
    [toggle] with a working device sets [playing] and the start time. *)
Lemma toggle_on_empty_playlist_changes_state :
  let s0 := after (load_playlist []) (env_ok 0 100) MusicPlayer_init in
  current_index s0 = (-1)%Z /\
  playing s0 = false /\
  playing (after toggle (env_ok 0 100) s0) = true /\
  after toggle (env_ok 0 100) s0 <> s0.
Proof.
  cbv zeta. repeat split. intros H. discriminate H.
Qed.

(** C7, amended.  After [load_playlist([])] nothing is selected and the
    playlist is empty.  From there [play_index], [next], [prev] and [seek]
    change no field and emit nothing, and whatever operations follow, as
    long as none of them is [load_playlist], the playlist stays empty and
    nothing is selected.  ([toggle] and [stop] still write [playing], the
    start time and the offset.) *)
Theorem empty_playlist_idle (e : Env) (s : MusicPlayer) :
  let s0 := after (load_playlist []) e s in
  idle s0 /\
  (forall e' o,
      (exists idx, o = OpPlayIndex idx) \/ o = OpNext \/ o = OpPrev \/
      (exists seconds, o = OpSeek seconds) ->
      run (perform o) e' s0 = (Ok tt, mkMachine s0 [] 0)) /\
  (forall ops,
      forallb (fun oe => negb (is_load (fst oe))) ops = true ->
      idle (perform_all ops s0)).
Proof.
  cbv zeta.
  assert (H0 : idle (after (load_playlist []) e s)) by (split; reflexivity).
  split; [exact H0|]. split.
  - intros e' o Ho.
    set (s0 := after (load_playlist []) e s) in *.
    pose proof (is_empty_nil s0 H0) as He.
    destruct Ho as [[idx ->] | [-> | [-> | [seconds ->]]]]; cbn [perform].
    + unfold run. rewrite play_index_run. unfold playable. red_self.
      destruct (Z.leb_spec 0 idx), (Z.ltb_spec idx (len (playlist s0)));
        cbn [andb]; try reflexivity.
      destruct H0 as [Hpl _]. rewrite Hpl in *. cbn in *. lia.
    + unfold run. rewrite next_run. red_self. rewrite He. reflexivity.
    + unfold run. rewrite prev_run. red_self. rewrite He. reflexivity.
    + rewrite seek_run, (idle_selected s0 H0). reflexivity.
  - intros ops. generalize (after (load_playlist []) e s) H0.
    induction ops as [|[o e'] ops IH]; intros s0 Hs0 Hall; [exact Hs0|].
    cbn [forallb fst] in Hall. apply andb_true_iff in Hall as [Hl Hall].
    apply negb_true_iff in Hl. cbn [perform_all].
    apply IH; [apply idle_step; assumption | exact Hall].
Qed.

(** The amended C7 after emptying the playlist of a playing engine. *)
Lemma empty_playlist_idle_witness :
  run next (env_ok 0 100)
      (after (load_playlist []) (env_ok 0 100) player_playing)
    = (Ok tt,
       mkMachine (after (load_playlist []) (env_ok 0 100) player_playing)
                 [] 0%nat) /\
  idle (perform_all [(OpToggle, env_ok 0 100); (OpStop, env_ok 0 101);
                     (OpPlayPath "z.mp3"%string, env_ok 0 102)]
          (after (load_playlist []) (env_ok 0 100) player_playing)).
Proof.
  destruct (empty_playlist_idle (env_ok 0 100) player_playing)
    as (_ & Hnoop & Hidle).
  split.
  - apply (Hnoop (env_ok 0 100) OpNext). right. left. reflexivity.
  - apply Hidle. reflexivity.
Defined.

(** C8.  [load_playlist paths] makes the playlist the sublist of [paths]
    whose files exist, in the order of [paths] and with its repetitions,
    selects position 0 when that playlist is not empty and nothing ([-1])
    when it is, and touches neither [playing] nor the offset, the start time
    or the volume; it emits no signal and does not raise. *)
Theorem load_playlist_filters (paths : list string) (e : Env)
        (s : MusicPlayer) :
  let s' := after (load_playlist paths) e s in
  playlist s' = filter (is_file e) paths /\
  (forall p, In p (playlist s') <-> In p paths /\ is_file e p = true) /\
  (forall p, count_occ string_dec (playlist s') p =
             if is_file e p then count_occ string_dec paths p else 0%nat) /\
  current_index s' = match playlist s' with [] => (-1)%Z | _ :: _ => 0%Z end /\
  playing s' = playing s /\
  _track_offset_seconds s' = _track_offset_seconds s /\
  _track_start_time s' = _track_start_time s /\
  volume s' = volume s /\
  signals (load_playlist paths) e s = [] /\
  outcome (load_playlist paths) e s = Ok tt.
Proof.
  cbv zeta. unfold after, signals, outcome. rewrite load_playlist_run.
  cbn [fst snd self emitted playlist current_index playing volume
       _track_start_time _track_offset_seconds].
  split; [reflexivity|]. split; [|split].
  - intros p. rewrite filter_In. reflexivity.
  - intros p. induction paths as [|q paths IH]; cbn [filter count_occ].
    + destruct (is_file e p); reflexivity.
    + destruct (is_file e q) eqn:Eq; cbn [count_occ];
        destruct (string_dec q p) as [->|Hne]; rewrite IH; try reflexivity;
        rewrite Eq; reflexivity.
  - repeat split. destruct (filter (is_file e) paths); reflexivity.
Qed.

(** C8 on three existing files loaded into the fresh object. *)
Lemma load_playlist_filters_witness :
  In "b.mp3"%string
     (playlist (after (load_playlist three_tracks) (env_ok 0 100)
                  MusicPlayer_init)) /\
  current_index (after (load_playlist three_tracks) (env_ok 0 100)
                   MusicPlayer_init) = 0%Z.
Proof.
  destruct (load_playlist_filters three_tracks (env_ok 0 100) MusicPlayer_init)
    as (_ & Hin & _ & Hidx & _).
  split.
  - apply Hin. split; [right; left; reflexivity | reflexivity].
  - exact Hidx.
Defined.

(** C9.  [play_path p] does nothing when [p] is not a file.  When [p] is a
    file of the playlist it is [play_index] at the first position of [p];
    when [p] is a file outside the playlist, the selection becomes [-1] and
    [p] is started at offset 0. *)
Theorem play_path_cases (p : string) (e : Env) (s : MusicPlayer) :
  (is_file e p = false ->
   run (play_path p) e s = (Ok tt, mkMachine s [] 0)) /\
  (is_file e p = true -> In p (playlist s) ->
   exists i,
     (0 <= i)%Z /\
     nth_error (playlist s) (Z.to_nat i) = Some p /\
     (forall j, (0 <= j < i)%Z ->
                nth_error (playlist s) (Z.to_nat j) <> Some p) /\
     run (play_path p) e s = run (play_index i) e s) /\
  (is_file e p = true -> ~ In p (playlist s) ->
   run (play_path p) e s =
     run (set_current_index (-1) ;; _play_internal p 0) e s /\
   (device_accepts e p 0 = true ->
    run (play_path p) e s =
      (Ok tt,
       mkMachine
         (mkPlayer (playlist s) (-1) true (volume s) (Some (clock e 0)) 0)
         [track_changed p; state_changed] 1))).
Proof.
  unfold run. rewrite play_path_run. red_self. split; [|split].
  - intros ->. reflexivity.
  - intros -> Hin. apply contains_In in Hin as Hc. rewrite Hc.
    destruct (index_first p (playlist s) Hc) as (i & -> & H0 & Hn & Hfirst).
    exists i. repeat split; assumption.
  - intros -> Hn.
    destruct (contains p (playlist s)) eqn:Hc;
      [apply contains_In in Hc; contradiction|].
    split; [reflexivity|].
    intros Hd. rewrite _play_internal_run, Hd. reflexivity.
Qed.

(** The three cases of C9 on three tracks. *)
Lemma play_path_cases_witness :
  is_file (env_nofile 100) "b.mp3"%string = false /\
  is_file (env_ok 0 100) "b.mp3"%string = true /\
  In "b.mp3"%string (playlist player_loaded) /\
  ~ In "z.mp3"%string (playlist player_loaded) /\
  run (play_path "b.mp3"%string) (env_nofile 100) player_loaded
    = (Ok tt, mkMachine player_loaded [] 0%nat) /\
  (exists i, run (play_path "b.mp3"%string) (env_ok 0 100) player_loaded
             = run (play_index i) (env_ok 0 100) player_loaded) /\
  run (play_path "z.mp3"%string) (env_ok 0 100) player_loaded =
    (Ok tt,
     mkMachine (mkPlayer three_tracks (-1) true 0.85 (Some 100) 0)
               [track_changed "z.mp3"%string; state_changed] 1%nat).
Proof.
  assert (H0 : is_file (env_nofile 100) "b.mp3"%string = false)
    by reflexivity.
  assert (H1 : is_file (env_ok 0 100) "b.mp3"%string = true) by reflexivity.
  assert (H2 : In "b.mp3"%string (playlist player_loaded))
    by (right; left; reflexivity).
  assert (H3 : ~ In "z.mp3"%string (playlist player_loaded)).
  { intros [H|[H|[H|[]]]]; discriminate H. }
  repeat (split; [assumption|]). split; [|split].
  - exact (proj1 (play_path_cases "b.mp3"%string (env_nofile 100)
                    player_loaded) H0).
  - destruct (proj1 (proj2 (play_path_cases "b.mp3"%string (env_ok 0 100)
                              player_loaded)) H1 H2)
      as (i & _ & _ & _ & Hrun).
    exists i. exact Hrun.
  - destruct (proj2 (proj2 (play_path_cases "z.mp3"%string (env_ok 0 100)
                              player_loaded)) eq_refl H3) as [_ Hrun].
    apply Hrun. reflexivity.
Defined.

(** C10.  The selection invariant: [current_index] is [-1] or a position of
    the playlist.  It holds when the object is built, every operation of the
    engine keeps it, and [current_track] returns the entry under
    [current_index] exactly when [current_index] is a position of the
    playlist, and [None] otherwise. *)
Theorem selection_invariant (o : Op) (e : Env) (s : MusicPlayer) :
  index_ok MusicPlayer_init /\
  (index_ok s -> index_ok (after (perform o) e s)) /\
  ((0 <= current_index s < len (playlist s))%Z ->
   exists p, nth_error (playlist s) (Z.to_nat (current_index s)) = Some p /\
             run current_track e s = (Ok (Some p), mkMachine s [] 0)) /\
  (~ (0 <= current_index s < len (playlist s))%Z ->
   run current_track e s = (Ok None, mkMachine s [] 0)).
Proof.
  split; [left; reflexivity|]. split; [|split].
  - intros H. destruct o; cbn [perform].
    + unfold after. rewrite load_playlist_run. cbn.
      destruct (is_empty (filter (is_file e) paths)) eqn:E;
        [left; reflexivity | right]. cbn.
      apply len_nonempty in E. lia.
    + apply (play_index_ok idx e (mkMachine s [] 0)), H.
    + apply (play_path_ok path e (mkMachine s [] 0)), H.
    + apply toggle_ok, H.
    + unfold after. rewrite stop_run. exact H.
    + apply (next_ok e (mkMachine s [] 0)), H.
    + apply (prev_ok e (mkMachine s [] 0)), H.
    + apply (same_selection_ok s); [apply seek_selection | exact H].
    + unfold after. rewrite set_volume_run. exact H.
    + apply _tick_ok, H.
  - intros Hr. destruct (nth_in_range _ _ Hr) as [p Hp]. exists p.
    split; [exact Hp|].
    unfold run, current_track, bind at 1, get at 1. red_self.
    destruct (Z.eqb_spec (current_index s) (-1)); [lia|].
    unfold bind at 1, get at 1. red_self.
    destruct (Z.leb_spec 0 (current_index s)); [|lia].
    destruct (Z.ltb_spec (current_index s) (len (playlist s))); [|lia].
    cbn [andb]. unfold bind, lift.
    rewrite (getitem_nth _ (current_index s) p ltac:(lia) Hp). reflexivity.
  - intros Hr.
    unfold run, current_track, bind at 1, get at 1. red_self.
    destruct (Z.eqb_spec (current_index s) (-1)); [reflexivity|].
    unfold bind at 1, get at 1. red_self.
    destruct (Z.leb_spec 0 (current_index s)),
      (Z.ltb_spec (current_index s) (len (playlist s)));
      try lia; reflexivity.
Qed.

(** C10 on [next] from the last of three tracks, and [current_track] on
    that object and on the fresh one. *)
Lemma selection_invariant_witness :
  index_ok player_last /\
  index_ok (after (perform OpNext) (env_ok 0 100) player_last) /\
  run current_track (env_ok 0 100) player_last
    = (Ok (Some "c.mp3"%string), mkMachine player_last [] 0%nat) /\
  run current_track (env_ok 0 100) MusicPlayer_init
    = (Ok None, mkMachine MusicPlayer_init [] 0%nat).
Proof.
  assert (H1 : index_ok player_last) by (right; cbn; lia).
  split; [exact H1|].
  destruct (selection_invariant OpNext (env_ok 0 100) player_last)
    as (_ & Hinv & Hsome & _).
  destruct (selection_invariant OpNext (env_ok 0 100) MusicPlayer_init)
    as (_ & _ & _ & Hnone).
  split; [exact (Hinv H1)|]. split.
  - destruct Hsome as (p & Hp & Hrun); [cbn; lia|].
    rewrite Hrun. cbn in Hp. injection Hp as <-. reflexivity.
  - apply Hnone. cbn. lia.
Defined.

(** ** Further properties of the engine *)

(** What [play_index] can make of the object: nothing, the new selection
    alone (the device refused), or the new selection started at offset 0. *)
Lemma play_index_shape (idx : Z) (e : Env) (m : Machine) :
  let s' := self (snd (play_index idx e m)) in
  s' = self m \/ s' = with_index (self m) idx \/
  exists now, s' = started (with_index (self m) idx) 0 now.
Proof.
  rewrite play_index_run. destruct (playable e (self m) idx) as [p|];
    [|left; reflexivity].
  rewrite _play_internal_run.
  destruct (device_accepts e p 0); cbn; [right; right; eauto | right; left].
  reflexivity.
Qed.

Lemma next_shape (e : Env) (m : Machine) :
  let s' := self (snd (next e m)) in
  s' = self m \/ s' = with_index (self m) (next_index (self m)) \/
  exists now, s' = started (with_index (self m) (next_index (self m))) 0 now.
Proof.
  rewrite next_run. destruct (is_empty (playlist (self m)));
    [left; reflexivity|].
  destruct (play_index_shape (next_index (self m)) e
              (on_self (fun s => with_index s (next_index s)) m))
    as [H | [H | [now H]]]; cbv zeta in H; rewrite H; cbn;
    [right; left | right; left | right; right; exists now]; reflexivity.
Qed.

Lemma prev_shape (e : Env) (m : Machine) :
  let s' := self (snd (prev e m)) in
  s' = self m \/ s' = with_index (self m) (prev_index (self m)) \/
  exists now, s' = started (with_index (self m) (prev_index (self m))) 0 now.
Proof.
  rewrite prev_run. destruct (is_empty (playlist (self m)));
    [left; reflexivity|].
  destruct (play_index_shape (prev_index (self m)) e
              (on_self (fun s => with_index s (prev_index s)) m))
    as [H | [H | [now H]]]; cbv zeta in H; rewrite H; cbn;
    [right; left | right; left | right; right; exists now]; reflexivity.
Qed.

(** What [toggle] can make of the object. *)
Lemma toggle_shape (e : Env) (s : MusicPlayer) :
  let s' := after toggle e s in
  (exists off, s' = mkPlayer (playlist s) (current_index s) false (volume s)
                       (_track_start_time s) off) \/
  s' = s \/
  (exists i, s' = with_index s i) \/
  (exists i off now, s' = started (with_index s i) off now).
Proof.
  cbv zeta. unfold after. destruct (playing s) eqn:Hp.
  - destruct (toggle_pause_frame e s Hp) as (off & r & ->). left.
    exists off. reflexivity.
  - right. rewrite (toggle_resume_run e s Hp).
    destruct (music_unpause e) as [[]|x].
    + right. right. exists (current_index s), (_track_offset_seconds s),
        (clock e 0). destruct s. reflexivity.
    + destruct (is_empty (playlist s)); [left; reflexivity|].
      destruct (current_index s =? -1)%Z.
      * destruct (play_index_shape 0%Z e (mkMachine s [] 0))
          as [H | [H | [now H]]]; cbv zeta in H; rewrite H; cbn;
          [left; reflexivity | right; left; eauto | right; right].
        exists 0%Z, 0, now. reflexivity.
      * unfold bind, lift.
        destruct (getitem (playlist s) (current_index s)) as [p|y];
          [|left; reflexivity].
        rewrite _play_internal_run.
        destruct (device_accepts e p (_track_offset_seconds s));
          [|left; reflexivity].
        right. right. exists (current_index s), (_track_offset_seconds s),
          (clock e 0). destruct s. reflexivity.
Qed.

Lemma seek_shape (seconds : Q) (e : Env) (s : MusicPlayer) :
  let s' := after (seek seconds) e s in
  s' = s \/ exists off now, s' = started s off now.
Proof.
  cbv zeta. unfold after. rewrite seek_run. cbn [snd].
  destruct (selected s) as [p|]; [|left; reflexivity].
  destruct (is_file e p && device_accepts e p _); [|left; reflexivity].
  right. do 2 eexists. reflexivity.
Qed.

Lemma _tick_shape (e : Env) (s : MusicPlayer) :
  let s' := after _tick e s in
  s' = s \/ s' = with_playing s false \/
  (exists i, s' = with_index (with_playing s false) i) \/
  (exists i now, s' = started (with_index (with_playing s false) i) 0 now).
Proof.
  cbv zeta. unfold after. destruct (_tick_run e s) as [r ->].
  destruct (playing s); [|left; reflexivity].
  destruct (music_get_busy e) as [[]|x]; try (left; reflexivity).
  destruct (track_ended _ _); [|left; reflexivity].
  match goal with |- context [next e ?m] =>
    destruct (next_shape e m) as [H | [H | [now H]]] end;
    cbv zeta in H; rewrite H; cbn [self];
    [right; left; reflexivity | right; right; left; eexists; reflexivity
    | right; right; right].
  do 2 eexists. reflexivity.
Qed.

Lemma play_path_shape (path : string) (e : Env) (s : MusicPlayer) :
  let s' := after (play_path path) e s in
  s' = s \/ (exists i, s' = with_index s i) \/
  exists i now, s' = started (with_index s i) 0 now.
Proof.
  cbv zeta. unfold after, run. rewrite play_path_run.
  change (self (mkMachine s [] 0)) with s.
  destruct (is_file e path); [|left; reflexivity].
  destruct (contains path (playlist s)).
  - destruct (index path (playlist s)) as [i|x]; [|left; reflexivity].
    destruct (play_index_shape i e (mkMachine s [] 0)) as [H | [H | [now H]]];
      cbv zeta in H; rewrite H; cbn [self];
      [left; reflexivity | right; left; eexists; reflexivity | right; right].
    do 2 eexists. reflexivity.
  - rewrite _play_internal_run.
    destruct (device_accepts e path 0); cbn;
      [right; right; do 2 eexists | right; left; eexists]; reflexivity.
Qed.

Lemma clamp_unit (vol : Q) :
  let v := py_max 0 (py_min 1 vol) in
  0 <= v <= 1 /\
  (0 <= vol <= 1 -> v == vol) /\ (vol < 0 -> v == 0) /\ (1 < vol -> v == 1).
Proof.
  cbv zeta. unfold py_max, py_min.
  destruct (Qltb vol 1) eqn:E1;
    [apply Qltb_lt in E1 | apply Qltb_ge in E1];
    (destruct (Qltb 0 _) eqn:E2;
     [apply Qltb_lt in E2 | apply Qltb_ge in E2]);
    repeat split; intros; lra.
Qed.

(** The volume after one operation. *)
Lemma volume_step (o : Op) (e : Env) (s : MusicPlayer) :
  volume (after (perform o) e s) =
    match o with
    | OpSetVolume vol => py_max 0 (py_min 1 vol)
    | _ => volume s
    end.
Proof.
  destruct o; cbn [perform].
  - unfold after. rewrite load_playlist_run. reflexivity.
  - destruct (play_index_shape idx e (mkMachine s [] 0)) as [H | [H | [n H]]];
      unfold after, run; cbv zeta in H; rewrite H; reflexivity.
  - destruct (play_path_shape path e s) as [H | [[i H] | (i & n & H)]];
      cbv zeta in H; rewrite H; reflexivity.
  - destruct (toggle_shape e s)
      as [[off H] | [H | [[i H] | (i & off & n & H)]]];
      cbv zeta in H; rewrite H; reflexivity.
  - unfold after. rewrite stop_run. reflexivity.
  - destruct (next_shape e (mkMachine s [] 0)) as [H | [H | [n H]]];
      unfold after, run; cbv zeta in H; rewrite H; reflexivity.
  - destruct (prev_shape e (mkMachine s [] 0)) as [H | [H | [n H]]];
      unfold after, run; cbv zeta in H; rewrite H; reflexivity.
  - destruct (seek_shape seconds e s) as [H | (off & n & H)];
      cbv zeta in H; rewrite H; reflexivity.
  - unfold after. rewrite set_volume_run. reflexivity.
  - destruct (_tick_shape e s) as [H | [H | [[i H] | (i & n & H)]]];
      cbv zeta in H; rewrite H; reflexivity.
Qed.

Lemma start_recorded_step (o : Op) (e : Env) (s : MusicPlayer) :
  start_recorded s -> start_recorded (after (perform o) e s).
Proof.
  unfold start_recorded. intros Hs. destruct o; cbn [perform].
  - unfold after. rewrite load_playlist_run. exact Hs.
  - destruct (play_index_shape idx e (mkMachine s [] 0)) as [H | [H | [n H]]];
      unfold after, run; cbv zeta in H; rewrite H; cbn; try exact Hs.
    discriminate.
  - destruct (play_path_shape path e s) as [H | [[i H] | (i & n & H)]];
      cbv zeta in H; rewrite H; cbn; try exact Hs. discriminate.
  - destruct (toggle_shape e s)
      as [[off H] | [H | [[i H] | (i & off & n & H)]]];
      cbv zeta in H; rewrite H; cbn; try exact Hs; discriminate.
  - unfold after. rewrite stop_run. cbn. discriminate.
  - destruct (next_shape e (mkMachine s [] 0)) as [H | [H | [n H]]];
      unfold after, run; cbv zeta in H; rewrite H; cbn; try exact Hs.
    discriminate.
  - destruct (prev_shape e (mkMachine s [] 0)) as [H | [H | [n H]]];
      unfold after, run; cbv zeta in H; rewrite H; cbn; try exact Hs.
    discriminate.
  - destruct (seek_shape seconds e s) as [H | (off & n & H)];
      cbv zeta in H; rewrite H; cbn; try exact Hs. discriminate.
  - unfold after. rewrite set_volume_run. exact Hs.
  - destruct (_tick_shape e s) as [H | [H | [[i H] | (i & n & H)]]];
      cbv zeta in H; rewrite H; cbn; try exact Hs; discriminate.
Qed.

Lemma index_ok_step (o : Op) (e : Env) (s : MusicPlayer) :
  index_ok s -> index_ok (after (perform o) e s).
Proof.
  intros H. destruct o; cbn [perform].
  - unfold after. rewrite load_playlist_run. cbn.
    destruct (is_empty (filter (is_file e) paths)) eqn:E;
      [left; reflexivity | right]. cbn.
    apply len_nonempty in E. lia.
  - apply (play_index_ok idx e (mkMachine s [] 0)), H.
  - apply (play_path_ok path e (mkMachine s [] 0)), H.
  - apply toggle_ok, H.
  - unfold after. rewrite stop_run. exact H.
  - apply (next_ok e (mkMachine s [] 0)), H.
  - apply (prev_ok e (mkMachine s [] 0)), H.
  - apply (same_selection_ok s); [apply seek_selection | exact H].
  - unfold after. rewrite set_volume_run. exact H.
  - apply _tick_ok, H.
Qed.

Lemma perform_all_invariant (P : MusicPlayer -> Prop) :
  (forall o e s, P s -> P (after (perform o) e s)) ->
  forall ops s, P s -> P (perform_all ops s).
Proof.
  intros Hstep ops. induction ops as [|[o e] ops IH]; intros s Hs;
    [exact Hs|].
  cbn [perform_all]. apply IH, Hstep, Hs.
Qed.

Lemma reachable_invariant (P : MusicPlayer -> Prop) :
  P MusicPlayer_init ->
  (forall o e s, P s -> P (after (perform o) e s)) ->
  forall s, reachable s -> P s.
Proof.
  intros H0 Hstep s [ops ->]. apply perform_all_invariant; assumption.
Qed.

Lemma reachable_index_ok (s : MusicPlayer) : reachable s -> index_ok s.
Proof.
  apply (reachable_invariant index_ok).
  - left. reflexivity.
  - apply index_ok_step.
Qed.

(** X1.  [set_volume(vol)] stores [vol] clamped into [[0, 1]] and touches no
    other field; it emits [state_changed] once and returns normally even
    when the mixer call raises. *)
Theorem set_volume_clamps (vol : Q) (e : Env) (s : MusicPlayer) :
  let s' := after (set_volume vol) e s in
  0 <= volume s' <= 1 /\
  (0 <= vol <= 1 -> volume s' == vol) /\
  (vol < 0 -> volume s' == 0) /\
  (1 < vol -> volume s' == 1) /\
  playlist s' = playlist s /\ current_index s' = current_index s /\
  playing s' = playing s /\
  _track_start_time s' = _track_start_time s /\
  _track_offset_seconds s' = _track_offset_seconds s /\
  signals (set_volume vol) e s = [state_changed] /\
  outcome (set_volume vol) e s = Ok tt.
Proof.
  cbv zeta. unfold after, signals, outcome. rewrite set_volume_run.
  cbn [fst snd self emitted playlist current_index playing volume
       _track_start_time _track_offset_seconds].
  destruct (clamp_unit vol) as (H1 & H2 & H3 & H4).
  repeat split; try assumption; try reflexivity; apply H1.
Qed.

(** The volume written by [set_volume(1.7)] is 1, that written by
    [set_volume(-0.2)] is 0 and that written by [set_volume(0.4)] is 0.4,
    with a mixer whose every call raises. *)
Lemma set_volume_clamps_witness :
  volume (after (set_volume 1.7) (env_dead 100) player_playing) == 1 /\
  volume (after (set_volume (-0.2)) (env_dead 100) player_playing) == 0 /\
  volume (after (set_volume 0.4) (env_dead 100) player_playing) == 0.4.
Proof.
  destruct (set_volume_clamps 1.7 (env_dead 100) player_playing)
    as (_ & _ & _ & Hhigh & _).
  destruct (set_volume_clamps (-0.2) (env_dead 100) player_playing)
    as (_ & _ & Hlow & _).
  destruct (set_volume_clamps 0.4 (env_dead 100) player_playing)
    as (_ & Hmid & _).
  split; [|split].
  - apply Hhigh. reflexivity.
  - apply Hlow. reflexivity.
  - apply Hmid. split; discriminate.
Defined.

(** X2.  Only [set_volume] writes the volume, so in every object the engine
    can reach from its construction the volume lies in [[0, 1]]. *)
Theorem volume_stays_in_range (s : MusicPlayer) (o : Op) (e : Env) :
  ((forall vol, o <> OpSetVolume vol) ->
   volume (after (perform o) e s) = volume s) /\
  (reachable s -> 0 <= volume s <= 1).
Proof.
  split.
  - intros Hne. rewrite volume_step. destruct o; try reflexivity.
    exfalso. exact (Hne vol eq_refl).
  - apply (reachable_invariant (fun s => 0 <= volume s <= 1)).
    + cbn. split; discriminate.
    + intros o' e' s' Hs'. rewrite volume_step.
      destruct o'; try exact Hs'. apply clamp_unit.
Qed.

(** After loading, raising the volume beyond 1 and starting a track the
    volume is within range, and starting the track did not move it. *)
Lemma volume_stays_in_range_witness :
  volume (after (perform (OpPlayIndex 1)) (env_ok 0 100) player_loaded)
    = volume player_loaded /\
  0 <= volume (perform_all [(OpLoadPlaylist three_tracks, env_ok 0 100);
                            (OpSetVolume 3, env_ok 0 101);
                            (OpPlayIndex 1, env_ok 0 102)]
                 MusicPlayer_init) <= 1.
Proof.
  split.
  - apply (volume_stays_in_range player_loaded (OpPlayIndex 1) (env_ok 0 100)).
    intros vol H. discriminate H.
  - apply (volume_stays_in_range _ OpStop (env_ok 0 100)).
    eexists. reflexivity.
Defined.

(** X3.  In every object the engine can reach from its construction, a
    start time is recorded whenever [playing] is true and [current_index] is
    -1 or a position of the playlist. *)
Theorem reachable_well_formed (s : MusicPlayer) :
  reachable s ->
  (playing s = true -> exists t0, _track_start_time s = Some t0) /\
  (current_index s = (-1)%Z \/
   (0 <= current_index s < len (playlist s))%Z).
Proof.
  intros Hr. split.
  - intros Hp.
    assert (H : start_recorded s).
    { apply (reachable_invariant start_recorded); try assumption.
      - intros H. discriminate H.
      - apply start_recorded_step. }
    specialize (H Hp). destruct (_track_start_time s) as [t0|];
      [eauto | congruence].
  - exact (reachable_index_ok s Hr).
Qed.

(** The object reached by loading three tracks, starting the second,
    pausing and resuming is playing with a start time. *)
Lemma reachable_well_formed_witness :
  let s := perform_all [(OpLoadPlaylist three_tracks, env_ok 0 100);
                        (OpPlayIndex 1, env_ok 0 101);
                        (OpToggle, env_ok 4000 105);
                        (OpToggle, env_ok 4000 109)] MusicPlayer_init in
  reachable s /\ playing s = true /\
  exists t0, _track_start_time s = Some t0.
Proof.
  cbv zeta.
  assert (Hr : reachable
                 (perform_all [(OpLoadPlaylist three_tracks, env_ok 0 100);
                               (OpPlayIndex 1, env_ok 0 101);
                               (OpToggle, env_ok 4000 105);
                               (OpToggle, env_ok 4000 109)] MusicPlayer_init))
    by (eexists; reflexivity).
  split; [exact Hr|]. split; [reflexivity|].
  apply (reachable_well_formed _ Hr). reflexivity.
Defined.

Lemma next_returns (e : Env) (m : Machine) : fst (next e m) = Ok tt.
Proof.
  rewrite next_run. destruct (is_empty _); [reflexivity|].
  apply play_index_returns.
Qed.

Lemma _tick_outcome (e : Env) (s : MusicPlayer) (x : exn) :
  outcome _tick e s = Raise x <->
  playing s = true /\ music_get_busy e = Raise x.
Proof.
  unfold outcome. destruct (_tick_run e s) as [r ->].
  destruct (playing s).
  - destruct (music_get_busy e) as [[]|y]; cbn [fst].
    + split; [discriminate | intros [_ H]; discriminate H].
    + destruct (track_ended _ _).
      * rewrite next_returns.
        split; [discriminate | intros [_ H]; discriminate H].
      * split; [discriminate | intros [_ H]; discriminate H].
    + split; [intros [= ->]; split; reflexivity | intros [_ [= ->]]].
      reflexivity.
  - split; [discriminate | intros [H _]; discriminate H].
Qed.

(** X4.  What can leave the engine as an exception.  On an object reached
    from the construction, no operation but the timer callback raises,
    whatever the device answers; [_tick] raises exactly when the engine is
    playing and [get_busy] raises, with that same exception, and then it has
    emitted its [position_updated] and changed no field. *)
Theorem only_tick_raises (s : MusicPlayer) (o : Op) (e : Env) (x : exn) :
  reachable s ->
  (outcome (perform o) e s = Raise x <->
   o = OpTick /\ playing s = true /\ music_get_busy e = Raise x) /\
  (outcome _tick e s = Raise x ->
   after _tick e s = s /\
   exists cur total, signals _tick e s = [position_updated cur total]).
Proof.
  intros Hr. pose proof (reachable_index_ok s Hr) as Hok.
  split.
  - destruct (is_transport o) eqn:Ht.
    + rewrite (transport_returns o e s Hok Ht).
      split; [discriminate|]. intros [-> _]. discriminate Ht.
    + destruct o; try discriminate Ht; cbn [perform].
      * unfold outcome. rewrite load_playlist_run.
        split; [discriminate | intros [H _]; discriminate H].
      * unfold outcome. rewrite set_volume_run.
        split; [discriminate | intros [H _]; discriminate H].
      * rewrite _tick_outcome.
        split; [intros H; split; [reflexivity | exact H] | intros [_ H]].
        exact H.
  - intros H. apply _tick_outcome in H as [Hp Hb].
    unfold after, signals. destruct (_tick_run e s) as [r ->].
    rewrite Hp, Hb. split; [reflexivity | do 2 eexists; reflexivity].
Qed.

(** With a mixer whose every call raises, toggling a loaded engine returns
    normally, and a tick on a playing engine raises the mixer's error. *)
Lemma only_tick_raises_witness :
  reachable (perform_all [(OpLoadPlaylist three_tracks, env_ok 0 100);
                          (OpPlayIndex 0, env_ok 0 101)] MusicPlayer_init) /\
  outcome toggle (env_dead 102)
    (perform_all [(OpLoadPlaylist three_tracks, env_ok 0 100);
                  (OpPlayIndex 0, env_ok 0 101)] MusicPlayer_init)
    <> Raise PygameError /\
  outcome _tick (env_dead 102)
    (perform_all [(OpLoadPlaylist three_tracks, env_ok 0 100);
                  (OpPlayIndex 0, env_ok 0 101)] MusicPlayer_init)
    = Raise PygameError.
Proof.
  assert (Hr : reachable
                 (perform_all [(OpLoadPlaylist three_tracks, env_ok 0 100);
                               (OpPlayIndex 0, env_ok 0 101)]
                    MusicPlayer_init)) by (eexists; reflexivity).
  split; [exact Hr|]. split.
  - intros H.
    apply (proj1 (only_tick_raises _ OpToggle (env_dead 102) PygameError Hr))
      in H as [H _].
    discriminate H.
  - apply (proj1 (only_tick_raises _ OpTick (env_dead 102) PygameError Hr)).
    repeat split.
Defined.

Lemma next_index_last (s : MusicPlayer) :
  (0 < len (playlist s))%Z ->
  current_index s = (len (playlist s) - 1)%Z -> next_index s = 0%Z.
Proof.
  intros Hn Hi. unfold next_index. rewrite Hi.
  destruct (Z.eqb_spec (len (playlist s) - 1) (-1)); [reflexivity|].
  replace (len (playlist s) - 1 + 1)%Z with (len (playlist s)) by lia.
  apply Z_mod_same_full.
Qed.

(** X5.  Where auto-advance lands.  Let a tick find the engine playing, the
    device silent and the track ended by the tick's own test, on a non-empty
    playlist.  The selection moves to the next position, wrapping from the
    last one to 0.  If that entry's file exists and the device takes it, it
    is playing from offset 0 and the tick emitted, in this order,
    [position_updated], [state_changed], [track_changed] and
    [state_changed].  If the file is missing the engine is left paused on
    the new selection: the tick does not skip on to a later entry. *)
Theorem auto_advance_lands (e : Env) (s : MusicPlayer) (cur total : Q)
        (rest : list Event) :
  playing s = true ->
  music_get_busy e = Ok false ->
  signals _tick e s = position_updated cur total :: rest ->
  (1 < total /\ total - 0.7 <= cur) \/ total <= 1 ->
  playlist s <> [] ->
  let n := len (playlist s) in
  let i := current_index s in
  let i' := (if i =? -1 then 0 else (i + 1) mod n)%Z in
  current_index (after _tick e s) = i' /\
  (i = (n - 1)%Z -> i' = 0%Z) /\
  (forall p,
      nth_error (playlist s) (Z.to_nat i') = Some p ->
      is_file e p = true -> device_accepts e p 0 = true ->
      (exists r,
          after _tick e s =
            mkPlayer (playlist s) i' true (volume s) (Some (clock e r)) 0) /\
      signals _tick e s =
        [position_updated cur total; state_changed;
         track_changed p; state_changed]) /\
  (forall p,
      nth_error (playlist s) (Z.to_nat i') = Some p ->
      is_file e p = false ->
      after _tick e s =
        mkPlayer (playlist s) i' false (volume s)
                 (_track_start_time s) (_track_offset_seconds s) /\
      signals _tick e s = [position_updated cur total; state_changed]).
Proof.
  intros Hp Hb Hsig Hend Hne n i i'.
  destruct (_tick_reports e s) as [rest' Hrep].
  rewrite Hsig in Hrep. injection Hrep as -> -> _.
  apply track_ended_true in Hend.
  destruct (_tick_run e s) as [r Hrun]. rewrite Hp, Hb, Hend in Hrun.
  apply is_empty_false in Hne as He.
  rewrite next_run in Hrun. cbn [self with_playing playlist] in Hrun.
  rewrite He in Hrun. rewrite play_index_run in Hrun.
  change (next_index (with_playing s false)) with i' in Hrun.
  assert (Hr' : (0 <= i' < n)%Z) by apply (next_index_range s He).
  unfold playable in Hrun.
  cbn [self on_self with_index with_playing playlist] in Hrun.
  fold n in Hrun.
  destruct (Z.leb_spec 0 i'); [|lia]. destruct (Z.ltb_spec i' n); [|lia].
  cbn [andb] in Hrun.
  split; [|split; [|split]].
  - unfold after. rewrite Hrun.
    destruct (nth_error (playlist s) (Z.to_nat i')) as [p|]; [|reflexivity].
    destruct (is_file e p); [|reflexivity].
    rewrite _play_internal_run. destruct (device_accepts e p 0); reflexivity.
  - intros Hi. apply (next_index_last s); [fold n; lia | exact Hi].
  - intros p Hn Hf Hd. unfold after, signals. rewrite Hrun, Hn, Hf.
    rewrite _play_internal_run, Hd. split; [exists r|]; reflexivity.
  - intros p Hn Hf. unfold after, signals. rewrite Hrun, Hn, Hf.
    split; reflexivity.
Qed.

(** On the two-track album, with the last track (90 s) playing: a tick
    that reads 89.5 s from a silent device starts the first track again. *)
Lemma auto_advance_lands_witness :
  playing player_album = true /\
  music_get_busy (env_album 89500 false 190) = Ok false /\
  playlist player_album <> [] /\
  after _tick (env_album 89500 false 190) player_album =
    mkPlayer ["a.mp3"%string; "b.mp3"%string] 0 true 0.85 (Some 190) 0 /\
  signals _tick (env_album 89500 false 190) player_album =
    [position_updated (0 + inject_Z 89500 / 1000) 90; state_changed;
     track_changed "a.mp3"%string; state_changed].
Proof.
  assert (H1 : playing player_album = true) by reflexivity.
  assert (H2 : music_get_busy (env_album 89500 false 190) = Ok false)
    by reflexivity.
  assert (H3 : playlist player_album <> []) by discriminate.
  repeat (split; [assumption|]).
  destruct (auto_advance_lands (env_album 89500 false 190) player_album
              (0 + inject_Z 89500 / 1000) 90
              [state_changed; track_changed "a.mp3"%string; state_changed]
              H1 H2 eq_refl) as (_ & _ & Hplay & _);
    [left; split; [reflexivity | discriminate] | exact H3 |].
  destruct (Hplay "a.mp3"%string eq_refl eq_refl eq_refl) as [[r Ha] Hs].
  split; [rewrite Ha; reflexivity | exact Hs].
Defined.




Lemma prev_next_index (n i : Z) :
  (0 <= i < n)%Z -> (((i + 1) mod n - 1 + n) mod n = i)%Z.
Proof.
  intros H. destruct (Z.eq_dec (i + 1) n) as [E|E].
  - rewrite E, Z_mod_same_full.
    replace (0 - 1 + n)%Z with i by lia. apply Z.mod_small. lia.
  - rewrite (Z.mod_small (i + 1) n) by lia.
    replace (i + 1 - 1 + n)%Z with (i + 1 * n)%Z by lia.
    rewrite Z_mod_plus_full. apply Z.mod_small. lia.
Qed.

Lemma next_prev_index (n i : Z) :
  (0 <= i < n)%Z -> ((((i - 1 + n) mod n) + 1) mod n = i)%Z.
Proof.
  intros H. destruct (Z.eq_dec i 0) as [E|E].
  - subst i. replace (0 - 1 + n)%Z with (n - 1)%Z by lia.
    rewrite (Z.mod_small (n - 1) n) by lia.
    replace (n - 1 + 1)%Z with n by lia. apply Z_mod_same_full.
  - replace (i - 1 + n)%Z with (i - 1 + 1 * n)%Z by lia.
    rewrite Z_mod_plus_full, (Z.mod_small (i - 1) n) by lia.
    replace (i - 1 + 1)%Z with i by lia. apply Z.mod_small. lia.
Qed.

Lemma next_after (e : Env) (s : MusicPlayer) :
  is_empty (playlist s) = false ->
  playlist (after next e s) = playlist s /\
  current_index (after next e s) = next_index s.
Proof. intros H. exact (next_selection e (mkMachine s [] 0) H). Qed.

Lemma prev_after (e : Env) (s : MusicPlayer) :
  is_empty (playlist s) = false ->
  playlist (after prev e s) = playlist s /\
  current_index (after prev e s) = prev_index s.
Proof. intros H. exact (prev_selection e (mkMachine s [] 0) H). Qed.

(** X7.  [next] and [prev] undo each other on the selection.  With a track
    selected, [next] followed by [prev], and [prev] followed by [next], lead
    back to the same [current_index], whatever files are missing and
    whatever the device answers in between. *)
Theorem next_prev_round_trip (e1 e2 : Env) (s : MusicPlayer) :
  (0 <= current_index s < len (playlist s))%Z ->
  current_index (after prev e2 (after next e1 s)) = current_index s /\
  current_index (after next e2 (after prev e1 s)) = current_index s.
Proof.
  intros Hr.
  assert (He : is_empty (playlist s) = false).
  { destruct (playlist s); [cbn in Hr; lia | reflexivity]. }
  destruct (next_after e1 s He) as [Hnl Hni].
  destruct (prev_after e1 s He) as [Hpl Hpi].
  pose proof (next_index_range s He) as Rn.
  pose proof (prev_index_range s He) as Rp.
  split.
  - destruct (prev_after e2 (after next e1 s)) as [_ ->];
      [rewrite Hnl; exact He|].
    unfold prev_index. rewrite Hnl, Hni.
    destruct (Z.eqb_spec (next_index s) (-1)); [lia|].
    unfold next_index.
    destruct (Z.eqb_spec (current_index s) (-1)); [lia|].
    apply prev_next_index, Hr.
  - destruct (next_after e2 (after prev e1 s)) as [_ ->];
      [rewrite Hpl; exact He|].
    unfold next_index. rewrite Hpl, Hpi.
    destruct (Z.eqb_spec (prev_index s) (-1)); [lia|].
    unfold prev_index.
    destruct (Z.eqb_spec (current_index s) (-1)); [lia|].
    apply next_prev_index, Hr.
Qed.

(** From the last of three tracks [next] wraps to the first and [prev]
    comes back, even when the device refuses to play. *)
Lemma next_prev_round_trip_witness :
  (0 <= current_index player_last < len (playlist player_last))%Z /\
  current_index (after next (env_dead 100) player_last) = 0%Z /\
  current_index (after prev (env_ok 0 101)
                   (after next (env_dead 100) player_last)) = 2%Z.
Proof.
  assert (H : (0 <= current_index player_last
               < len (playlist player_last))%Z) by (cbn; lia).
  split; [exact H|]. split; [reflexivity|].
  exact (proj1 (next_prev_round_trip (env_dead 100) (env_ok 0 101)
                  player_last H)).
Defined.

Lemma play_index_fresh_at (idx : Z) (p : string) (e : Env) (m : Machine) :
  (0 <= idx)%Z ->
  nth_error (playlist (self m)) (Z.to_nat idx) = Some p ->
  is_file e p = true ->
  device_accepts e p 0 = true ->
  play_index idx e m =
    (Ok tt,
     mkMachine
       (mkPlayer (playlist (self m)) idx true (volume (self m))
                 (Some (clock e (reads m))) 0)
       (emitted m ++ [track_changed p; state_changed]) (S (reads m))).
Proof.
  intros Hi Hp Hf Hd. rewrite play_index_run. unfold playable.
  pose proof (nth_some_range _ _ _ Hi Hp) as Hlt.
  destruct (Z.leb_spec 0 idx); [|lia].
  destruct (Z.ltb_spec idx (len (playlist (self m)))); [|lia].
  cbn [andb]. rewrite Hp, Hf, _play_internal_run, Hd. reflexivity.
Qed.

(** X8.  Playing a file outside the playlist.  After [play_path(p)] of an
    existing file that is not in the playlist, taken by the device, the
    engine is playing with nothing selected: [current_track] is [None],
    [seek] does nothing, and every tick reports a total of 0.  So the first
    tick that finds the device silent moves on into the playlist: if the
    first entry's file exists and the device takes it, that entry is playing
    from offset 0. *)
Theorem adhoc_playback (p : string) (e : Env) (s : MusicPlayer) :
  is_file e p = true ->
  ~ In p (playlist s) ->
  device_accepts e p 0 = true ->
  let s' := after (play_path p) e s in
  playing s' = true /\ current_index s' = (-1)%Z /\
  playlist s' = playlist s /\
  (forall e', run current_track e' s' = (Ok None, mkMachine s' [] 0)) /\
  (forall e' seconds,
      run (seek seconds) e' s' = (Ok tt, mkMachine s' [] 0)) /\
  (forall e' cur total rest,
      signals _tick e' s' = position_updated cur total :: rest ->
      total = 0) /\
  (forall e' q,
      music_get_busy e' = Ok false ->
      nth_error (playlist s) 0 = Some q ->
      is_file e' q = true -> device_accepts e' q 0 = true ->
      exists now,
        after _tick e' s' =
          mkPlayer (playlist s) 0 true (volume s) (Some now) 0).
Proof.
  intros Hf Hn Hd.
  assert (E : after (play_path p) e s =
              mkPlayer (playlist s) (-1) true (volume s)
                       (Some (clock e 0)) 0).
  { unfold after, run. rewrite play_path_run.
    change (self (mkMachine s [] 0)) with s. rewrite Hf.
    destruct (contains p (playlist s)) eqn:Hc;
      [apply contains_In in Hc; contradiction|].
    rewrite _play_internal_run, Hd. reflexivity. }
  cbv zeta. rewrite E.
  set (s' := mkPlayer (playlist s) (-1) true (volume s) (Some (clock e 0)) 0).
  assert (Hsel : selected s' = None) by reflexivity.
  split; [reflexivity|]. split; [reflexivity|]. split; [reflexivity|].
  split; [|split; [|split]].
  - intros e'. reflexivity.
  - intros e' seconds. rewrite seek_run, Hsel. reflexivity.
  - intros e' cur total rest Hsig.
    destruct (_tick_reports e' s') as [rest' Hrep].
    rewrite Hsig in Hrep. injection Hrep as _ -> _.
    unfold track_total. rewrite Hsel. reflexivity.
  - intros e' q Hb Hq Hfq Hdq. unfold after.
    destruct (_tick_run e' s') as [r ->]. cbn [playing s']. rewrite Hb.
    assert (track_ended (track_total e' s')
              (spec_elapsed e' s' (clock e' 0)) = true) as ->.
    { apply track_ended_true. right. unfold track_total. rewrite Hsel.
      discriminate. }
    assert (He : is_empty (playlist s) = false)
      by (destruct (playlist s); [discriminate Hq | reflexivity]).
    rewrite next_run. cbn [self with_playing playlist s']. rewrite He.
    change (next_index (with_playing s' false)) with 0%Z.
    rewrite (play_index_fresh_at 0 q e'); try assumption; try lia.
    eexists. reflexivity.
Qed.

(** [z.mp3] is not one of the three tracks: once it plays, nothing is
    selected, [seek(5)] does nothing, and the tick that finds the device
    silent starts the first track of the playlist. *)
Lemma adhoc_playback_witness :
  is_file (env_ok 0 100) "z.mp3"%string = true /\
  ~ In "z.mp3"%string (playlist player_loaded) /\
  device_accepts (env_ok 0 100) "z.mp3"%string 0 = true /\
  run (seek 5) (env_ok 0 101)
      (after (play_path "z.mp3"%string) (env_ok 0 100) player_loaded)
    = (Ok tt,
       mkMachine
         (after (play_path "z.mp3"%string) (env_ok 0 100) player_loaded)
         [] 0%nat) /\
  exists now,
    after _tick (env_short 3000 false 103)
      (after (play_path "z.mp3"%string) (env_ok 0 100) player_loaded)
    = mkPlayer three_tracks 0 true 0.85 (Some now) 0.
Proof.
  assert (H1 : is_file (env_ok 0 100) "z.mp3"%string = true) by reflexivity.
  assert (H2 : ~ In "z.mp3"%string (playlist player_loaded)).
  { intros [H|[H|[H|[]]]]; discriminate H. }
  assert (H3 : device_accepts (env_ok 0 100) "z.mp3"%string 0 = true)
    by reflexivity.
  repeat (split; [assumption|]).
  destruct (adhoc_playback "z.mp3"%string (env_ok 0 100) player_loaded
              H1 H2 H3) as (_ & _ & _ & _ & Hseek & _ & Htick).
  split; [apply Hseek|].
  apply (Htick (env_short 3000 false 103) "a.mp3"%string); reflexivity.
Defined.

(** X9.  Resuming on a device that cannot unpause.  When [toggle] finds the
    engine paused and [unpause] raises: with a track selected it reloads
    that track at the stored offset, without looking whether the file is
    still there; with nothing selected it starts the first entry of the
    playlist at offset 0, the stored offset being dropped; and with an empty
    playlist it does nothing. *)
Theorem resume_fallback (e : Env) (s : MusicPlayer) (x : exn) :
  playing s = false ->
  music_unpause e = Raise x ->
  (forall p,
      (0 <= current_index s)%Z ->
      nth_error (playlist s) (Z.to_nat (current_index s)) = Some p ->
      device_accepts e p (_track_offset_seconds s) = true ->
      run toggle e s =
        (Ok tt,
         mkMachine
           (mkPlayer (playlist s) (current_index s) true (volume s)
                     (Some (clock e 0)) (_track_offset_seconds s))
           [track_changed p; state_changed] 1)) /\
  (forall q,
      current_index s = (-1)%Z ->
      nth_error (playlist s) 0 = Some q ->
      is_file e q = true -> device_accepts e q 0 = true ->
      run toggle e s =
        (Ok tt,
         mkMachine
           (mkPlayer (playlist s) 0 true (volume s) (Some (clock e 0)) 0)
           [track_changed q; state_changed] 1)) /\
  (playlist s = [] -> run toggle e s = (Ok tt, mkMachine s [] 0)).
Proof.
  intros Hp Hx. rewrite (toggle_resume_run e s Hp), Hx.
  split; [|split].
  - intros p H0 Hn Hd.
    assert (He : is_empty (playlist s) = false)
      by (destruct (playlist s);
          [destruct (Z.to_nat (current_index s)); discriminate Hn
          | reflexivity]).
    rewrite He. destruct (Z.eqb_spec (current_index s) (-1)); [lia|].
    unfold bind, lift.
    rewrite (getitem_nth _ (current_index s) p H0 Hn).
    rewrite _play_internal_run, Hd. reflexivity.
  - intros q Hi Hn Hf Hd.
    assert (He : is_empty (playlist s) = false)
      by (destruct (playlist s); [discriminate Hn | reflexivity]).
    rewrite He, Hi. cbn [Z.eqb].
    apply (play_index_fresh 0 q e s); try assumption. lia.
  - intros ->. reflexivity.
Qed.

(** A paused engine with 10 s on the clock and a device that cannot
    unpause: the track selected is reloaded at 10 s; with nothing selected
    the first track starts from 0. *)
Lemma resume_fallback_witness :
  playing player_paused = false /\
  music_unpause (env_no_unpause 120) = Raise PygameError /\
  after toggle (env_no_unpause 120) player_paused
    = mkPlayer three_tracks 1 true 0.85 (Some 120) 10 /\
  after toggle (env_no_unpause 120) player_paused_unselected
    = mkPlayer three_tracks 0 true 0.85 (Some 120) 0.
Proof.
  split; [reflexivity|]. split; [reflexivity|]. split.
  - unfold after.
    rewrite (proj1 (resume_fallback (env_no_unpause 120) player_paused
                      PygameError eq_refl eq_refl)
               "b.mp3"%string); try reflexivity. cbn. lia.
  - unfold after.
    rewrite (proj1 (proj2 (resume_fallback (env_no_unpause 120)
                             player_paused_unselected
                             PygameError eq_refl eq_refl))
               "a.mp3"%string); reflexivity.
Defined.

(** X10.  [stop] whatever the device does: the engine is not playing, has
    no start time and offset 0, with playlist, selection and volume as they
    were, and [state_changed] was emitted once.  Stopping again changes
    nothing more, and from then on every tick reports 0 elapsed seconds,
    changes no field and does not raise. *)
Theorem stop_resets (e : Env) (s : MusicPlayer) :
  let s' := after stop e s in
  s' = mkPlayer (playlist s) (current_index s) false (volume s) None 0 /\
  signals stop e s = [state_changed] /\
  outcome stop e s = Ok tt /\
  (forall e', after stop e' s' = s') /\
  (forall e', tick_reports e' s' 0 /\ after _tick e' s' = s' /\
              outcome _tick e' s' = Ok tt).
Proof.
  assert (E : forall e0 s0,
             after stop e0 s0 =
             mkPlayer (playlist s0) (current_index s0) false (volume s0)
                      None 0)
    by (intros e0 s0; unfold after; rewrite stop_run; reflexivity).
  cbv zeta. rewrite (E e s).
  split; [reflexivity|].
  split; [unfold signals; rewrite stop_run; reflexivity|].
  split; [unfold outcome; rewrite stop_run; reflexivity|].
  split; [intros e'; rewrite E; reflexivity|].
  intros e'. split; [apply tick_reports_elapsed; reflexivity|].
  match goal with |- after _tick e' ?t = _ /\ _ =>
    unfold after, outcome; destruct (_tick_run e' t) as [r ->] end.
  split; reflexivity.
Qed.

(** ** Properties of the window *)

Lemma format_02d_digits (n : nat) :
  (n < 60)%nat ->
  format_02d (Z.of_nat n) =
    String (digit_char (Z.of_nat n / 10))
           (String (digit_char (Z.of_nat n mod 10)) EmptyString).
Proof.
  intros H. do 60 (destruct n as [|n]; [reflexivity|]). lia.
Qed.

Lemma int_of_float_floor (x : Q) :
  0 <= x -> inject_Z (int_of_float x) <= x /\ x < inject_Z (int_of_float x) + 1.
Proof.
  destruct x as [a b]. unfold int_of_float, Qle, Qlt. cbn. intros H.
  assert (Ha : (0 <= a)%Z) by lia.
  rewrite Z.quot_div_nonneg by lia.
  pose proof (Z.mul_div_le a (Zpos b) ltac:(lia)).
  pose proof (Z.mul_succ_div_gt a (Zpos b) ltac:(lia)).
  split; lia.
Qed.

(** X11.  [_format_time] writes the whole seconds of its argument as
    minutes, a colon and exactly two digits between 00 and 59; for a
    non-negative argument the minutes are not negative and the whole seconds
    are the argument rounded down. *)
Theorem format_time_shape (seconds : Q) :
  let t := int_of_float seconds in
  let m := (t / 60)%Z in
  let s := (t mod 60)%Z in
  (0 <= s < 60)%Z /\ t = (60 * m + s)%Z /\
  _format_time seconds =
    (str_int m ++ ":"
       ++ String (digit_char (s / 10))
            (String (digit_char (s mod 10)) EmptyString))%string /\
  (0 <= seconds ->
   (0 <= m)%Z /\ inject_Z t <= seconds /\ seconds < inject_Z t + 1).
Proof.
  cbv zeta.
  pose proof (Z.mod_pos_bound (int_of_float seconds) 60 ltac:(lia)) as Hs.
  split; [exact Hs|]. split; [apply Z.div_mod; lia|]. split.
  - unfold _format_time.
    rewrite <- (Z2Nat.id (int_of_float seconds mod 60)) by lia.
    rewrite format_02d_digits by lia. reflexivity.
  - intros H. destruct (int_of_float_floor seconds H) as [H1 H2].
    split; [|split; assumption].
    apply Z.div_pos; [|lia].
    destruct seconds as [a b]. unfold int_of_float, Qle in *. cbn in *.
    apply Z.quot_pos; lia.
Qed.

(** 75.9 seconds are shown as 1:15. *)
Lemma format_time_shape_witness :
  0 <= 75.9 /\ _format_time 75.9 = "1:15"%string /\
  inject_Z (int_of_float 75.9) <= 75.9.
Proof.
  assert (H : 0 <= 75.9) by discriminate.
  split; [exact H|]. split; [reflexivity|].
  apply (proj2 (proj2 (proj2 (format_time_shape 75.9))) H).
Defined.

Lemma list_remove_contains (x : string) (l : list string) :
  contains x l = true -> exists r, list_remove x l = Ok r.
Proof.
  unfold contains. induction l as [|y l IH]; [discriminate|].
  cbn [existsb list_remove]. rewrite (String.eqb_sym x y).
  destruct (String.eqb y x); [eauto|]. cbn [orb]. intros H.
  destruct (IH H) as [r ->]. eauto.
Qed.

Lemma list_remove_absent (x : string) (l : list string) :
  contains x l = false -> list_remove x l = Raise ValueError.
Proof.
  unfold contains. induction l as [|y l IH]; [reflexivity|].
  cbn [existsb list_remove]. rewrite (String.eqb_sym x y).
  destruct (String.eqb y x); [discriminate|]. cbn [orb]. intros H.
  rewrite (IH H). reflexivity.
Qed.

Lemma without_first_cons (x y : string) (l : list string) :
  without_first x (y :: l) =
    if String.eqb y x then l else y :: without_first x l.
Proof.
  unfold without_first. cbn [list_remove].
  destruct (String.eqb y x); [reflexivity|].
  destruct (list_remove x l); reflexivity.
Qed.

Lemma without_first_absent (x : string) (l : list string) :
  ~ In x l -> without_first x l = l.
Proof.
  intros H. unfold without_first. rewrite list_remove_absent; [reflexivity|].
  destruct (contains x l) eqn:E; [|reflexivity].
  apply contains_In in E. contradiction.
Qed.

Lemma without_first_In (x y : string) (l : list string) :
  In y (without_first x l) -> In y l.
Proof.
  induction l as [|z l IH]; [intros H; exact H|].
  rewrite without_first_cons. destruct (String.eqb z x).
  - intros H. right. exact H.
  - intros [H|H]; [left; exact H | right; apply IH, H].
Qed.

Lemma without_first_keeps (x y : string) (l : list string) :
  y <> x -> In y l -> In y (without_first x l).
Proof.
  intros Hne. induction l as [|z l IH]; [intros H; exact H|].
  rewrite without_first_cons. destruct (String.eqb_spec z x) as [->|Hz].
  - intros [H|H]; [congruence | exact H].
  - intros [H|H]; [left; exact H | right; apply IH, H].
Qed.

Lemma without_first_NoDup (x : string) (l : list string) :
  NoDup l -> NoDup (without_first x l) /\ ~ In x (without_first x l).
Proof.
  induction l as [|z l IH]; intros Hnd.
  - split; [constructor | intros []].
  - inversion Hnd as [|? ? Hz Hl]; subst. rewrite without_first_cons.
    destruct (String.eqb_spec z x) as [->|Hne]; [split; assumption|].
    destruct (IH Hl) as [IH1 IH2]. split.
    + constructor; [|exact IH1]. intros H. apply Hz.
      apply (without_first_In x), H.
    + intros [H|H]; [congruence | exact (IH2 H)].
Qed.

Lemma without_first_length (x : string) (l : list string) :
  In x l -> S (length (without_first x l)) = length l.
Proof.
  induction l as [|z l IH]; [intros []|].
  rewrite without_first_cons. destruct (String.eqb_spec z x) as [->|Hne].
  - reflexivity.
  - intros [H|H]; [congruence|]. cbn [length]. rewrite (IH H). reflexivity.
Qed.

Lemma last_slice_In {A} (n : nat) (l : list A) (x : A) :
  In x (last_slice n l) -> In x l.
Proof.
  unfold last_slice. intros H.
  rewrite <- (firstn_skipn (length l - n) l). apply in_or_app. right.
  exact H.
Qed.

Lemma last_slice_NoDup {A} (n : nat) (l : list A) :
  NoDup l -> NoDup (last_slice n l).
Proof.
  unfold last_slice. intros H.
  rewrite <- (firstn_skipn (length l - n) l) in H.
  apply NoDup_app_remove_l in H. exact H.
Qed.

Lemma last_slice_length {A} (n : nat) (l : list A) :
  length (last_slice n l) = Nat.min n (length l).
Proof. unfold last_slice. rewrite length_skipn. lia. Qed.

Lemma last_slice_short {A} (n : nat) (l : list A) :
  (length l <= n)%nat -> last_slice n l = l.
Proof.
  intros H. unfold last_slice.
  replace (length l - n)%nat with 0%nat by lia. reflexivity.
Qed.

Lemma last_slice_snoc {A} (n : nat) (l : list A) (x : A) :
  last_slice (S n) (l ++ [x]) = last_slice n l ++ [x].
Proof.
  unfold last_slice. rewrite length_app. cbn [length].
  replace (length l + 1 - S n)%nat with (length l - n)%nat by lia.
  rewrite skipn_app.
  replace (length l - n - length l)%nat with 0%nat by lia. reflexivity.
Qed.

Lemma last_slice_full {A} (l : list A) (x : A) :
  last_slice (S (length l)) (x :: l) = x :: l.
Proof. apply last_slice_short. cbn. lia. Qed.

Lemma last_slice_tail {A} (l : list A) (x : A) :
  last_slice (length l) (x :: l) = l.
Proof.
  unfold last_slice. cbn [length].
  replace (S (length l) - length l)%nat with 1%nat by lia. reflexivity.
Qed.

Lemma filter_same_length {A} (f : A -> bool) (l : list A) :
  length (filter f l) = length l -> filter f l = l.
Proof.
  induction l as [|x l IH]; [reflexivity|]. cbn [filter].
  destruct (f x); cbn [length]; intros H.
  - f_equal. apply IH. lia.
  - pose proof (filter_length_le f l). lia.
Qed.

Ltac unfold_ui :=
  cbv beta iota zeta delta
    [wrun window_after player_after shell_of wbind wret wtry_pass wlift wask
     dask wget wmodify hasattr_player save_json show
     set_imported set_custom set_recents set_searches set_master_songs
     set_pl_title set_seeking set_seek_target set_last_vol set_vol_slider
     set_timeline_slider set_label_elapsed set_label_total get];
  cbn [window engine has_player saved dialogs
       imported custom recents searches master_songs pl_title _seeking
       _seek_target _last_vol vol_slider timeline_slider label_elapsed
       label_total self emitted reads fst snd negb app length skipn].

Lemma deliver_run (ev : Event) (e : Env) (d : Desk) (sh : Shell) :
  deliver ev e d sh =
    (Ok tt, mkShell (on_event e (window sh) ev) (engine sh) (has_player sh)
                    (saved sh) (dialogs sh)).
Proof.
  destruct sh as [w m hp sv dg].
  destruct w as [im cu re se ms ti sk tg lv vs ts le lt].
  destruct ev as [|p|cur total]; unfold deliver, on_event.
  - reflexivity.
  - unfold _on_track_changed. unfold_ui.
    destruct (is_file e p); reflexivity.
  - unfold _on_position_update. unfold_ui.
    destruct sk; [reflexivity|].
    cbn [negb]. destruct (Qltb 0 total); reflexivity.
Qed.

Lemma deliver_all_run (evs : list Event) (e : Env) (d : Desk) (sh : Shell) :
  deliver_all evs e d sh =
    (Ok tt, mkShell (heard e evs (window sh)) (engine sh) (has_player sh)
                    (saved sh) (dialogs sh)).
Proof.
  revert sh. induction evs as [|ev evs IH]; intros sh.
  - destruct sh. reflexivity.
  - cbn [deliver_all]. unfold wbind. rewrite deliver_run, IH. reflexivity.
Qed.

(** A call of the engine from the window: the engine runs, and the window
    hears what it emitted. *)
Lemma player_call_run {A} (c : M A) (e : Env) (d : Desk) (sh : Shell) :
  player_call c e d sh =
    (fst (c e (engine sh)),
     mkShell
       (heard e (skipn (length (emitted (engine sh)))
                       (emitted (snd (c e (engine sh)))))
              (window sh))
       (snd (c e (engine sh))) (has_player sh) (saved sh) (dialogs sh)).
Proof.
  unfold player_call. destruct (c e (engine sh)) as [r m].
  rewrite deliver_all_run. reflexivity.
Qed.

(** The slots leave the lists, the title, the drag and the volume alone. *)
Lemma heard_keeps (e : Env) (evs : list Event) (w : MainWindow) :
  let w' := heard e evs w in
  imported w' = imported w /\ custom w' = custom w /\
  recents w' = recents w /\ searches w' = searches w /\
  master_songs w' = master_songs w /\ pl_title w' = pl_title w /\
  _seeking w' = _seeking w /\ _seek_target w' = _seek_target w /\
  _last_vol w' = _last_vol w /\ vol_slider w' = vol_slider w.
Proof.
  cbv zeta. revert w. induction evs as [|ev evs IH]; intros w.
  - repeat (split; [reflexivity|]); reflexivity.
  - unfold heard. cbn [fold_left]. fold (heard e evs (on_event e w ev)).
    destruct (IH (on_event e w ev))
      as (H1 & H2 & H3 & H4 & H5 & H6 & H7 & H8 & H9 & H10).
    rewrite H1, H2, H3, H4, H5, H6, H7, H8, H9, H10.
    destruct ev as [|p|cur total]; unfold on_event.
    + repeat (split; [reflexivity|]); reflexivity.
    + destruct (is_file e p); repeat (split; [reflexivity|]); reflexivity.
    + destruct (_seeking w) eqn:Hs;
        repeat (split; [first [reflexivity | exact Hs]|]); reflexivity.
Qed.

Lemma load_playlist_at (paths : list string) (e : Env) (m : Machine) :
  load_playlist paths e m =
    (Ok tt,
     mkMachine
       (mkPlayer (filter (is_file e) paths)
                 (if is_empty (filter (is_file e) paths) then -1 else 0)%Z
                 (playing (self m)) (volume (self m))
                 (_track_start_time (self m))
                 (_track_offset_seconds (self m)))
       (emitted m) (reads m)).
Proof. reflexivity. Qed.

Lemma heard_nil (e : Env) (w : MainWindow) : heard e [] w = w.
Proof. reflexivity. Qed.



Lemma _play_path_found (p : string) (e : Env) (d : Desk) (w : MainWindow)
      (s : MusicPlayer) :
  is_file e p = true ->
  let r := touched MAX_RECENTS p (recents w) in
  let c := if negb (contains p (playlist s)) then
             (load_playlist
                (p :: map song_path
                        (filter (fun t => negb (String.eqb (song_path t) p))
                                (master_songs w))) ;;
              play_index 0)%py
           else play_path p in
  wrun (_play_path p) e d w s =
    (fst (run c e s),
     mkShell (heard e (emitted (snd (run c e s))) (with_recents w r))
             (snd (run c e s)) true [(RECENT_JSON, r)] []).
Proof.
  intros Hf. cbv zeta. unfold _play_path, touched, without_first.
  destruct (contains p (recents w)) eqn:Hc.
  - destruct (list_remove_contains p (recents w) Hc) as [r Hr]. rewrite Hr.
    destruct (contains p (playlist s)) eqn:Hpl.
    + repeat (unfold_ui;
              rewrite ?player_call_run, ?heard_nil, ?Hf, ?Hc, ?Hr, ?Hpl).
      unfold run. destruct (play_path p e _) as [res m']. reflexivity.
    + repeat (unfold_ui;
              rewrite ?player_call_run, ?heard_nil, ?Hf, ?Hc, ?Hr, ?Hpl).
      unfold run, bind. rewrite load_playlist_at. unfold_ui.
      rewrite ?heard_nil.
      destruct (play_index 0 e _) as [res m']. reflexivity.
  - rewrite (list_remove_absent p (recents w) Hc).
    destruct (contains p (playlist s)) eqn:Hpl.
    + repeat (unfold_ui;
              rewrite ?player_call_run, ?heard_nil, ?Hf, ?Hc, ?Hpl).
      unfold run. destruct (play_path p e _) as [res m']. reflexivity.
    + repeat (unfold_ui;
              rewrite ?player_call_run, ?heard_nil, ?Hf, ?Hc, ?Hpl).
      unfold run, bind. rewrite load_playlist_at. unfold_ui.
      rewrite ?heard_nil.
      destruct (play_index 0 e _) as [res m']. reflexivity.
Qed.

Lemma touched_spec (n : nat) (x : string) (l : list string) :
  let r := touched (S n) x l in
  (exists front, r = front ++ [x]) /\
  (length r <= S n)%nat /\
  (NoDup l -> NoDup r) /\
  (forall y, In y r -> y = x \/ In y l) /\
  ((length l <= S n)%nat -> In x l \/ (length l < S n)%nat ->
   forall y, In y l -> In y r) /\
  (length l = S n -> ~ In x l -> r = tl l ++ [x]).
Proof.
  cbv zeta. unfold touched. rewrite last_slice_snoc.
  split; [eauto|]. split; [|split; [|split; [|split]]].
  - rewrite length_app, last_slice_length. cbn [length]. lia.
  - intros Hnd. destruct (without_first_NoDup x l Hnd) as [H1 H2].
    apply NoDup_app; [apply last_slice_NoDup, H1 | repeat constructor;
                                                  intros [] |].
    intros y Hy [<-|[]]. apply H2. apply (last_slice_In n), Hy.
  - intros y Hy. apply in_app_or in Hy as [Hy | [<-|[]]]; [|left; reflexivity].
    right. apply (without_first_In x). apply (last_slice_In n), Hy.
  - intros Hlen Hor y Hy. apply in_or_app.
    destruct (string_dec y x) as [->|Hne]; [right; left; reflexivity|].
    left. rewrite last_slice_short.
    + apply without_first_keeps; assumption.
    + destruct (in_dec string_dec x l) as [Hin|Hnin].
      * pose proof (without_first_length x l Hin). lia.
      * rewrite (without_first_absent x l Hnin). destruct Hor; [contradiction|].
        lia.
  - intros Hlen Hnin. rewrite (without_first_absent x l Hnin).
    destruct l as [|z l]; [discriminate|]. cbn [length] in Hlen.
    injection Hlen as <-. rewrite last_slice_tail. reflexivity.
Qed.

(** X12.  The recent songs are kept most-recently-used.  After [_play_path]
    of an existing file [p], [p] is the last of the recent songs and there
    are at most five of them; no duplicate appears; nothing but [p] is new;
    when the list was not full, or held [p] already, nothing is lost; when
    it held five other songs, exactly the oldest is dropped.  The list
    written to disk is the list in memory, and the imported and custom lists
    are untouched. *)
Theorem play_path_recents (p : string) (e : Env) (d : Desk) (w : MainWindow)
        (s : MusicPlayer) :
  is_file e p = true ->
  let w' := window_after (_play_path p) e d w s in
  (exists front, recents w' = front ++ [p]) /\
  (length (recents w') <= 5)%nat /\
  (NoDup (recents w) -> NoDup (recents w')) /\
  (forall y, In y (recents w') -> y = p \/ In y (recents w)) /\
  ((length (recents w) <= 5)%nat ->
   In p (recents w) \/ (length (recents w) < 5)%nat ->
   forall y, In y (recents w) -> In y (recents w')) /\
  (length (recents w) = 5%nat -> ~ In p (recents w) ->
   recents w' = tl (recents w) ++ [p]) /\
  saved (snd (wrun (_play_path p) e d w s)) = [(RECENT_JSON, recents w')] /\
  imported w' = imported w /\ custom w' = custom w.
Proof.
  intros Hf. cbv zeta. unfold window_after.
  rewrite (_play_path_found p e d w s Hf).
  cbn [snd window saved].
  match goal with |- context [heard e ?l ?x] =>
    destruct (heard_keeps e l x) as (K1 & K2 & K3 & _)
  end.
  rewrite K1, K2, K3. cbn [with_recents recents imported custom].
  destruct (touched_spec 4 p (recents w)) as (H1 & H2 & H3 & H4 & H5 & H6).
  repeat split; assumption.
Qed.

(** With [a.mp3] and [b.mp3] recent, playing [a.mp3] moves it to the end. *)
Lemma play_path_recents_witness :
  is_file (env_ok 0 100) "a.mp3"%string = true /\
  NoDup (recents window_sample) /\
  recents (window_after (_play_path "a.mp3"%string) (env_ok 0 100)
             desk_sample window_sample player_loaded)
    = ["b.mp3"%string; "a.mp3"%string] /\
  NoDup (recents (window_after (_play_path "a.mp3"%string) (env_ok 0 100)
                    desk_sample window_sample player_loaded)).
Proof.
  assert (H1 : is_file (env_ok 0 100) "a.mp3"%string = true) by reflexivity.
  assert (H2 : NoDup (recents window_sample)).
  { constructor; [intros [H|[]]; discriminate H|].
    constructor; [intros [] | constructor]. }
  destruct (play_path_recents "a.mp3"%string (env_ok 0 100) desk_sample
              window_sample player_loaded H1) as (_ & _ & Hnd & _).
  split; [exact H1|]. split; [exact H2|].
  split; [vm_compute; reflexivity | exact (Hnd H2)].
Defined.

(** X13.  [_play_path] leaves the engine playing the song it was given.
    For an existing file that the device takes, the engine afterwards plays
    from offset 0 with [p] as its current track, and it emitted
    [track_changed(p)] and [state_changed]; hearing them, the window puts
    the timeline to 0 and shows the duration of [p].  When [p] was in the
    engine's playlist the playlist is kept; otherwise the engine is given a
    new one that starts with [p], followed by the other songs of the window
    whose files exist. *)
Theorem play_path_starts_the_song (p : string) (e : Env) (d : Desk)
        (w : MainWindow) (s : MusicPlayer) :
  is_file e p = true ->
  device_accepts e p 0 = true ->
  let sh := snd (wrun (_play_path p) e d w s) in
  let s' := self (engine sh) in
  playing s' = true /\
  _track_offset_seconds s' = 0 /\
  _track_start_time s' = Some (clock e 0) /\
  (0 <= current_index s')%Z /\
  nth_error (playlist s') (Z.to_nat (current_index s')) = Some p /\
  emitted (engine sh) = [track_changed p; state_changed] /\
  timeline_slider (window sh) = 0%Z /\
  label_total (window sh) = _format_time (get_duration e p) /\
  (In p (playlist s) -> playlist s' = playlist s) /\
  (~ In p (playlist s) ->
   current_index s' = 0%Z /\
   playlist s' =
     p :: filter (is_file e)
            (map song_path
               (filter (fun t => negb (String.eqb (song_path t) p))
                       (master_songs w)))).
Proof.
  intros Hf Hd. cbv zeta. rewrite (_play_path_found p e d w s Hf).
  cbn [snd engine window].
  destruct (contains p (playlist s)) eqn:Hc; cbn [negb].
  - destruct (index_first p (playlist s) Hc) as (i & Hi & H0 & Hn & _).
    unfold run. rewrite play_path_run.
    change (self (mkMachine s [] 0)) with s. rewrite Hf, Hc, Hi.
    rewrite (play_index_fresh_at i p e (mkMachine s [] 0) H0 Hn Hf Hd).
    cbn [snd self emitted app playing _track_offset_seconds
         _track_start_time current_index playlist].
    unfold heard. cbn [fold_left on_event]. rewrite Hf.
    cbn [timeline_slider label_total].
    do 5 (split; [first [reflexivity | assumption]|]).
    do 4 (split; [reflexivity|]).
    intros Hnin. apply contains_In in Hc. contradiction.
  - unfold run, bind. rewrite load_playlist_at. cbn [filter]. rewrite Hf.
    cbn [is_empty].
    rewrite (play_index_fresh_at 0 p e); try assumption; try reflexivity;
      try lia.
    cbn [snd self emitted app playing _track_offset_seconds
         _track_start_time current_index playlist].
    unfold heard. cbn [fold_left on_event]. rewrite Hf.
    cbn [timeline_slider label_total].
    do 5 (split; [first [reflexivity | lia]|]).
    do 3 (split; [reflexivity|]). split; [|split; reflexivity].
    intros Hin. apply contains_In in Hin. congruence.
Qed.

(** [q.mp3] is not in the engine's playlist: playing it gives the engine a
    playlist that starts with it.  [b.mp3] is: playing it keeps the
    playlist and selects position 1. *)
Lemma play_path_starts_the_song_witness :
  is_file (env_ok 0 100) "q.mp3"%string = true /\
  device_accepts (env_ok 0 100) "q.mp3"%string 0 = true /\
  ~ In "q.mp3"%string (playlist player_loaded) /\
  In "b.mp3"%string (playlist player_loaded) /\
  playlist (player_after (_play_path "q.mp3"%string) (env_ok 0 100)
              desk_sample window_sample player_loaded)
    = ["q.mp3"%string] /\
  playlist (player_after (_play_path "b.mp3"%string) (env_ok 0 100)
              desk_sample window_sample player_loaded)
    = three_tracks /\
  playing (player_after (_play_path "b.mp3"%string) (env_ok 0 100)
             desk_sample window_sample player_loaded) = true.
Proof.
  assert (H1 : is_file (env_ok 0 100) "q.mp3"%string = true) by reflexivity.
  assert (H2 : device_accepts (env_ok 0 100) "q.mp3"%string 0 = true)
    by reflexivity.
  assert (H3 : ~ In "q.mp3"%string (playlist player_loaded)).
  { intros [H|[H|[H|[]]]]; discriminate H. }
  assert (H4 : In "b.mp3"%string (playlist player_loaded))
    by (right; left; reflexivity).
  destruct (play_path_starts_the_song "q.mp3"%string (env_ok 0 100)
              desk_sample window_sample player_loaded H1 H2)
    as (_ & _ & _ & _ & _ & _ & _ & _ & _ & Hnew).
  destruct (play_path_starts_the_song "b.mp3"%string (env_ok 0 100)
              desk_sample window_sample player_loaded eq_refl eq_refl)
    as (Hplay & _ & _ & _ & _ & _ & _ & _ & Hkeep & _).
  repeat (split; [assumption|]).
  split; [exact (proj2 (Hnew H3))|]. split; [exact (Hkeep H4) | exact Hplay].
Defined.

Lemma contains_false_iff (x : string) (l : list string) :
  contains x l = false <-> ~ In x l.
Proof.
  rewrite <- contains_In. destruct (contains x l); split; congruence.
Qed.

(** The invariant of the loop of [_refresh_master]: [seen] holds the paths
    of [uniq], which has one song per path. *)
Lemma uniq_loop_spec (songs : list Song) (seen : list string)
      (uniq : list Song) :
  (forall p, In p seen <-> In p (map song_path uniq)) ->
  NoDup (map song_path uniq) ->
  NoDup (map song_path (uniq_loop songs seen uniq)) /\
  (forall p, In p (map song_path (uniq_loop songs seen uniq)) <->
             In p (map song_path uniq) \/ In p (map song_path songs)) /\
  (forall t, In t (uniq_loop songs seen uniq) -> In t uniq \/ In t songs).
Proof.
  revert seen uniq. induction songs as [|t songs IH]; intros seen uniq Hs Hn.
  - cbn [uniq_loop map]. split; [exact Hn|]. split; [|tauto].
    intros p. cbn [In]. tauto.
  - cbn [uniq_loop]. destruct (contains (song_path t) seen) eqn:Hc;
      cbn [negb].
    + apply contains_In in Hc. apply Hs in Hc.
      destruct (IH seen uniq Hs Hn) as (H1 & H2 & H3).
      split; [exact H1|]. split.
      * intros p. rewrite H2. cbn [map In]. split; [tauto|].
        intros [H|[<-|H]]; tauto.
      * intros u Hu. destruct (H3 u Hu); [left | right; right]; assumption.
    + apply contains_false_iff in Hc.
      destruct (IH (song_path t :: seen) (uniq ++ [t])) as (H1 & H2 & H3).
      * intros p. rewrite map_app, in_app_iff. cbn [map In]. rewrite Hs.
        tauto.
      * rewrite map_app. apply NoDup_app; [exact Hn | repeat constructor;
                                                      intros [] |].
        intros p Hp [<-|[]]. apply Hc, Hs, Hp.
      * split; [exact H1|]. split.
        -- intros p. rewrite H2, map_app, in_app_iff. cbn [map In]. tauto.
        -- intros u Hu. destruct (H3 u Hu) as [H|H]; [|right; right; exact H].
           apply in_app_or in H as [H|[<-|[]]];
             [left; exact H | right; left; reflexivity].
Qed.

Lemma NoDup_filter {A} (f : A -> bool) (l : list A) :
  NoDup l -> NoDup (filter f l).
Proof.
  induction 1 as [|x l Hx Hl IH]; cbn [filter]; [constructor|].
  destruct (f x); [|exact IH]. constructor; [|exact IH].
  intros H. apply filter_In in H. tauto.
Qed.

Lemma _refresh_master_run (e : Env) (d : Desk) (sh : Shell) :
  let cleaned := filter (is_file e) (imported (window sh)) in
  let master := uniq_loop (collected_songs e d (window sh)) [] [] in
  _refresh_master e d sh =
    (Ok tt,
     mkShell
       (with_master_songs (with_imported (window sh) cleaned) master)
       (if has_player sh
        then snd (load_playlist (map song_path master) e (engine sh))
        else engine sh)
       (has_player sh)
       (saved sh ++
        if (length cleaned =? length (imported (window sh)))%nat
        then [] else [(IMPORTED_JSON, cleaned)])
       (dialogs sh)).
Proof.
  cbv zeta. unfold _refresh_master, collected_songs.
  destruct sh as [w m hp sv dg]. unfold_ui.
  destruct (Nat.eqb_spec (length (filter (is_file e) (imported w)))
              (length (imported w))) as [Hl|Hl].
  - pose proof (filter_same_length _ _ Hl) as Hsame.
    destruct (songs_dir_exists d); unfold_ui; rewrite Hl, Nat.eqb_refl;
      unfold_ui; destruct hp; unfold_ui;
      rewrite ?player_call_run, ?load_playlist_at; unfold_ui;
      rewrite ?skipn_all, ?heard_nil;
      unfold with_master_songs, with_imported;
      cbn [imported custom recents searches master_songs pl_title _seeking
           _seek_target _last_vol vol_slider timeline_slider label_elapsed
           label_total snd];
      rewrite ?app_nil_r, ?Hsame; reflexivity.
  - apply Nat.eqb_neq in Hl as Hb.
    destruct (songs_dir_exists d); unfold_ui; rewrite Hb; unfold_ui;
      destruct hp; unfold_ui;
      rewrite ?player_call_run, ?load_playlist_at; unfold_ui;
      rewrite ?skipn_all, ?heard_nil; reflexivity.
Qed.

Lemma collected_paths (e : Env) (d : Desk) (w : MainWindow) (p : string) :
  In p (map song_path (collected_songs e d w)) <->
  (songs_dir_exists d = true /\
   exists f, In f (listdir_sorted d) /\
             endswith (str_lower d f) ".mp3" = true /\ p = path_join d f) \/
  (In p (imported w) /\ is_file e p = true).
Proof.
  unfold collected_songs.
  destruct (songs_dir_exists d); rewrite map_app, in_app_iff, !map_map;
    cbn [song_path map In]; rewrite map_id, filter_In.
  - rewrite in_map_iff. split.
    + intros [(f & <- & Hf) | H]; [left | right; exact H].
      apply filter_In in Hf. split; [reflexivity|]. exists f. tauto.
    + intros [(_ & f & Hf & He & ->) | H]; [left | right; exact H].
      exists f. split; [reflexivity|]. apply filter_In. tauto.
  - split; [tauto|].
    intros [(H & _) | H]; [discriminate H | right; exact H].
Qed.

(** X14.  What [_refresh_master] leaves behind.  The imported list keeps
    exactly its existing files, and is written to disk only when something
    was dropped.  The songs of the window are the [.mp3] files of the songs
    folder and the existing imported files, one song per path.  The engine
    is loaded with the paths of these songs whose files exist, so its
    playlist has no duplicate, and it selects the first of them; it is
    neither started nor stopped. *)
Theorem refresh_master_result (e : Env) (d : Desk) (w : MainWindow)
        (s : MusicPlayer) :
  let sh := snd (wrun _refresh_master e d w s) in
  let w' := window sh in
  let s' := self (engine sh) in
  imported w' = filter (is_file e) (imported w) /\
  (saved sh = [] \/ saved sh = [(IMPORTED_JSON, imported w')]) /\
  ((forall p, In p (imported w) -> is_file e p = true) -> saved sh = []) /\
  NoDup (map song_path (master_songs w')) /\
  (forall p,
      In p (map song_path (master_songs w')) <->
      (songs_dir_exists d = true /\
       exists f, In f (listdir_sorted d) /\
                 endswith (str_lower d f) ".mp3" = true /\
                 p = path_join d f) \/
      (In p (imported w) /\ is_file e p = true)) /\
  playlist s' = filter (is_file e) (map song_path (master_songs w')) /\
  NoDup (playlist s') /\
  current_index s' = match playlist s' with [] => (-1)%Z | _ :: _ => 0%Z end /\
  playing s' = playing s /\
  _track_offset_seconds s' = _track_offset_seconds s /\
  _track_start_time s' = _track_start_time s /\
  volume s' = volume s /\
  emitted (engine sh) = [].
Proof.
  cbv zeta. unfold wrun. rewrite _refresh_master_run.
  cbn [snd window engine saved has_player shell_of with_master_songs
       with_imported imported master_songs app].
  rewrite load_playlist_at.
  cbn [snd self emitted playlist current_index playing volume
       _track_start_time _track_offset_seconds].
  destruct (uniq_loop_spec (collected_songs e d w) [] []) as (Hnd & Hin & _);
    [intros p; cbn; tauto | constructor |].
  split; [reflexivity|]. split; [|split; [|split; [|split]]].
  - destruct (_ =? _)%nat; [left | right]; reflexivity.
  - intros Hall.
    assert (Hsame : filter (is_file e) (imported w) = imported w).
    { clear -Hall. induction (imported w) as [|x l IH]; [reflexivity|].
      cbn [filter]. rewrite (Hall x (or_introl eq_refl)). f_equal.
      apply IH. intros p Hp. apply Hall. right. exact Hp. }
    rewrite Hsame, Nat.eqb_refl. reflexivity.
  - exact Hnd.
  - intros p. rewrite Hin. cbn [map In]. rewrite collected_paths. tauto.
  - split; [reflexivity|]. split; [apply NoDup_filter, Hnd|].
    split; [destruct (filter _ _); reflexivity|]. repeat split.
Qed.

(** On the sample desk and window: [a.mp3] is listed once although it was
    imported twice, and the text file of the songs folder is left out. *)
Lemma refresh_master_result_witness :
  map song_path
      (master_songs (window_after _refresh_master (env_ok 0 100) desk_sample
                       window_sample MusicPlayer_init))
    = ["songs/x.mp3"%string; "songs/y.mp3"%string; "a.mp3"%string;
       "b.mp3"%string] /\
  NoDup (playlist (player_after _refresh_master (env_ok 0 100) desk_sample
                     window_sample MusicPlayer_init)) /\
  In "b.mp3"%string
     (map song_path
        (master_songs (window_after _refresh_master (env_ok 0 100)
                         desk_sample window_sample MusicPlayer_init))).
Proof.
  destruct (refresh_master_result (env_ok 0 100) desk_sample window_sample
              MusicPlayer_init) as (_ & _ & _ & _ & Hin & _ & Hnd & _).
  split; [vm_compute; reflexivity|]. split; [exact Hnd|].
  apply Hin. right. split; [right; left|]; reflexivity.
Defined.

Lemma filter_without_first (f : string -> bool) (x : string)
      (l : list string) :
  f x = false -> filter f (without_first x l) = filter f l.
Proof.
  intros Hx. induction l as [|y l IH]; [reflexivity|].
  rewrite without_first_cons. destruct (String.eqb_spec y x) as [->|Hne].
  - cbn [filter]. rewrite Hx. reflexivity.
  - cbn [filter]. rewrite IH. reflexivity.
Qed.

Lemma _play_path_missing (p : string) (e : Env) (d : Desk) (w : MainWindow)
      (s : MusicPlayer) :
  is_file e p = false ->
  wrun (_play_path p) e d w s =
    _refresh_master e d
      (mkShell
         (with_custom (with_imported w (without_first p (imported w)))
                      (without_first p (custom w)))
         (mkMachine s [] 0) true
         ((if contains p (imported w)
           then [(IMPORTED_JSON, without_first p (imported w))] else [])
          ++ (if contains p (custom w)
              then [(CUSTOM_JSON, without_first p (custom w))] else []))
         [warning "Missing file"]).
Proof.
  intros Hf. unfold _play_path, without_first. unfold_ui. rewrite Hf.
  unfold_ui.
  destruct (contains p (imported w)) eqn:Hi;
    [destruct (list_remove_contains p _ Hi) as [ri Hri]
    | pose proof (list_remove_absent p _ Hi) as Hri];
    (destruct (contains p (custom w)) eqn:Hc;
     [destruct (list_remove_contains p _ Hc) as [rc Hrc]
     | pose proof (list_remove_absent p _ Hc) as Hrc]);
    repeat (unfold_ui; rewrite ?Hri, ?Hrc, ?Hi, ?Hc);
    unfold with_custom, with_imported;
    cbn [imported custom recents searches master_songs pl_title _seeking
         _seek_target _last_vol vol_slider timeline_slider label_elapsed
         label_total];
    try reflexivity; destruct w; reflexivity.
Qed.

(** X15.  [_play_path] of a file that is gone.  The user is warned; the path
    leaves the imported list, the first occurrence of it leaves the custom
    list, and the recent songs are kept.  The engine is loaded again and
    its playlist does not hold the path; it is neither started nor stopped
    and emits nothing. *)
Theorem play_path_missing_file (p : string) (e : Env) (d : Desk)
        (w : MainWindow) (s : MusicPlayer) :
  is_file e p = false ->
  let sh := snd (wrun (_play_path p) e d w s) in
  let w' := window sh in
  let s' := self (engine sh) in
  dialogs sh = [warning "Missing file"] /\
  imported w' = filter (is_file e) (imported w) /\
  ~ In p (imported w') /\
  custom w' = without_first p (custom w) /\
  (NoDup (custom w) -> ~ In p (custom w')) /\
  recents w' = recents w /\
  ~ In p (playlist s') /\
  playing s' = playing s /\
  _track_offset_seconds s' = _track_offset_seconds s /\
  _track_start_time s' = _track_start_time s /\
  emitted (engine sh) = [] /\
  fst (wrun (_play_path p) e d w s) = Ok tt.
Proof.
  intros Hf. cbv zeta. rewrite (_play_path_missing p e d w s Hf).
  rewrite _refresh_master_run.
  cbn [fst snd window engine saved dialogs has_player with_master_songs
       with_imported with_custom imported custom recents].
  rewrite load_playlist_at.
  cbn [snd self emitted playlist playing _track_offset_seconds
       _track_start_time].
  rewrite (filter_without_first (is_file e) p (imported w) Hf).
  repeat split.
  - intros H. apply filter_In in H. destruct H as [_ H]. congruence.
  - intros Hnd. apply (without_first_NoDup p (custom w) Hnd).
  - intros H. apply filter_In in H. destruct H as [_ H]. congruence.
Qed.

(** With no file on disk, playing [a.mp3] empties the imported list and
    the engine's playlist, and the engine goes on playing. *)
Lemma play_path_missing_file_witness :
  is_file (env_nofile 100) "a.mp3"%string = false /\
  imported (window_after (_play_path "a.mp3"%string) (env_nofile 100)
              desk_sample window_sample player_playing) = [] /\
  ~ In "a.mp3"%string
      (playlist (player_after (_play_path "a.mp3"%string) (env_nofile 100)
                   desk_sample window_sample player_playing)) /\
  playing (player_after (_play_path "a.mp3"%string) (env_nofile 100)
             desk_sample window_sample player_playing) = true.
Proof.
  assert (H : is_file (env_nofile 100) "a.mp3"%string = false) by reflexivity.
  destruct (play_path_missing_file "a.mp3"%string (env_nofile 100)
              desk_sample window_sample player_playing H)
    as (_ & Himp & _ & _ & _ & _ & Hpl & Hplay & _).
  split; [exact H|].
  split; [etransitivity; [exact Himp | reflexivity]|].
  split; [exact Hpl | exact Hplay].
Defined.

Lemma _add_to_custom_run (p : string) (e : Env) (d : Desk) (w : MainWindow)
      (s : MusicPlayer) :
  wrun (_add_to_custom p) e d w s =
    if negb (is_file e p)
    then (Ok tt, mkShell w (mkMachine s [] 0) true [] [warning "Missing file"])
    else if contains p (custom w)
    then (Ok tt, mkShell w (mkMachine s [] 0) true [] [information "Info"])
    else (Ok tt,
          mkShell (with_custom w (custom w ++ [p])) (mkMachine s [] 0) true
                  [(CUSTOM_JSON, custom w ++ [p])] [information "Added"]).
Proof.
  unfold _add_to_custom. unfold_ui.
  destruct (is_file e p); unfold_ui; [|reflexivity].
  destruct (contains p (custom w)); unfold_ui; reflexivity.
Qed.

(** X16.  [_add_to_custom] treats the custom playlist as a set.  An existing
    file is in the list afterwards, exactly once if the list had no
    duplicate; a file that is gone, or already listed, leaves the list as it
    is and nothing is written to disk; otherwise the file is appended and
    the list written.  The engine is not touched. *)
Theorem add_to_custom_inserts (p : string) (e : Env) (d : Desk)
        (w : MainWindow) (s : MusicPlayer) :
  let sh := snd (wrun (_add_to_custom p) e d w s) in
  let w' := window sh in
  (is_file e p = true -> In p (custom w')) /\
  (NoDup (custom w) -> NoDup (custom w')) /\
  (forall y, In y (custom w') <->
             In y (custom w) \/ (y = p /\ is_file e p = true)) /\
  (is_file e p = false \/ In p (custom w) ->
   w' = w /\ saved sh = []) /\
  (is_file e p = true -> ~ In p (custom w) ->
   custom w' = custom w ++ [p] /\ saved sh = [(CUSTOM_JSON, custom w')]) /\
  engine sh = mkMachine s [] 0.
Proof.
  cbv zeta. rewrite _add_to_custom_run.
  destruct (is_file e p) eqn:Hf; cbn [negb].
  - destruct (contains p (custom w)) eqn:Hc;
      cbn [snd window saved engine with_custom custom].
    + apply contains_In in Hc.
      split; [intros _; exact Hc|]. split; [tauto|]. split.
      * intros y. split; [tauto|]. intros [H|[-> _]]; assumption.
      * split; [intros _; split; reflexivity|].
        split; [contradiction | reflexivity].
    + apply contains_false_iff in Hc.
      split; [intros _; apply in_or_app; right; left; reflexivity|].
      split.
      * intros Hnd. apply NoDup_app; [exact Hnd | repeat constructor;
                                                   intros [] |].
        intros y Hy [<-|[]]. exact (Hc Hy).
      * split.
        -- intros y. rewrite in_app_iff. cbn [In]. split.
           ++ intros [H|[<-|[]]]; [left; exact H | right; split; reflexivity].
           ++ intros [H|[-> _]]; [left; exact H | right; left; reflexivity].
        -- split; [intros [H|H]; [discriminate H | contradiction]|].
           split; [intros _ _; split; reflexivity | reflexivity].
  - cbn [snd window saved engine].
    split; [discriminate|]. split; [tauto|]. split.
    + intros y. split; [tauto|]. intros [H|[_ H]]; [exact H | discriminate H].
    + split; [intros _; split; reflexivity|].
      split; [discriminate | reflexivity].
Qed.

(** Adding [b.mp3] to the empty custom list, and adding it once more. *)
Lemma add_to_custom_inserts_witness :
  is_file (env_ok 0 100) "b.mp3"%string = true /\
  ~ In "b.mp3"%string (custom window_sample) /\
  custom (window_after (_add_to_custom "b.mp3"%string) (env_ok 0 100)
            desk_sample window_sample player_loaded) = ["b.mp3"%string] /\
  window_after (_add_to_custom "b.mp3"%string) (env_ok 0 101) desk_sample
    (window_after (_add_to_custom "b.mp3"%string) (env_ok 0 100)
       desk_sample window_sample player_loaded) player_loaded
  = window_after (_add_to_custom "b.mp3"%string) (env_ok 0 100)
      desk_sample window_sample player_loaded.
Proof.
  assert (H1 : is_file (env_ok 0 100) "b.mp3"%string = true) by reflexivity.
  assert (H2 : ~ In "b.mp3"%string (custom window_sample)) by (intros []).
  destruct (add_to_custom_inserts "b.mp3"%string (env_ok 0 100) desk_sample
              window_sample player_loaded)
    as (Hin & _ & _ & _ & Hnew & _).
  destruct (add_to_custom_inserts "b.mp3"%string (env_ok 0 101) desk_sample
              (window_after (_add_to_custom "b.mp3"%string) (env_ok 0 100)
                 desk_sample window_sample player_loaded) player_loaded)
    as (_ & _ & _ & Hsame & _).
  split; [exact H1|]. split; [exact H2|].
  split; [exact (proj1 (Hnew H1 H2))|].
  apply Hsame. right. exact (Hin H1).
Defined.

Lemma master_paths (e : Env) (d : Desk) (w : MainWindow) :
  NoDup (map song_path (uniq_loop (collected_songs e d w) [] [])) /\
  forall p,
    In p (map song_path (uniq_loop (collected_songs e d w) [] [])) <->
    In p (map song_path (collected_songs e d w)).
Proof.
  destruct (uniq_loop_spec (collected_songs e d w) [] []) as (Hnd & Hin & _);
    [intros p; cbn; tauto | constructor |].
  split; [exact Hnd|]. intros p. rewrite Hin. cbn [map In]. tauto.
Qed.

Lemma extended_In (l files : list string) (y : string) :
  In y (extended l files) <-> In y l \/ In y files.
Proof.
  revert l. induction files as [|f files IH]; intros l; cbn [extended In].
  - tauto.
  - destruct (contains f l) eqn:Hc; rewrite IH.
    + apply contains_In in Hc. split; [tauto|].
      intros [H|[<-|H]]; tauto.
    + rewrite in_app_iff. cbn [In]. tauto.
Qed.

Lemma extended_NoDup (l files : list string) :
  NoDup l -> NoDup (extended l files).
Proof.
  revert l. induction files as [|f files IH]; intros l Hl; cbn [extended].
  - exact Hl.
  - destruct (contains f l) eqn:Hc; apply IH; [exact Hl|].
    apply contains_false_iff in Hc.
    apply NoDup_app; [exact Hl | repeat constructor; intros [] |].
    intros y Hy [<-|[]]. exact (Hc Hy).
Qed.

Lemma extended_length (l files : list string) :
  (length l <= length (extended l files))%nat.
Proof.
  revert l. induction files as [|f files IH]; intros l; cbn [extended].
  - lia.
  - destruct (contains f l); [apply IH|].
    specialize (IH (l ++ [f])). rewrite length_app in IH. cbn in IH. lia.
Qed.

Lemma extended_same (l files : list string) :
  (forall f, In f files -> In f l) -> extended l files = l.
Proof.
  induction files as [|f files IH]; intros H; cbn [extended]; [reflexivity|].
  assert (Hc : contains f l = true)
    by (apply contains_In, H; left; reflexivity).
  rewrite Hc. apply IH. intros g Hg. apply H. right. exact Hg.
Qed.

Lemma extended_grows (l files : list string) :
  (exists f, In f files /\ ~ In f l) ->
  (length l < length (extended l files))%nat.
Proof.
  revert l. induction files as [|f files IH]; intros l (g & Hg & Hn).
  - destruct Hg.
  - cbn [extended]. destruct (contains f l) eqn:Hc.
    + apply contains_In in Hc. apply IH. exists g.
      destruct Hg as [<-|Hg]; [contradiction | tauto].
    + pose proof (extended_length (l ++ [f]) files) as H.
      rewrite length_app in H. cbn in H. lia.
Qed.

Lemma add_files_run (files : list string) (k : Z) (e : Env) (d : Desk)
      (sh : Shell) :
  add_files files k e d sh =
    (Ok (k + Z.of_nat (length (extended (imported (window sh)) files))
         - Z.of_nat (length (imported (window sh))))%Z,
     mkShell (with_imported (window sh)
                (extended (imported (window sh)) files))
             (engine sh) (has_player sh) (saved sh) (dialogs sh)).
Proof.
  revert k sh. induction files as [|f files IH]; intros k sh.
  - cbn [add_files extended]. unfold_ui. destruct sh as [[] ? ? ? ?].
    cbn. f_equal. f_equal. lia.
  - cbn [add_files extended]. unfold_ui.
    destruct (contains f (imported (window sh))) eqn:Hc; unfold_ui.
    + apply IH.
    + rewrite IH. cbn [window imported with_imported engine has_player saved
                       dialogs].
      rewrite length_app. cbn [length]. f_equal. f_equal. lia.
Qed.

Lemma _popup_add_songs_run (e : Env) (d : Desk) (w : MainWindow)
      (s : MusicPlayer) :
  let l := extended (imported w) (chosen_files d) in
  wrun _popup_add_songs e d w s =
    if is_empty (chosen_files d) then (Ok tt, shell_of w s)
    else if (length l =? length (imported w))%nat
    then (Ok tt,
          mkShell (with_imported w l) (mkMachine s [] 0) true []
                  [information "No new songs"])
    else
      let (r, sh) :=
        _refresh_master e d
          (mkShell (with_imported w l) (mkMachine s [] 0) true
                   [(IMPORTED_JSON, l)] []) in
      (r, mkShell (window sh) (engine sh) (has_player sh) (saved sh)
                  (dialogs sh ++ [information "Imported"])).
Proof.
  cbv zeta. unfold _popup_add_songs. unfold_ui.
  destruct (is_empty (chosen_files d)); unfold_ui; [reflexivity|].
  rewrite add_files_run. unfold_ui.
  pose proof (extended_length (imported w) (chosen_files d)) as Hle.
  destruct (Nat.eqb_spec (length (extended (imported w) (chosen_files d)))
              (length (imported w))) as [Hl|Hl].
  - replace (0 + Z.of_nat _ - Z.of_nat _ =? 0)%Z with true
      by (symmetry; apply Z.eqb_eq; lia).
    unfold_ui. reflexivity.
  - replace (0 + Z.of_nat _ - Z.of_nat _ =? 0)%Z with false
      by (symmetry; apply Z.eqb_neq; lia).
    unfold_ui. rewrite !_refresh_master_run. unfold_ui. reflexivity.
Qed.

(** X17.  Importing through the file dialog.  If no file was chosen nothing
    happens.  If every chosen file is already imported, the lists and the
    engine stay as they are and the user reads "No new songs".  If some
    chosen file is new, the imported list afterwards holds exactly the
    files, old or chosen, that exist; every chosen file that exists is in
    the engine's playlist; and the user reads "Imported".  The imported
    list never gains a duplicate. *)
Theorem popup_add_songs_imports (e : Env) (d : Desk) (w : MainWindow)
        (s : MusicPlayer) :
  let sh := snd (wrun _popup_add_songs e d w s) in
  let w' := window sh in
  let s' := self (engine sh) in
  (chosen_files d = [] -> sh = shell_of w s) /\
  (chosen_files d <> [] ->
   (forall f, In f (chosen_files d) -> In f (imported w)) ->
   imported w' = imported w /\ s' = s /\ saved sh = [] /\
   dialogs sh = [information "No new songs"]) /\
  ((exists f, In f (chosen_files d) /\ ~ In f (imported w)) ->
   (forall f, In f (imported w') <->
              (In f (imported w) \/ In f (chosen_files d)) /\
              is_file e f = true) /\
   (forall f, In f (chosen_files d) -> is_file e f = true ->
              In f (playlist s')) /\
   dialogs sh = [information "Imported"]) /\
  (NoDup (imported w) -> NoDup (imported w')).
Proof.
  cbv zeta. rewrite _popup_add_songs_run. cbv zeta.
  pose proof (extended_NoDup (imported w) (chosen_files d)) as Hnd.
  destruct (chosen_files d) as [|f0 files] eqn:Hch.
  - cbn [is_empty snd]. split; [reflexivity|]. split; [congruence|].
    split; [intros (f & [] & _) | intros H; exact H].
  - cbn [is_empty]. rewrite <- Hch in *.
    destruct (Nat.eqb_spec (length (extended (imported w) (chosen_files d)))
                (length (imported w))) as [Hl|Hl].
    + cbn [snd window engine self saved dialogs with_imported imported].
      split; [congruence|]. split; [|split].
      * intros _ Hall. rewrite (extended_same _ _ Hall). repeat split.
      * intros Hex. apply extended_grows in Hex. lia.
      * exact Hnd.
    + rewrite _refresh_master_run.
      cbn [snd window engine self saved dialogs has_player with_imported
           with_master_songs imported app].
      rewrite load_playlist_at. cbn [self playlist].
      split; [congruence|]. split; [|split].
      * intros _ Hall. rewrite (extended_same _ _ Hall) in Hl. lia.
      * intros _. split; [|split; [|reflexivity]].
        -- intros f. rewrite filter_In, extended_In. reflexivity.
        -- intros f Hf Hex. apply filter_In. split; [|exact Hex].
           apply (proj2 (master_paths e d _)), collected_paths. right.
           cbn [with_imported imported]. split; [|exact Hex].
           apply extended_In. right. exact Hf.
      * intros H. apply NoDup_filter, Hnd, H.
Qed.

(** On the sample desk [b.mp3] and [q.mp3] were chosen and [q.mp3] is new:
    afterwards it is imported and in the engine's playlist. *)
Lemma popup_add_songs_imports_witness :
  (exists f, In f (chosen_files desk_sample) /\
             ~ In f (imported window_sample)) /\
  In "q.mp3"%string
     (imported (window_after _popup_add_songs (env_ok 0 100) desk_sample
                  window_sample player_loaded)) /\
  In "q.mp3"%string
     (playlist (player_after _popup_add_songs (env_ok 0 100) desk_sample
                  window_sample player_loaded)).
Proof.
  assert (H : exists f, In f (chosen_files desk_sample) /\
                        ~ In f (imported window_sample)).
  { exists "q.mp3"%string. split; [right; left; reflexivity|].
    intros [H|[H|[H|[]]]]; discriminate H. }
  destruct (popup_add_songs_imports (env_ok 0 100) desk_sample window_sample
              player_loaded) as (_ & _ & Hnew & _).
  destruct (Hnew H) as (Himp & Hpl & _).
  split; [exact H|]. split.
  - apply Himp. split; [right; right; left|]; reflexivity.
  - apply Hpl; [right; left|]; reflexivity.
Defined.

Lemma _on_search_change_run (text : string) (e : Env) (d : Desk)
      (w : MainWindow) (s : MusicPlayer) :
  let q := str_lower d (str_strip d text) in
  wrun (_on_search_change text) e d w s =
    if String.eqb q ""
       || is_empty (filter (fun t => is_substring q
                                       (str_lower d (song_title t)))
                           (master_songs w))
    then (Ok tt, shell_of w s)
    else (Ok tt,
          mkShell (with_searches w (touched MAX_RECENT_SEARCHES q (searches w)))
                  (mkMachine s [] 0) true
                  [(SEARCHES_JSON, touched MAX_RECENT_SEARCHES q (searches w))]
                  []).
Proof.
  cbv zeta. unfold _on_search_change, touched, without_first. unfold_ui.
  destruct (String.eqb _ "") eqn:Hq; unfold_ui; [reflexivity|].
  destruct (is_empty _); unfold_ui; [reflexivity|].
  rewrite ?Hq. unfold_ui.
  destruct (contains _ (searches w)) eqn:Hc.
  - destruct (list_remove_contains _ _ Hc) as [r Hr].
    repeat (unfold_ui; rewrite ?Hr). reflexivity.
  - rewrite (list_remove_absent _ _ Hc). unfold_ui. reflexivity.
Qed.

(** X18.  The recent searches.  A query that is blank once stripped, or
    that no song title contains, leaves the recent searches as they are and
    writes nothing.  Any other query, stripped and in lower case, becomes
    the last recent search; at most eight are kept, none twice if none was
    there twice, and what is written to disk is the list in memory.  The
    engine is not touched. *)
Theorem search_remembers_query (text : string) (e : Env) (d : Desk)
        (w : MainWindow) (s : MusicPlayer) :
  let q := str_lower d (str_strip d text) in
  let sh := snd (wrun (_on_search_change text) e d w s) in
  let w' := window sh in
  (q = ""%string \/
   (forall t, In t (master_songs w) ->
              is_substring q (str_lower d (song_title t)) = false) ->
   sh = shell_of w s) /\
  (q <> ""%string ->
   (exists t, In t (master_songs w) /\
              is_substring q (str_lower d (song_title t)) = true) ->
   (exists front, searches w' = front ++ [q]) /\
   (length (searches w') <= 8)%nat /\
   (NoDup (searches w) -> NoDup (searches w')) /\
   (forall y, In y (searches w') -> y = q \/ In y (searches w)) /\
   saved sh = [(SEARCHES_JSON, searches w')]) /\
  engine sh = mkMachine s [] 0.
Proof.
  cbv zeta. rewrite _on_search_change_run. cbv zeta.
  set (q := str_lower d (str_strip d text)).
  set (ms := filter _ (master_songs w)).
  destruct (String.eqb_spec q "") as [Hq|Hq]; cbn [orb].
  - cbn [snd]. split; [reflexivity|]. split; [contradiction | reflexivity].
  - destruct ms as [|t0 ms'] eqn:Hms; cbn [is_empty snd].
    + split; [reflexivity|]. split; [|reflexivity].
      intros _ (t & Ht & Hsub). exfalso.
      assert (Hin : In t ms) by (apply filter_In; tauto).
      rewrite Hms in Hin. exact Hin.
    + cbn [window engine saved with_searches searches].
      split; [|split; [|reflexivity]].
      * intros [H|H]; [contradiction|]. exfalso.
        assert (Hin : In t0 ms) by (rewrite Hms; left; reflexivity).
        apply filter_In in Hin as [Hin Hsub]. rewrite (H t0 Hin) in Hsub.
        discriminate Hsub.
      * intros _ _.
        destruct (touched_spec 7 q (searches w)) as (H1 & H2 & H3 & H4 & _).
        repeat split; assumption.
Qed.

(** The query "moon" matches a title and joins the recent searches;
    the query "rain" matches none and is forgotten. *)
Lemma search_remembers_query_witness :
  searches (window_after (_on_search_change "moon") (env_ok 0 100)
              desk_sample window_titled player_loaded)
    = ["sun"%string; "moon"%string] /\
  searches (window_after (_on_search_change "rain") (env_ok 0 100)
              desk_sample window_titled player_loaded)
    = ["sun"%string].
Proof.
  destruct (search_remembers_query "moon" (env_ok 0 100) desk_sample
              window_titled player_loaded) as (_ & Hhit & _).
  destruct (search_remembers_query "rain" (env_ok 0 100) desk_sample
              window_titled player_loaded) as (Hmiss & _ & _).
  split.
  - destruct Hhit as ([front Hf] & _); [discriminate | |].
    + exists (mkSong "blue moon" "a.mp3" "imported").
      split; [left|]; reflexivity.
    + vm_compute. reflexivity.
  - unfold window_after. rewrite Hmiss; [reflexivity|].
    right. intros t [<-|[<-|[]]]; reflexivity.
Defined.













(** X21.  Position updates.  While the user drags the timeline a position
    update changes nothing of the window.  Otherwise the elapsed label
    shows the position; for a track of known duration the total label shows
    the duration and, for a position within the track, the timeline is set
    to a value between 0 and 1000; for a track of unknown duration the
    timeline is set to 0 and the total label is kept.  The engine is not
    touched. *)
Theorem position_update_shows (cur total : Q) (e : Env) (d : Desk)
        (w : MainWindow) (s : MusicPlayer) :
  let w' := window_after (_on_position_update cur total) e d w s in
  player_after (_on_position_update cur total) e d w s = s /\
  (_seeking w = true -> w' = w) /\
  (_seeking w = false ->
   label_elapsed w' = _format_time cur /\
   (0 < total ->
    label_total w' = _format_time total /\
    (0 <= cur <= total -> (0 <= timeline_slider w' <= 1000)%Z)) /\
   (total <= 0 ->
    timeline_slider w' = 0%Z /\ label_total w' = label_total w)).
Proof.
  cbv zeta. unfold _on_position_update. unfold_ui.
  destruct w as [im cu re se ms ti sk tg lv vs ts le lt].
  cbn [_seeking]. destruct sk; cbn [negb].
  - split; [reflexivity|]. split; [reflexivity | discriminate].
  - destruct (Qltb 0 total) eqn:Ht;
      [apply Qltb_lt in Ht | apply Qltb_ge in Ht]; unfold_ui.
    + split; [reflexivity|]. split; [discriminate|]. intros _.
      split; [reflexivity|]. split; [|intros Hle; lra].
      intros _. split; [reflexivity|]. intros [H0 H1].
      assert (Hr : 0 <= cur / total * 1000 <= 1000).
      { assert (Ha : 0 <= cur / total).
        { apply Qle_shift_div_l; [exact Ht | lra]. }
        assert (Hb : cur / total <= 1).
        { apply Qle_shift_div_r; [exact Ht | lra]. }
        lra. }
      destruct (int_of_float_floor (cur / total * 1000) (proj1 Hr))
        as [Hlo Hhi].
      assert (H3 : inject_Z (int_of_float (cur / total * 1000))
                   <= inject_Z 1000).
      { change (inject_Z 1000) with 1000. lra. }
      assert (H4 : inject_Z (-1) < inject_Z (int_of_float (cur / total * 1000))).
      { change (inject_Z (-1)) with (-1). lra. }
      rewrite <- Zle_Qle in H3. rewrite <- Zlt_Qlt in H4. lia.
    + split; [reflexivity|]. split; [discriminate|]. intros _.
      split; [reflexivity|]. split; [intros Hlt; lra|].
      intros _. split; reflexivity.
Qed.

(** 50 s into a track of 200 s put the timeline on 250; during a drag the
    window stays as it is. *)
Lemma position_update_shows_witness :
  _seeking window_sample = false /\ 0 < 200 /\ 0 <= 50 <= 200 /\
  _seeking window_dragged = true /\
  timeline_slider
    (window_after (_on_position_update 50 200) (env_ok 0 100) desk_sample
       window_sample player_playing) = 250%Z /\
  (0 <= timeline_slider
          (window_after (_on_position_update 50 200) (env_ok 0 100)
             desk_sample window_sample player_playing) <= 1000)%Z /\
  window_after (_on_position_update 50 200) (env_ok 0 100) desk_sample
    window_dragged player_playing = window_dragged.
Proof.
  assert (H1 : _seeking window_sample = false) by reflexivity.
  assert (H2 : 0 < 200) by reflexivity.
  assert (H3 : 0 <= 50 <= 200) by (split; discriminate).
  assert (H4 : _seeking window_dragged = true) by reflexivity.
  destruct (position_update_shows 50 200 (env_ok 0 100) desk_sample
              window_sample player_playing) as (_ & _ & Hshow).
  destruct (Hshow H1) as (_ & Hknown & _).
  destruct (Hknown H2) as (_ & Hrange).
  destruct (position_update_shows 50 200 (env_ok 0 100) desk_sample
              window_dragged player_playing) as (_ & Hdrag & _).
  split; [exact H1|]. split; [exact H2|]. split; [exact H3|].
  split; [exact H4|]. split; [vm_compute; reflexivity|].
  split; [exact (Hrange H3) | exact (Hdrag H4)].
Defined.

(** X22.  A click on a row of the playlist page.  The rows stand for the
    files of the shown list that exist.  A click on row [idx] behaves as
    [_play_path] of the file behind it, which exists: no warning is shown
    and the imported and custom lists are kept.  A row outside the list, or
    a page with another title, does nothing at all. *)
Theorem play_from_plist_row (idx : Z) (e : Env) (d : Desk) (w : MainWindow)
        (s : MusicPlayer) :
  let songs := shown_songs e w in
  let sh := snd (wrun (_play_from_plist idx) e d w s) in
  (forall p, (0 <= idx)%Z -> nth_error songs (Z.to_nat idx) = Some p ->
     is_file e p = true /\
     wrun (_play_from_plist idx) e d w s = wrun (_play_path p) e d w s /\
     dialogs sh = [] /\
     imported (window sh) = imported w /\ custom (window sh) = custom w) /\
  ((idx < 0 \/ len songs <= idx)%Z ->
   wrun (_play_from_plist idx) e d w s = (Ok tt, shell_of w s)).
Proof.
  cbv zeta.
  assert (E : wrun (_play_from_plist idx) e d w s =
              if ((0 <=? idx) && (idx <? len (shown_songs e w)))%Z
              then match getitem (shown_songs e w) idx with
                   | Ok p => wrun (_play_path p) e d w s
                   | Raise x => (Raise x, shell_of w s)
                   end
              else (Ok tt, shell_of w s)).
  { unfold _play_from_plist, shown_songs. unfold_ui.
    destruct (String.eqb (pl_title w) "My Device Songs"); unfold_ui.
    - destruct ((0 <=? idx) && (idx <? len (filter (is_file e) (imported w))))%Z;
        [|destruct w; reflexivity].
      unfold_ui. destruct (getitem _ idx); destruct w; reflexivity.
    - destruct (String.eqb (pl_title w) "Custom Playlist"); unfold_ui.
      + destruct ((0 <=? idx) && (idx <? len (filter (is_file e) (custom w))))%Z;
          [|destruct w; reflexivity].
        unfold_ui. destruct (getitem _ idx); destruct w; reflexivity.
      + destruct ((0 <=? idx) && (idx <? len (@nil string)))%Z;
          [|destruct w; reflexivity].
        unfold_ui. destruct (getitem _ idx); destruct w; reflexivity. }
  split.
  - intros p H0 Hn.
    pose proof (nth_some_range _ _ _ H0 Hn) as Hlt.
    assert (Hf : is_file e p = true).
    { apply nth_error_In in Hn. unfold shown_songs in Hn.
      destruct (String.eqb (pl_title w) "My Device Songs");
        [apply filter_In in Hn; tauto|].
      destruct (String.eqb (pl_title w) "Custom Playlist");
        [apply filter_In in Hn; tauto | destruct Hn]. }
    rewrite E.
    destruct (Z.leb_spec 0 idx); [|lia].
    destruct (Z.ltb_spec idx (len (shown_songs e w))); [|lia].
    cbn [andb]. rewrite (getitem_nth _ _ _ H0 Hn).
    split; [exact Hf|]. split; [reflexivity|].
    rewrite (_play_path_found p e d w s Hf). cbn [snd dialogs window].
    split; [reflexivity|].
    match goal with |- context [heard e ?l ?y] =>
      destruct (heard_keeps e l y) as (K1 & K2 & _)
    end.
    rewrite K1, K2. split; reflexivity.
  - intros Hout. rewrite E.
    destruct (Z.leb_spec 0 idx); [|reflexivity].
    destruct (Z.ltb_spec idx (len (shown_songs e w))); [lia | reflexivity].
Qed.

(** On the device page with [a.mp3] and [b.mp3]: row 1 plays [b.mp3], row 2
    does nothing. *)
Lemma play_from_plist_row_witness :
  (0 <= 1)%Z /\
  nth_error (shown_songs (env_ok 0 100) window_device) (Z.to_nat 1)
    = Some "b.mp3"%string /\
  (len (shown_songs (env_ok 0 100) window_device) <= 2)%Z /\
  wrun (_play_from_plist 1) (env_ok 0 100) desk_sample window_device
       player_loaded
    = wrun (_play_path "b.mp3"%string) (env_ok 0 100) desk_sample
           window_device player_loaded /\
  wrun (_play_from_plist 2) (env_ok 0 100) desk_sample window_device
       player_loaded
    = (Ok tt, shell_of window_device player_loaded).
Proof.
  assert (H0 : (0 <= 1)%Z) by lia.
  assert (Hn : nth_error (shown_songs (env_ok 0 100) window_device)
                 (Z.to_nat 1) = Some "b.mp3"%string) by reflexivity.
  assert (Hl : (len (shown_songs (env_ok 0 100) window_device) <= 2)%Z)
    by (vm_compute; discriminate).
  destruct (play_from_plist_row 1 (env_ok 0 100) desk_sample window_device
              player_loaded) as [Hin _].
  destruct (Hin "b.mp3"%string H0 Hn) as (_ & Hsame & _).
  destruct (play_from_plist_row 2 (env_ok 0 100) desk_sample window_device
              player_loaded) as [_ Hout].
  split; [exact H0|]. split; [exact Hn|]. split; [exact Hl|].
  split; [exact Hsame | exact (Hout (or_intror Hl))].
Defined.

Lemma replace_char_spec (a b : ascii) (s : string) :
  String.length (replace_char a b s) = String.length s /\
  forall i, String.get i (replace_char a b s) =
            match String.get i s with
            | Some c => Some (if Ascii.eqb c a then b else c)
            | None => None
            end.
Proof.
  induction s as [|c s [IHl IHg]]; cbn [replace_char String.length].
  - split; [reflexivity|]. intros i. reflexivity.
  - split; [f_equal; exact IHl|].
    intros [|i]; cbn [String.get]; [reflexivity | apply IHg].
Qed.

(** X23.  [nice_title] is the stem of the file name, character by
    character, with a blank in the place of every underscore and every
    hyphen: it has the length of the stem and holds neither of the two
    characters. *)
Theorem nice_title_clean (d : Desk) (p : string) :
  let name := os_splitext_root d (os_basename d p) in
  String.length (nice_title d p) = String.length name /\
  (forall i,
     String.get i (nice_title d p) =
       match String.get i name with
       | Some c =>
           Some (if (Ascii.eqb c "_" || Ascii.eqb c "-")%bool
                 then " "%char else c)
       | None => None
       end) /\
  (forall i c, String.get i (nice_title d p) = Some c ->
               c <> "_"%char /\ c <> "-"%char).
Proof.
  cbv zeta. unfold nice_title.
  set (name := os_splitext_root d (os_basename d p)).
  destruct (replace_char_spec "_" " " name) as [L1 G1].
  destruct (replace_char_spec "-" " " (replace_char "_" " " name))
    as [L2 G2].
  assert (G : forall i,
             String.get i (replace_char "-" " " (replace_char "_" " " name)) =
             match String.get i name with
             | Some c =>
                 Some (if (Ascii.eqb c "_" || Ascii.eqb c "-")%bool
                       then " "%char else c)
             | None => None
             end).
  { intros i. rewrite G2, G1. destruct (String.get i name) as [c|];
      [|reflexivity].
    destruct (Ascii.eqb c "_") eqn:E1; [reflexivity|].
    cbn [orb]. reflexivity. }
  split; [congruence|]. split; [exact G|].
  intros i c Hc. rewrite G in Hc.
  destruct (String.get i name) as [c0|]; [|discriminate].
  injection Hc as <-.
  destruct (Ascii.eqb c0 "_") eqn:E1; cbn [orb].
  - split; discriminate.
  - destruct (Ascii.eqb c0 "-") eqn:E2; [split; discriminate|].
    apply Ascii.eqb_neq in E1, E2. split; assumption.
Qed.

(** The title of [my_song-1] is [my song 1]. *)
Lemma nice_title_clean_witness :
  nice_title desk_sample "my_song-1"%string = "my song 1"%string /\
  String.get 2 (nice_title desk_sample "my_song-1"%string)
    = Some " "%char /\
  " "%char <> "_"%char /\ " "%char <> "-"%char.
Proof.
  assert (H : String.get 2 (nice_title desk_sample "my_song-1"%string)
              = Some " "%char) by reflexivity.
  destruct (nice_title_clean desk_sample "my_song-1"%string) as (_ & _ & Hc).
  split; [reflexivity|]. split; [exact H|]. exact (Hc 2%nat " "%char H).
Defined.
